(** * Appointment scheduling service: mutation and conflict-detection engine

    A shallow embedding of [appointment_service.py]: the in-memory store
    [appointments_db], the idempotency ledger [idempotency_keys], the detailed
    validator, the conflict detector, the overlap analyzer and the create,
    status-update and lookup operations, followed by the properties the
    specification states about them. *)

From Stdlib Require Import ZArith Ascii List Bool Lia.
From stdpp Require Import base option list strings pretty gmap fin_maps.

Local Open Scope Z_scope.

(** ** Python values *)

(** A value found in a request payload (the JSON body of the HTTP layer).
    [VOther] stands for the values no check of the service tells apart:
    floats, lists and nested objects. *)
Inductive pyval : Type :=
  | VNone
  | VBool (b : bool)
  | VInt (z : Z)
  | VStr (s : string)
  | VOther.

(** The [payload] argument: a dictionary with string keys, or anything else. *)
Inductive pyobj : Type :=
  | PyDict (d : gmap string pyval)
  | PyNonDict (v : pyval).

(** [isinstance(v, str)] *)
Definition as_str (v : pyval) : option string :=
  match v with VStr s => Some s | _ => None end.

(** [isinstance(v, int)]: Python's [bool] is a subclass of [int], [True]
    compares and adds as 1 and [False] as 0. *)
Definition as_int (v : pyval) : option Z :=
  match v with
  | VInt z => Some z
  | VBool b => Some (if b then 1 else 0)
  | _ => None
  end.

(** Exceptions raised by the service, with the message they are built from
    ([e.args] holds that one string). *)
Inductive exn : Type :=
  | ValueError (msg : string)
  | RuntimeError (msg : string)
  | KeyError (msg : string)
  | OverflowError (msg : string).

Definition exn_args (e : exn) : list string :=
  match e with
  | ValueError m | RuntimeError m | KeyError m | OverflowError m => [m]
  end.

(** ** Strings *)

(** [sep.join(parts)] *)
Fixpoint join (sep : string) (parts : list string) : string :=
  match parts with
  | [] => ""
  | [p] => p
  | p :: rest => p +:+ sep +:+ join sep rest
  end.

(** Text is a sequence of characters with code points below 256. *)
Definition code (c : ascii) : Z := Z.of_N (N_of_ascii c).

(** [c.isspace()] on these characters: tab, line feed, vertical tab, form
    feed, carriage return, the four separators 28..31, the space, the next
    line control 133 and the no-break space 160. *)
Definition py_isspace (c : ascii) : bool :=
  let n := code c in
  ((9 <=? n) && (n <=? 13)) || ((28 <=? n) && (n <=? 32)) || (n =? 133) || (n =? 160).

Fixpoint all_space (s : string) : bool :=
  match s with
  | EmptyString => true
  | String c rest => py_isspace c && all_space rest
  end.

(** [not s.strip()]: stripping leaves nothing exactly when every character
    is white space. *)
Definition blank (s : string) : bool := all_space s.

(** The value of a decimal digit: [\d] of the [re] module, which below 256
    matches the ten ASCII digits only. *)
Definition digit (c : ascii) : option Z :=
  let n := code c in
  if (48 <=? n) && (n <=? 57) then Some (n - 48) else None.

Definition in_range (lo hi x : Z) : bool := (lo <=? x) && (x <=? hi).

(** ** [datetime.strptime] for the two formats the service uses

    [_strptime] turns the format into a regular expression, matches it at the
    start of the text with ordered alternatives, and rejects text left over
    after the match. *)

Definition first_some {A} (alts : list (option A)) : option A :=
  List.fold_right (fun a acc => match a with Some x => Some x | None => acc end) None alts.

(** [%H] followed by the literal colon: [2[0-3]|[0-1]\d|\d]. The result is
    the hour and the text after the colon. *)
Definition match_H_colon (s : string) : option (Z * string) :=
  first_some
    [ match s with
      | String a (String b (String ":"%char rest)) =>
          match digit a, digit b with
          | Some x, Some y => if (x =? 2) && in_range 0 3 y then Some (10 * x + y, rest) else None
          | _, _ => None
          end
      | _ => None
      end;
      match s with
      | String a (String b (String ":"%char rest)) =>
          match digit a, digit b with
          | Some x, Some y => if in_range 0 1 x then Some (10 * x + y, rest) else None
          | _, _ => None
          end
      | _ => None
      end;
      match s with
      | String a (String ":"%char rest) =>
          match digit a with Some x => Some (x, rest) | None => None end
      | _ => None
      end ].

(** [%M] at the end of the pattern: [[0-5]\d|\d], first alternative that
    matches; the rest of the text is returned. *)
Definition match_M (s : string) : option (Z * string) :=
  first_some
    [ match s with
      | String a (String b rest) =>
          match digit a, digit b with
          | Some x, Some y => if in_range 0 5 x then Some (10 * x + y, rest) else None
          | _, _ => None
          end
      | _ => None
      end;
      match s with
      | String a rest => match digit a with Some x => Some (x, rest) | None => None end
      | _ => None
      end ].

(** [datetime.strptime(s, '%H:%M').time()] as (hour, minute); [None] is the
    [ValueError]. *)
Definition strptime_HM (s : string) : option (Z * Z) :=
  match match_H_colon s with
  | Some (h, rest) =>
      match match_M rest with
      | Some (m, EmptyString) => Some (h, m)
      | _ => None
      end
  | None => None
  end.

(** [%Y] followed by the dash: four digits. *)
Definition match_Y_dash (s : string) : option (Z * string) :=
  match s with
  | String a (String b (String c (String d (String "-"%char rest)))) =>
      match digit a, digit b, digit c, digit d with
      | Some x, Some y, Some z, Some w => Some (1000 * x + 100 * y + 10 * z + w, rest)
      | _, _, _, _ => None
      end
  | _ => None
  end.

(** [%m] followed by the dash: [1[0-2]|0[1-9]|[1-9]]. *)
Definition match_m_dash (s : string) : option (Z * string) :=
  first_some
    [ match s with
      | String a (String b (String "-"%char rest)) =>
          match digit a, digit b with
          | Some x, Some y => if (x =? 1) && in_range 0 2 y then Some (10 + y, rest) else None
          | _, _ => None
          end
      | _ => None
      end;
      match s with
      | String a (String b (String "-"%char rest)) =>
          match digit a, digit b with
          | Some x, Some y => if (x =? 0) && in_range 1 9 y then Some (y, rest) else None
          | _, _ => None
          end
      | _ => None
      end;
      match s with
      | String a (String "-"%char rest) =>
          match digit a with
          | Some x => if in_range 1 9 x then Some (x, rest) else None
          | None => None
          end
      | _ => None
      end ].

(** [%d] at the end of the pattern: [3[0-1]|[1-2]\d|0[1-9]|[1-9]| [1-9]]. *)
Definition match_d (s : string) : option (Z * string) :=
  first_some
    [ match s with
      | String a (String b rest) =>
          match digit a, digit b with
          | Some x, Some y => if (x =? 3) && in_range 0 1 y then Some (30 + y, rest) else None
          | _, _ => None
          end
      | _ => None
      end;
      match s with
      | String a (String b rest) =>
          match digit a, digit b with
          | Some x, Some y => if in_range 1 2 x then Some (10 * x + y, rest) else None
          | _, _ => None
          end
      | _ => None
      end;
      match s with
      | String a (String b rest) =>
          match digit a, digit b with
          | Some x, Some y => if (x =? 0) && in_range 1 9 y then Some (y, rest) else None
          | _, _ => None
          end
      | _ => None
      end;
      match s with
      | String a rest =>
          match digit a with
          | Some x => if in_range 1 9 x then Some (x, rest) else None
          | None => None
          end
      | _ => None
      end;
      match s with
      | String " "%char (String b rest) =>
          match digit b with
          | Some y => if in_range 1 9 y then Some (y, rest) else None
          | None => None
          end
      | _ => None
      end ].

Definition is_leap (y : Z) : bool :=
  (y mod 4 =? 0) && (negb (y mod 100 =? 0) || (y mod 400 =? 0)).

Definition days_in_month (y m : Z) : Z :=
  if m =? 2 then (if is_leap y then 29 else 28)
  else if (m =? 4) || (m =? 6) || (m =? 9) || (m =? 11) then 30
  else 31.

(** [datetime.strptime(s, '%Y-%m-%d')] as (year, month, day): the match, then
    the calendar check of [datetime.date] (years start at 1). *)
Definition strptime_Ymd (s : string) : option (Z * Z * Z) :=
  match match_Y_dash s with
  | Some (y, rest1) =>
      match match_m_dash rest1 with
      | Some (m, rest2) =>
          match match_d rest2 with
          | Some (d, EmptyString) =>
              if (1 <=? y) && (d <=? days_in_month y m) then Some (y, m, d) else None
          | _ => None
          end
      | None => None
      end
  | None => None
  end.

(** ** Data model *)

Module AppointmentStatus.
Definition CONFIRMED : string := "Confirmed".
Definition SCHEDULED : string := "Scheduled".
Definition UPCOMING : string := "Upcoming".
Definition CANCELLED : string := "Cancelled".
End AppointmentStatus.

Module AppointmentMode.
Definition ONLINE : string := "online".
Definition IN_PERSON : string := "in-person".
End AppointmentMode.

(** A stored appointment: the dictionary with the keys [id], [patientName],
    [date], [time], [duration], [doctorName], [status] and [mode]. Every
    record of the store is built by [create_appointment] after validation
    (or is one of the samples below), so the values have these types; a
    duration given as a Python [bool] is held as the integer it counts as. *)
Record Appointment : Type := mkAppointment {
  a_id : string;
  a_patientName : string;
  a_date : string;
  a_time : string;
  a_duration : Z;
  a_doctorName : string;
  a_status : string;
  a_mode : string
}.

(** [appointment['status'] = new_status] *)
Definition set_status (a : Appointment) (new_status : string) : Appointment :=
  {| a_id := a_id a; a_patientName := a_patientName a; a_date := a_date a;
     a_time := a_time a; a_duration := a_duration a;
     a_doctorName := a_doctorName a; a_status := new_status; a_mode := a_mode a |}.

(** The process-wide state: the record list, the idempotency ledger (one
    dictionary for all operations) and the source of randomness behind
    [uuid.uuid4()]: [uuid4_prefix n] is [str(uuid.uuid4())[:8]] at the n-th
    call, [uuid4_calls] counts the calls made so far. *)
Record Store : Type := mkStore {
  appointments_db : list Appointment;
  idempotency_keys : gmap string Appointment;
  uuid4_prefix : nat -> string;
  uuid4_calls : nat
}.

Definition sample_appointments : list Appointment :=
  [ mkAppointment "apt_001" "John Smith" "2024-01-15" "09:00" 30 "Dr. Johnson"
      AppointmentStatus.CONFIRMED AppointmentMode.IN_PERSON;
    mkAppointment "apt_002" "Sarah Wilson" "2024-01-15" "10:30" 45 "Dr. Smith"
      AppointmentStatus.SCHEDULED AppointmentMode.ONLINE;
    mkAppointment "apt_003" "Michael Brown" "2024-01-16" "14:00" 60 "Dr. Johnson"
      AppointmentStatus.UPCOMING AppointmentMode.IN_PERSON;
    mkAppointment "apt_004" "Emily Davis" "2024-01-16" "11:15" 30 "Dr. Williams"
      AppointmentStatus.CONFIRMED AppointmentMode.ONLINE;
    mkAppointment "apt_005" "Robert Taylor" "2024-01-17" "08:30" 45 "Dr. Smith"
      AppointmentStatus.SCHEDULED AppointmentMode.IN_PERSON;
    mkAppointment "apt_006" "Lisa Anderson" "2024-01-17" "13:45" 30 "Dr. Johnson"
      AppointmentStatus.CANCELLED AppointmentMode.ONLINE;
    mkAppointment "apt_007" "David Martinez" "2024-01-18" "10:00" 60 "Dr. Williams"
      AppointmentStatus.UPCOMING AppointmentMode.IN_PERSON;
    mkAppointment "apt_008" "Jennifer Garcia" "2024-01-18" "15:30" 45 "Dr. Smith"
      AppointmentStatus.CONFIRMED AppointmentMode.ONLINE;
    mkAppointment "apt_009" "Christopher Lee" "2024-01-19" "09:15" 30 "Dr. Johnson"
      AppointmentStatus.SCHEDULED AppointmentMode.IN_PERSON;
    mkAppointment "apt_010" "Amanda White" "2024-01-19" "16:00" 45 "Dr. Williams"
      AppointmentStatus.UPCOMING AppointmentMode.ONLINE;
    mkAppointment "apt_011" "Kevin Thompson" "2024-01-20" "11:30" 60 "Dr. Smith"
      AppointmentStatus.CONFIRMED AppointmentMode.IN_PERSON;
    mkAppointment "apt_012" "Michelle Rodriguez" "2024-01-20" "14:15" 30 "Dr. Johnson"
      AppointmentStatus.SCHEDULED AppointmentMode.ONLINE ].

(** The state at import time, for a given run of the random generator. *)
Definition initial_store (rand : nat -> string) : Store :=
  mkStore sample_appointments ∅ rand 0.

(** ** Computations over the store that may raise

    A raised exception keeps the state reached so far: Python does not roll
    back what a function did before raising. *)
Definition M (A : Type) : Type := Store -> (exn + A) * Store.

Definition ret {A} (x : A) : M A := fun st => (inr x, st).

Definition bind {A B} (c : M A) (k : A -> M B) : M B :=
  fun st =>
    match c st with
    | (inl e, st') => (inl e, st')
    | (inr x, st') => k x st'
    end.

Definition raise {A} (e : exn) : M A := fun st => (inl e, st).

Definition gets {A} (f : Store -> A) : M A := fun st => (inr (f st), st).

Definition modify (f : Store -> Store) : M unit := fun st => (inr tt, f st).

Declare Scope store_scope.
Delimit Scope store_scope with store.
Notation "x <- c ;; k" := (bind c (fun x => k))
  (at level 61, c at next level, k at level 200, right associativity) : store_scope.
Notation "c ;;; k" := (bind c (fun _ => k))
  (at level 61, k at level 200, right associativity) : store_scope.
Local Open Scope store_scope.

(** ** Utility functions *)

(** [x in xs] on a list of strings *)
Definition py_in (x : string) (xs : list string) : bool :=
  existsb (String.eqb x) xs.

Definition is_valid_status (status : string) : bool :=
  let valid_statuses :=
    [AppointmentStatus.CONFIRMED; AppointmentStatus.SCHEDULED;
     AppointmentStatus.UPCOMING; AppointmentStatus.CANCELLED] in
  py_in status valid_statuses.

Definition is_valid_mode (mode : string) : bool :=
  let valid_modes := [AppointmentMode.ONLINE; AppointmentMode.IN_PERSON] in
  py_in mode valid_modes.

(** [if x:] on an optional string argument: [None] and the empty string are
    both false. *)
Definition truthy (x : option string) : option string :=
  match x with
  | Some s => if String.eqb s "" then None else Some s
  | None => None
  end.

(** ** Validator *)

(** The six blocks of [validate_appointment_data_detailed], in source order.
    Each reads one key and appends at most one message to [errors]. *)

Definition validate_patient_name (data : gmap string pyval) (errors : list string)
    : list string :=
  match data !! "patientName" with
  | None => errors ++ ["Patient name is required"]
  | Some v =>
      match as_str v with
      | None => errors ++ ["Patient name must be a string"]
      | Some s =>
          if blank s
          then errors ++ ["Patient name cannot be empty or whitespace only"]
          else errors
      end
  end.

Definition validate_date (data : gmap string pyval) (errors : list string) : list string :=
  match data !! "date" with
  | None => errors ++ ["Date is required"]
  | Some v =>
      match as_str v with
      | None => errors ++ ["Date must be a string"]
      | Some s =>
          match strptime_Ymd s with
          | Some _ => errors
          | None => errors ++ ["Date must be in YYYY-MM-DD format"]
          end
      end
  end.

Definition validate_time (data : gmap string pyval) (errors : list string) : list string :=
  match data !! "time" with
  | None => errors ++ ["Time is required"]
  | Some v =>
      match as_str v with
      | None => errors ++ ["Time must be a string"]
      | Some s =>
          match strptime_HM s with
          | Some _ => errors
          | None => errors ++ ["Time must be in HH:MM format (24-hour)"]
          end
      end
  end.

Definition validate_duration (data : gmap string pyval) (errors : list string)
    : list string :=
  match data !! "duration" with
  | None => errors ++ ["Duration is required"]
  | Some v =>
      match as_int v with
      | None => errors ++ ["Duration must be an integer"]
      | Some n =>
          if n <=? 0 then errors ++ ["Duration must be greater than 0 minutes"]
          else if n >? 480 then errors ++ ["Duration cannot exceed 480 minutes (8 hours)"]
          else errors
      end
  end.

Definition validate_doctor_name (data : gmap string pyval) (errors : list string)
    : list string :=
  match data !! "doctorName" with
  | None => errors ++ ["Doctor name is required"]
  | Some v =>
      match as_str v with
      | None => errors ++ ["Doctor name must be a string"]
      | Some s =>
          if blank s
          then errors ++ ["Doctor name cannot be empty or whitespace only"]
          else errors
      end
  end.

Definition validate_mode (data : gmap string pyval) (errors : list string) : list string :=
  match data !! "mode" with
  | None => errors ++ ["Appointment mode is required"]
  | Some v =>
      match as_str v with
      | None => errors ++ ["Appointment mode must be a string"]
      | Some s =>
          if is_valid_mode s then errors
          else
            let valid_modes := [AppointmentMode.ONLINE; AppointmentMode.IN_PERSON] in
            errors ++ ["Appointment mode must be one of: " +:+ join ", " valid_modes]
      end
  end.

Definition validate_appointment_data_detailed (data : pyobj) : bool * list string :=
  match data with
  | PyNonDict _ => (false, ["Appointment data must be a dictionary"])
  | PyDict d =>
      let errors : list string := [] in
      let errors := validate_patient_name d errors in
      let errors := validate_date d errors in
      let errors := validate_time d errors in
      let errors := validate_duration d errors in
      let errors := validate_doctor_name d errors in
      let errors := validate_mode d errors in
      (Nat.eqb (length errors) 0, errors)
  end.

(** ** Identity generation *)

Definition ensure_unique_appointment_id (appointment_id : string) : M bool :=
  db <- gets appointments_db ;;
  ret (negb (existsb (fun apt => String.eqb (a_id apt) appointment_id) db)).

(** One call of [uuid.uuid4()], cut to its first eight characters. *)
Definition uuid4_8 : M string :=
  u <- gets (fun st => uuid4_prefix st (uuid4_calls st)) ;;
  modify (fun st => mkStore (appointments_db st) (idempotency_keys st)
                            (uuid4_prefix st) (S (uuid4_calls st))) ;;;
  ret u.

(** The [for _ in range(max_retries)] loop, [remaining] iterations to go. *)
Fixpoint generate_unique_id_loop (remaining max_retries : nat) : M string :=
  match remaining with
  | O =>
      raise (RuntimeError ("Unable to generate unique appointment ID after "
                           +:+ pretty max_retries +:+ " attempts"))
  | S remaining' =>
      u <- uuid4_8 ;;
      let new_id := "apt_" +:+ u in
      unique <- ensure_unique_appointment_id new_id ;;
      if unique then ret new_id
      else generate_unique_id_loop remaining' max_retries
  end.

Definition generate_unique_id_with_retry (max_retries : nat) : M string :=
  generate_unique_id_loop max_retries max_retries.

(** ** Conflict detector *)

(** The scan of [appointments_db] inside the [try] block. A stored record
    whose time does not parse raises [ValueError], which the enclosing
    [except] turns into a return of the conflicts collected so far. *)
Fixpoint scan_conflicts (appointment : Appointment) (apt_start_minutes apt_end_minutes : Z)
    (db : list Appointment) (conflicts : list Appointment) : list Appointment :=
  match db with
  | [] => conflicts
  | existing_apt :: rest =>
      if negb (String.eqb (a_date existing_apt) (a_date appointment))
         || negb (String.eqb (a_doctorName existing_apt) (a_doctorName appointment))
      then scan_conflicts appointment apt_start_minutes apt_end_minutes rest conflicts
      else if String.eqb (a_id existing_apt) (a_id appointment)
      then scan_conflicts appointment apt_start_minutes apt_end_minutes rest conflicts
      else
        match strptime_HM (a_time existing_apt) with
        | None => conflicts
        | Some (hour, minute) =>
            let existing_start_minutes := hour * 60 + minute in
            let existing_end_minutes := existing_start_minutes + a_duration existing_apt in
            if (apt_start_minutes <? existing_end_minutes)
               && (apt_end_minutes >? existing_start_minutes)
            then scan_conflicts appointment apt_start_minutes apt_end_minutes rest
                   (conflicts ++ [existing_apt])
            else scan_conflicts appointment apt_start_minutes apt_end_minutes rest conflicts
        end
  end.

Definition detect_scheduling_conflicts (db : list Appointment) (appointment : Appointment)
    : list Appointment :=
  match strptime_HM (a_time appointment) with
  | None => []
  | Some (hour, minute) =>
      let apt_start_minutes := hour * 60 + minute in
      let apt_end_minutes := apt_start_minutes + a_duration appointment in
      scan_conflicts appointment apt_start_minutes apt_end_minutes db []
  end.

(** ** Store operations *)

Definition set_appointments_db (db : list Appointment) (st : Store) : Store :=
  mkStore db (idempotency_keys st) (uuid4_prefix st) (uuid4_calls st).

Definition set_idempotency_keys (keys : gmap string Appointment) (st : Store) : Store :=
  mkStore (appointments_db st) keys (uuid4_prefix st) (uuid4_calls st).

Definition get_appointment_by_id (appointment_id : string) : M (option Appointment) :=
  if String.eqb appointment_id ""
  then raise (ValueError "Appointment ID cannot be empty")
  else
    db <- gets appointments_db ;;
    ret (List.find (fun appointment => String.eqb (a_id appointment) appointment_id) db).

(** The ledger lookup that opens both mutating operations:
    [if idempotency_key: if idempotency_key in idempotency_keys: ...]. *)
Definition ledger_lookup (idempotency_key : option string) : M (option Appointment) :=
  match truthy idempotency_key with
  | Some k => gets (fun st => idempotency_keys st !! k)
  | None => ret None
  end.

(** [if idempotency_key: idempotency_keys[idempotency_key] = result] *)
Definition ledger_store (idempotency_key : option string) (result : Appointment) : M unit :=
  match truthy idempotency_key with
  | Some k => modify (fun st => set_idempotency_keys (<[k := result]> (idempotency_keys st)) st)
  | None => ret tt
  end.

(** The dictionary literal of [create_appointment]: the six payload values
    read by key, the generated id and the default status. Reading a missing
    key would raise [KeyError]; after a successful validation all six are
    present with the types the record has. *)
Definition new_appointment_of (new_id : string) (payload : gmap string pyval)
    : option Appointment :=
  patientName ← payload !! "patientName" ≫= as_str;
  date ← payload !! "date" ≫= as_str;
  time ← payload !! "time" ≫= as_str;
  duration ← payload !! "duration" ≫= as_int;
  doctorName ← payload !! "doctorName" ≫= as_str;
  mode ← payload !! "mode" ≫= as_str;
  Some {| a_id := new_id; a_patientName := patientName; a_date := date;
          a_time := time; a_duration := duration; a_doctorName := doctorName;
          a_status := AppointmentStatus.SCHEDULED; a_mode := mode |}.

Definition conflict_detail (c : Appointment) : string :=
  "Conflict with appointment " +:+ a_id c +:+ " at " +:+ a_time c.

Definition create_appointment (payload : pyobj) (idempotency_key : option string)
    : M Appointment :=
  hit <- ledger_lookup idempotency_key ;;
  match hit with
  | Some stored => ret stored
  | None =>
      match payload with
      | PyNonDict _ => raise (ValueError "Payload must be a dictionary")
      | PyDict d =>
          let '(is_valid, validation_errors) := validate_appointment_data_detailed payload in
          if negb is_valid
          then raise (ValueError ("Validation failed: " +:+ join "; " validation_errors))
          else
            new_id <- generate_unique_id_with_retry 10 ;;
            match new_appointment_of new_id d with
            | None => raise (KeyError "payload")
            | Some new_appointment =>
                db <- gets appointments_db ;;
                let conflicts := detect_scheduling_conflicts db new_appointment in
                match conflicts with
                | _ :: _ =>
                    let conflict_details := map conflict_detail conflicts in
                    raise (ValueError ("Scheduling conflicts detected: "
                                       +:+ join "; " conflict_details))
                | [] =>
                    modify (fun st =>
                      set_appointments_db (appointments_db st ++ [new_appointment]) st) ;;;
                    ledger_store idempotency_key new_appointment ;;;
                    ret new_appointment
                end
            end
      end
  end.

(** The search loop of [update_appointment_status]: the first record with the
    id gets the new status; the result is the new list and that record.
    (The ledger keeps the very copy that is returned to the caller; records
    are immutable values here, so the alias does not show.) *)
Fixpoint update_first (appointment_id new_status : string) (db : list Appointment)
    : option (list Appointment * Appointment) :=
  match db with
  | [] => None
  | appointment :: rest =>
      if String.eqb (a_id appointment) appointment_id
      then
        let updated_appointment := set_status appointment new_status in
        Some (updated_appointment :: rest, updated_appointment)
      else
        match update_first appointment_id new_status rest with
        | Some (rest', updated_appointment) => Some (appointment :: rest', updated_appointment)
        | None => None
        end
  end.

Definition update_appointment_status (appointment_id new_status : string)
    (idempotency_key : option string) : M Appointment :=
  hit <- ledger_lookup idempotency_key ;;
  match hit with
  | Some stored => ret stored
  | None =>
      if String.eqb appointment_id ""
      then raise (ValueError "Appointment ID cannot be empty")
      else if negb (is_valid_status new_status)
      then raise (ValueError ("Invalid status: " +:+ new_status))
      else
        db <- gets appointments_db ;;
        match update_first appointment_id new_status db with
        | Some (db', updated_appointment) =>
            modify (set_appointments_db db') ;;;
            ledger_store idempotency_key updated_appointment ;;;
            ret updated_appointment
        | None => raise (ValueError ("Appointment not found: " +:+ appointment_id))
        end
  end.

(** ** Overlap analyzer *)

(** The body of the inner loop for one pair [(apt1, apt2)]. [apt1_ids] is
    read once, before either record is appended. *)
Definition overlap_pair (apt1 apt2 : Appointment)
    (overlaps : gmap string (list Appointment)) : gmap string (list Appointment) :=
  if negb (String.eqb (a_date apt1) (a_date apt2))
     || negb (String.eqb (a_doctorName apt1) (a_doctorName apt2))
  then overlaps
  else
    match strptime_HM (a_time apt1), strptime_HM (a_time apt2) with
    | Some (h1, m1), Some (h2, m2) =>
        let apt1_start_minutes := h1 * 60 + m1 in
        let apt1_end_minutes := apt1_start_minutes + a_duration apt1 in
        let apt2_start_minutes := h2 * 60 + m2 in
        let apt2_end_minutes := apt2_start_minutes + a_duration apt2 in
        if (apt1_start_minutes <? apt2_end_minutes) && (apt2_start_minutes <? apt1_end_minutes)
        then
          let overlap_key :=
            a_date apt1 +:+ "_" +:+ a_doctorName apt1 +:+ "_"
              +:+ pretty (Z.min apt1_start_minutes apt2_start_minutes) in
          let members := default [] (overlaps !! overlap_key) in
          let apt1_ids := map a_id members in
          let members :=
            if py_in (a_id apt1) apt1_ids then members else members ++ [apt1] in
          let members :=
            if py_in (a_id apt2) apt1_ids then members else members ++ [apt2] in
          <[overlap_key := members]> overlaps
        else overlaps
    | _, _ => overlaps
    end.

(** [for j, apt2 in enumerate(appointments[i + 1:], i + 1)] *)
Definition overlap_inner (apt1 : Appointment) (later : list Appointment)
    (overlaps : gmap string (list Appointment)) : gmap string (list Appointment) :=
  fold_left (fun acc apt2 => overlap_pair apt1 apt2 acc) later overlaps.

(** [for i, apt1 in enumerate(appointments)] *)
Fixpoint overlap_outer (appointments : list Appointment)
    (overlaps : gmap string (list Appointment)) : gmap string (list Appointment) :=
  match appointments with
  | [] => overlaps
  | apt1 :: later => overlap_outer later (overlap_inner apt1 later overlaps)
  end.

Definition get_overlapping_appointments (appointments : list Appointment)
    (date : option string) : gmap string (list Appointment) :=
  match appointments with
  | [] => ∅
  | _ =>
      let appointments :=
        match truthy date with
        | Some d => List.filter (fun apt => String.eqb (a_date apt) d) appointments
        | None => appointments
        end in
      overlap_outer appointments ∅
  end.

(** ** Sample inputs

    A run of the random generator that proposes "00000000", "00000001", ...
    and the first payload of the specification's scenarios. *)
Definition demo_rand (n : nat) : string := "0000000" +:+ pretty n.

Definition demo_payload : gmap string pyval :=
  <["patientName" := VStr "A"]> (<["date" := VStr "2024-02-01"]> (<["time" := VStr "09:00"]>
  (<["duration" := VInt 30]> (<["doctorName" := VStr "Dr. X"]> (<["mode" := VStr "in-person"]> ∅))))).

(** ** Predicates the properties are stated with *)

(** The slot of an appointment: the half-open minute interval
    [start, start + duration), when its time of day parses. *)
Definition slot (a : Appointment) : option (Z * Z) :=
  match strptime_HM (a_time a) with
  | Some (hour, minute) => Some (hour * 60 + minute, hour * 60 + minute + a_duration a)
  | None => None
  end.

(** The conflict rule in the words of the specification: same date, same
    doctor, another id, and [candidate.start < other.end] and
    [candidate.end > other.start]. *)
Definition conflicts_with (candidate other : Appointment) : bool :=
  String.eqb (a_date other) (a_date candidate)
  && String.eqb (a_doctorName other) (a_doctorName candidate)
  && negb (String.eqb (a_id other) (a_id candidate))
  && match slot candidate, slot other with
     | Some (cs, ce), Some (os, oe) => (cs <? oe) && (ce >? os)
     | _, _ => false
     end.

(** Every stored time of day parses: true of the samples and kept by every
    operation, since a record is only ever appended after validation. *)
Definition store_wf (db : list Appointment) : Prop :=
  Forall (fun a => is_Some (strptime_HM (a_time a))) db.

(** No key was supplied, or the key is not in the ledger yet. *)
Definition fresh_key (st : Store) (idempotency_key : option string) : Prop :=
  match truthy idempotency_key with
  | Some k => idempotency_keys st !! k = None
  | None => True
  end.

(** The not-found error of the status update. *)
Definition is_not_found (e : exn) : bool :=
  match e with
  | ValueError msg => String.prefix "Appointment not found: " msg
  | _ => false
  end.

(** All fields but the status agree. *)
Definition same_but_status (old new : Appointment) : Prop :=
  a_id new = a_id old /\ a_patientName new = a_patientName old
  /\ a_date new = a_date old /\ a_time new = a_time old
  /\ a_duration new = a_duration old /\ a_doctorName new = a_doctorName old
  /\ a_mode new = a_mode old.

(** The six field checks in the words of the specification. *)

Definition patient_name_ok (d : gmap string pyval) : Prop :=
  exists s, d !! "patientName" = Some (VStr s) /\ blank s = false.

Definition date_ok (d : gmap string pyval) : Prop :=
  exists s ymd, d !! "date" = Some (VStr s) /\ strptime_Ymd s = Some ymd.

Definition time_ok (d : gmap string pyval) : Prop :=
  exists s hm, d !! "time" = Some (VStr s) /\ strptime_HM s = Some hm.

Definition duration_ok (d : gmap string pyval) : Prop :=
  exists v n, d !! "duration" = Some v /\ as_int v = Some n /\ 0 < n <= 480.

Definition doctor_name_ok (d : gmap string pyval) : Prop :=
  exists s, d !! "doctorName" = Some (VStr s) /\ blank s = false.

Definition mode_ok (d : gmap string pyval) : Prop :=
  d !! "mode" = Some (VStr "online") \/ d !! "mode" = Some (VStr "in-person").

(** What one check reports, in the words of the specification: a text
    field is checked for being present, being a string and being admissible,
    in this order, and the first of the three that fails is the one message
    of the check. *)
Definition text_check (d : gmap string pyval) (key : string) (admissible : string -> bool)
    (required not_a_string inadmissible : string) (e : list string) : Prop :=
  (d !! key = None -> e = [required])
  /\ (forall v, d !! key = Some v -> as_str v = None -> e = [not_a_string])
  /\ (forall s, d !! key = Some (VStr s) -> admissible s = false -> e = [inadmissible])
  /\ (forall s, d !! key = Some (VStr s) -> admissible s = true -> e = []).

(** The same for the duration: present, an integer, above 0, at most 480. *)
Definition duration_check (d : gmap string pyval) (e : list string) : Prop :=
  (d !! "duration" = None -> e = ["Duration is required"])
  /\ (forall v, d !! "duration" = Some v -> as_int v = None ->
                e = ["Duration must be an integer"])
  /\ (forall v n, d !! "duration" = Some v -> as_int v = Some n -> n <= 0 ->
                  e = ["Duration must be greater than 0 minutes"])
  /\ (forall v n, d !! "duration" = Some v -> as_int v = Some n -> 480 < n ->
                  e = ["Duration cannot exceed 480 minutes (8 hours)"])
  /\ (forall v n, d !! "duration" = Some v -> as_int v = Some n -> 0 < n <= 480 ->
                  e = []).

(** A text parses as a date, as a time of day. *)
Definition parses_Ymd (s : string) : bool :=
  match strptime_Ymd s with Some _ => true | None => false end.

Definition parses_HM (s : string) : bool :=
  match strptime_HM s with Some _ => true | None => false end.

(** The id proposed by the i-th next attempt of the generator, whether an id
    is already stored, and the state after [n] draws of the generator. *)
Definition candidate_id (st : Store) (i : nat) : string :=
  "apt_" +:+ uuid4_prefix st (uuid4_calls st + i)%nat.

Definition id_taken (st : Store) (appointment_id : string) : bool :=
  existsb (fun apt => String.eqb (a_id apt) appointment_id) (appointments_db st).

Definition after_draws (st : Store) (n : nat) : Store :=
  mkStore (appointments_db st) (idempotency_keys st) (uuid4_prefix st)
          (uuid4_calls st + n)%nat.

(** The records the pairwise scan of the overlap analyzer runs over. *)
Definition considered (appointments : list Appointment) (date : option string)
    : list Appointment :=
  match truthy date with
  | Some d => List.filter (fun apt => String.eqb (a_date apt) d) appointments
  | None => appointments
  end.

(** The cluster key of a pair: date, doctor and the smaller start minute,
    joined with underscores. *)
Definition overlap_key (a : Appointment) (start_a start_b : Z) : string :=
  a_date a +:+ "_" +:+ a_doctorName a +:+ "_" +:+ pretty (Z.min start_a start_b).

(** The member list of a cluster after a pair was added to it. *)
Definition add_pair (apt1 apt2 : Appointment) (members : list Appointment)
    : list Appointment :=
  let apt1_ids := map a_id members in
  let members1 := if py_in (a_id apt1) apt1_ids then members else members ++ [apt1] in
  if py_in (a_id apt2) apt1_ids then members1 else members1 ++ [apt2].

(** Same date, same doctor, intersecting slots. *)
Definition overlapping (a b : Appointment) (start_a start_b : Z) : Prop :=
  a_date a = a_date b /\ a_doctorName a = a_doctorName b
  /\ exists end_a end_b,
       slot a = Some (start_a, end_a) /\ slot b = Some (start_b, end_b)
       /\ start_a < end_b /\ start_b < end_a.

(** Both records of a pair sit in the cluster of the pair's key. *)
Definition recorded (a b : Appointment) (start_a start_b : Z)
    (clusters : gmap string (list Appointment)) : Prop :=
  exists members,
    clusters !! overlap_key a start_a start_b = Some members
    /\ a ∈ members /\ b ∈ members.

(** Every cluster holds records of [l] only, and no id twice. *)
Definition clusters_ok (l : list Appointment) (clusters : gmap string (list Appointment))
    : Prop :=
  forall key members, clusters !! key = Some members ->
    (forall x, x ∈ members -> x ∈ l) /\ NoDup (map a_id members).

(** Clusters only grow. *)
Definition clusters_le (m1 m2 : gmap string (list Appointment)) : Prop :=
  forall key members, m1 !! key = Some members ->
    exists members', m2 !! key = Some members' /\ forall x, x ∈ members -> x ∈ members'.

(** ** Deletion *)

(** The search loop of [delete_appointment]: the first record with the id is
    popped; [None] when the loop ends without a match. *)
Fixpoint remove_first (appointment_id : string) (db : list Appointment)
    : option (list Appointment) :=
  match db with
  | [] => None
  | appointment :: rest =>
      if String.eqb (a_id appointment) appointment_id
      then Some rest
      else
        match remove_first appointment_id rest with
        | Some rest' => Some (appointment :: rest')
        | None => None
        end
  end.

Definition delete_appointment (appointment_id : string) : M bool :=
  if String.eqb appointment_id ""
  then raise (ValueError "Appointment ID cannot be empty")
  else
    db <- gets appointments_db ;;
    match remove_first appointment_id db with
    | Some db' => modify (set_appointments_db db') ;;; ret true
    | None => ret false
    end.

(** ** Ledger maintenance *)

Definition clear_idempotency_keys : M unit :=
  modify (set_idempotency_keys ∅).

Definition get_idempotency_key_count : M nat :=
  gets (fun st => size (idempotency_keys st)).

(** ** The short validator *)

(** [is_valid_mode(data.get('mode'))] on any value: membership in the list of
    modes compares with [==], which only a string can satisfy. *)
Definition is_valid_mode_value (v : option pyval) : bool :=
  match v with
  | Some (VStr s) => is_valid_mode s
  | _ => false
  end.

(** [validate_appointment_data] on a dictionary. The [KeyError] of a missing
    key, the [TypeError] of [strptime] on a value that is not a string and
    its [ValueError] on a text that does not parse are all caught by the
    [except] clause and give [False]. *)
Definition validate_appointment_data (data : gmap string pyval) : bool :=
  match data !! "patientName" ≫= as_str with
  | None => false
  | Some patientName =>
      if blank patientName then false
      else
        match data !! "date" with
        | None => false                                  (* KeyError *)
        | Some date =>
            match as_str date with
            | None => false                              (* TypeError *)
            | Some date =>
                match strptime_Ymd date with
                | None => false                          (* ValueError *)
                | Some _ =>
                    match data !! "time" with
                    | None => false
                    | Some time =>
                        match as_str time with
                        | None => false
                        | Some time =>
                            match strptime_HM time with
                            | None => false
                            | Some _ =>
                                match data !! "duration" ≫= as_int with
                                | None => false
                                | Some duration =>
                                    if duration <=? 0 then false
                                    else
                                      match data !! "doctorName" ≫= as_str with
                                      | None => false
                                      | Some doctorName =>
                                          if blank doctorName then false
                                          else is_valid_mode_value (data !! "mode")
                                      end
                                end
                            end
                        end
                    end
                end
            end
        end
  end.

(** ** Listing with filters *)

Section Listing.

(** The text Python prints for a set of strings, [{'a', 'b'}]: the order of
    the elements follows the hash seed of the process, so the printer is a
    parameter of the embedding. *)
Variable repr_set : gset string -> string.

Definition get_appointments (filters : option (gmap string string))
    : M (list Appointment) :=
  let filters : gmap string string := default ∅ filters in
  let valid_filter_keys : gset string := {["date"; "status"; "doctorName"]} in
  let invalid_keys : gset string := dom filters ∖ valid_filter_keys in
  if negb (bool_decide (invalid_keys = ∅))
  then raise (ValueError ("Invalid filter keys: " +:+ repr_set invalid_keys
                          +:+ ". Valid keys are: " +:+ repr_set valid_filter_keys))
  else
    match truthy (filters !! "status") with
    | Some status =>
        if is_valid_status status then ret tt
        else raise (ValueError ("Invalid status: " +:+ status))
    | None => ret tt
    end ;;;
    result <- gets appointments_db ;;
    result <- match truthy (filters !! "date") with
              | Some date =>
                  match strptime_Ymd date with
                  | Some _ =>
                      ret (List.filter (fun apt => String.eqb (a_date apt) date) result)
                  | None =>
                      raise (ValueError ("Invalid date format: " +:+ date
                                         +:+ ". Expected YYYY-MM-DD"))
                  end
              | None => ret result
              end ;;
    let result :=
      match truthy (filters !! "status") with
      | Some status => List.filter (fun apt => String.eqb (a_status apt) status) result
      | None => result
      end in
    let result :=
      match truthy (filters !! "doctorName") with
      | Some doctor => List.filter (fun apt => String.eqb (a_doctorName apt) doctor) result
      | None => result
      end in
    ret result.

End Listing.

(** ** Reachable states *)

(** The calls that change the state of the process. *)
Inductive request : Type :=
  | Create (payload : pyobj) (idempotency_key : option string)
  | UpdateStatus (appointment_id new_status : string) (idempotency_key : option string)
  | Delete (appointment_id : string)
  | ClearKeys.

(** The state a call leaves behind, whether it returns or raises. *)
Definition serve (req : request) (st : Store) : Store :=
  match req with
  | Create payload key => snd (create_appointment payload key st)
  | UpdateStatus appointment_id new_status key =>
      snd (update_appointment_status appointment_id new_status key st)
  | Delete appointment_id => snd (delete_appointment appointment_id st)
  | ClearKeys => snd (clear_idempotency_keys st)
  end.

(** The state after a sequence of calls. The states the process can be in
    are [run requests (initial_store rand)], for the run [rand] of the random
    generator and the calls [requests] made since import. *)
Definition run (requests : list request) (st : Store) : Store :=
  fold_left (fun st req => serve req st) requests st.

(** Two records book the same doctor on the same date at intersecting times.
    Date and doctor are compared as the service compares them, as texts; the
    slots are compared as minutes of the day. *)
Definition double_booked (a b : Appointment) : Prop :=
  a_date a = a_date b /\ a_doctorName a = a_doctorName b
  /\ exists sa ea sb eb,
       slot a = Some (sa, ea) /\ slot b = Some (sb, eb) /\ sa < eb /\ sb < ea.

(** What validation lets into the store. *)
Definition record_valid (a : Appointment) : Prop :=
  blank (a_patientName a) = false
  /\ is_Some (strptime_Ymd (a_date a))
  /\ is_Some (strptime_HM (a_time a))
  /\ 0 < a_duration a <= 480
  /\ blank (a_doctorName a) = false
  /\ is_valid_status (a_status a) = true
  /\ is_valid_mode (a_mode a) = true.

(** What every reachable store satisfies: ids pairwise distinct, records as
    validation admits them, and no record conflicting with another. *)
Definition store_ok (db : list Appointment) : Prop :=
  NoDup (map a_id db)
  /\ Forall record_valid db
  /\ (forall a b, a ∈ db -> b ∈ db -> conflicts_with a b = false).

(** A record passes the filters: each of the three filters that is given and
    not empty equals the record's field. *)
Definition matches_filters (filters : gmap string string) (apt : Appointment) : bool :=
  match truthy (filters !! "date") with
  | Some date => String.eqb (a_date apt) date
  | None => true
  end
  && match truthy (filters !! "status") with
     | Some status => String.eqb (a_status apt) status
     | None => true
     end
  && match truthy (filters !! "doctorName") with
     | Some doctor => String.eqb (a_doctorName apt) doctor
     | None => true
     end.

(** The printer for sets used in the sample runs. *)
(** Two records for the same calendar day and doctor at intersecting times,
    the day being written in two ways. *)
Definition same_day_double_booked (a b : Appointment) : Prop :=
  a_date a <> a_date b
  /\ (exists ymd, strptime_Ymd (a_date a) = Some ymd /\ strptime_Ymd (a_date b) = Some ymd)
  /\ a_doctorName a = a_doctorName b
  /\ exists sa ea sb eb,
       slot a = Some (sa, ea) /\ slot b = Some (sb, eb) /\ sa < eb /\ sb < ea.

Definition demo_repr_set (s : gset string) : string :=
  "{" +:+ join ", " (map (fun x => "'" +:+ x +:+ "'") (elements s)) +:+ "}".

(** ** Date ranges *)

(** [datetime.date] arithmetic: the proleptic Gregorian ordinal of a date
    ([date.toordinal()], 1 for the first of January of year 1) and the
    comparison of two dates. *)
Definition days_before_year (year : Z) : Z :=
  let y := year - 1 in
  y * 365 + y / 4 - y / 100 + y / 400.

Definition days_before_month (year month : Z) : Z :=
  match month with
  | 1 => 0 | 2 => 31 | 3 => 59 | 4 => 90 | 5 => 120 | 6 => 151
  | 7 => 181 | 8 => 212 | 9 => 243 | 10 => 273 | 11 => 304 | 12 => 334
  | _ => 0
  end + (if (month >? 2) && is_leap year then 1 else 0).

Definition toordinal (date : Z * Z * Z) : Z :=
  let '(year, month, day) := date in
  days_before_year year + days_before_month year month + day.

(** [start > end] on dates: year, then month, then day. *)
Definition date_gt (a b : Z * Z * Z) : bool :=
  let '(y1, m1, d1) := a in
  let '(y2, m2, d2) := b in
  (y1 >? y2) || ((y1 =? y2) && ((m1 >? m2) || ((m1 =? m2) && (d1 >? d2)))).

Section DateRange.

(** [str(e)] for the [ValueError] that [strptime] raises on a text: which of
    its messages it is and how the text is quoted in it are left to the
    library, the message is a parameter of the embedding. *)
Variable strptime_error : string -> string.

Definition validate_date_range (start_date end_date : string) : bool * string :=
  match strptime_Ymd start_date with
  | None => (false, "Invalid date format: " +:+ strptime_error start_date)
  | Some start =>
      match strptime_Ymd end_date with
      | None => (false, "Invalid date format: " +:+ strptime_error end_date)
      | Some end_ =>
          if date_gt start end_
          then (false, "Start date cannot be after end date")
          else if toordinal end_ - toordinal start >? 365
          then (false, "Date range cannot exceed 365 days")
          else (true, "")
      end
  end.

End DateRange.

(** ** Listing with overlap detection *)

Record EmptyState : Type := mkEmptyState {
  es_no_appointments : string;
  es_no_appointments_today : string;
  es_no_upcoming_appointments : string;
  es_no_past_appointments : string;
  es_no_appointments_for_doctor : string;
  es_suggestions : list string
}.

Definition handle_empty_appointment_scenarios : EmptyState :=
  {| es_no_appointments := "No appointments found for the selected criteria.";
     es_no_appointments_today := "No appointments scheduled for today.";
     es_no_upcoming_appointments := "No upcoming appointments found.";
     es_no_past_appointments := "No past appointments found.";
     es_no_appointments_for_doctor := "No appointments found for the selected doctor.";
     es_suggestions :=
       ["Try adjusting your date range";
        "Check if appointments exist for other doctors";
        "Create a new appointment using the " +:+ String (ascii_of_nat 34) "New Appointment"
          +:+ String (ascii_of_nat 34) " button";
        "Clear any active filters to see all appointments"] |}.

Record Metadata : Type := mkMetadata {
  md_total_count : nat;
  md_has_overlaps : bool;
  md_overlap_count : nat;
  md_unique_dates : nat;
  md_unique_doctors : nat;
  md_applied_filters : gmap string string
}.

Record OverlapReport : Type := mkOverlapReport {
  rep_appointments : list Appointment;
  rep_overlaps : gmap string (list Appointment);
  rep_empty_state : EmptyState;
  rep_metadata : Metadata
}.

Section OverlapDetection.

Variable repr_set : gset string -> string.
Variable strptime_error : string -> string.

Definition get_appointments_with_overlap_detection (filters : option (gmap string string))
    : M OverlapReport :=
  let filters : gmap string string := default ∅ filters in
  match filters !! "start_date", filters !! "end_date" with
  | Some start_date, Some end_date =>
      let '(is_valid, error_msg) := validate_date_range strptime_error start_date end_date in
      if is_valid then ret tt else raise (ValueError error_msg)
  | _, _ => ret tt
  end ;;;
  appointments <- get_appointments repr_set (Some filters) ;;
  let overlaps := get_overlapping_appointments appointments (filters !! "date") in
  let empty_state := handle_empty_appointment_scenarios in
  let metadata :=
    {| md_total_count := length appointments;
       md_has_overlaps := (0 <? size overlaps)%nat;
       md_overlap_count := size overlaps;
       md_unique_dates := size (list_to_set (map a_date appointments) : gset string);
       md_unique_doctors := size (list_to_set (map a_doctorName appointments) : gset string);
       md_applied_filters := filters |} in
  ret {| rep_appointments := appointments; rep_overlaps := overlaps;
         rep_empty_state := empty_state; rep_metadata := metadata |}.

End OverlapDetection.

(** ** Appointments by time slot *)

(** [l.sort(key=duration, reverse=True)]: the sort is stable, records of
    equal duration keep the order they had. Each record is inserted in the
    sorted part before the first record that is strictly shorter. *)
Fixpoint insert_by_duration (x : Appointment) (sorted : list Appointment)
    : list Appointment :=
  match sorted with
  | [] => [x]
  | y :: rest =>
      if a_duration y <? a_duration x then x :: y :: rest
      else y :: insert_by_duration x rest
  end.

Definition sort_by_duration_desc (l : list Appointment) : list Appointment :=
  fold_left (fun sorted x => insert_by_duration x sorted) l [].

(** The grouping loop: each record is appended to the list of its time. *)
Definition group_by_time (appointments : list Appointment)
    : gmap string (list Appointment) :=
  fold_left
    (fun time_slots appointment =>
       let time_slot := a_time appointment in
       <[time_slot := default [] (time_slots !! time_slot) ++ [appointment]]> time_slots)
    appointments ∅.

Section TimeSlots.

Variable repr_set : gset string -> string.

(** The result is a dictionary from the time text to the records of that
    time; the order of its keys (the order of first appearance) is not kept
    by the finite map. *)
Definition get_appointments_by_time_slot (date : string) (doctor_name : option string)
    : M (gmap string (list Appointment)) :=
  let filters : gmap string string := {["date" := date]} in
  let filters :=
    match truthy doctor_name with
    | Some doctor => <["doctorName" := doctor]> filters
    | None => filters
    end in
  appointments <- get_appointments repr_set (Some filters) ;;
  let time_slots := group_by_time appointments in
  let time_slots := sort_by_duration_desc <$> time_slots in
  ret time_slots.

End TimeSlots.

(** The filters [get_appointments_by_time_slot] builds. *)
Definition time_slot_filters (date : string) (doctor_name : option string)
    : gmap string string :=
  match truthy doctor_name with
  | Some doctor => <["doctorName" := doctor]> {["date" := date]}
  | None => {["date" := date]}
  end.

(** ** Dashboard counts *)

(** [if key in counts: counts[key] += 1] *)
Definition count_known (key : string) (counts : gmap string nat) : gmap string nat :=
  match counts !! key with
  | Some n => <[key := S n]> counts
  | None => counts
  end.

(** [counts[key] = counts.get(key, 0) + 1] *)
Definition count_any (key : string) (counts : gmap string nat) : gmap string nat :=
  <[key := S (default 0%nat (counts !! key))]> counts.

(** [sum(durations)] *)
Definition py_sum (xs : list Z) : Z := fold_left Z.add xs 0.

(** [a / b] on two integers, [b] not 0, is the quotient rounded to the
    nearest float, ties to even; it raises [OverflowError] when that float
    would be 2^1024 or more in size, that is when the quotient is at least
    half a unit in the last place above the largest float, 2^1024 - 2^970. *)
Definition true_division_overflows (a b : Z) : bool :=
  (2 ^ 1024 - 2 ^ 970) * Z.abs b <=? Z.abs a.

(** The count entries of the result of [get_dashboard_metrics]: the total
    and the counts per status, per mode and per doctor. The entries under
    [schedulingPatterns] and [recentActivity] are computed after the counts
    and are not part of the record; of their computation the embedding keeps
    the one step that can fail, the average of the durations. *)
Record DashboardCounts : Type := mkDashboardCounts {
  totalAppointments : nat;
  statusCounts : gmap string nat;
  modeCounts : gmap string nat;
  doctorCounts : gmap string nat
}.

Definition get_dashboard_metrics : M DashboardCounts :=
  db <- gets appointments_db ;;
  let zero_status : gmap string nat :=
    <["Confirmed" := 0%nat]> (<["Scheduled" := 0%nat]> (<["Upcoming" := 0%nat]>
    (<["Cancelled" := 0%nat]> ∅))) in
  let zero_mode : gmap string nat := <["online" := 0%nat]> (<["in-person" := 0%nat]> ∅) in
  match db with
  | [] => ret (mkDashboardCounts 0 zero_status zero_mode ∅)
  | _ =>
      let total_appointments := length db in
      let '(status_counts, mode_counts, doctor_counts, durations) :=
        fold_left
          (fun '(status_counts, mode_counts, doctor_counts, durations) appointment =>
             (count_known (a_status appointment) status_counts,
              count_known (a_mode appointment) mode_counts,
              count_any (a_doctorName appointment) doctor_counts,
              durations ++ [a_duration appointment]))
          db (zero_status, zero_mode, ∅, []) in
      (* avg_duration = sum(durations) / len(durations) if durations else 0 *)
      match durations with
      | [] => ret tt
      | _ =>
          if true_division_overflows (py_sum durations) (Z.of_nat (length durations))
          then raise (OverflowError "integer division result too large for a float")
          else ret tt
      end ;;;
      ret (mkDashboardCounts total_appointments status_counts mode_counts doctor_counts)
  end.

(** How many records have a field equal to a value. *)
Definition count_where (field : Appointment -> string) (value : string)
    (db : list Appointment) : nat :=
  length (List.filter (fun a => String.eqb (field a) value) db).

(** Longest first: no record is followed by a longer one. *)
Definition longest_first (l : list Appointment) : Prop :=
  forall i j a b, (i < j)%nat -> l !! i = Some a -> l !! j = Some b ->
                  a_duration b <= a_duration a.

(** Case analysis on every [match] of the goal, for the validator blocks. *)
Ltac block_cases :=
  repeat match goal with
         | |- context [match ?x with _ => _ end] => destruct x eqn:?
         end.

(** * Properties *)

(** ** The two [strptime] formats on sample texts *)

Example strptime_HM_0900 : strptime_HM "09:00" = Some (9, 0).
Proof. reflexivity. Qed.
Example strptime_HM_single : strptime_HM "9:5" = Some (9, 5).
Proof. reflexivity. Qed.
Example strptime_HM_2400 : strptime_HM "24:00" = None.
Proof. reflexivity. Qed.
Example strptime_HM_0960 : strptime_HM "09:60" = None.
Proof. reflexivity. Qed.
Example strptime_Ymd_ok : strptime_Ymd "2024-02-29" = Some (2024, 2, 29).
Proof. reflexivity. Qed.
Example strptime_Ymd_feb30 : strptime_Ymd "2023-02-29" = None.
Proof. reflexivity. Qed.
Example strptime_Ymd_month13 : strptime_Ymd "2024-13-01" = None.
Proof. reflexivity. Qed.

(** ** Running the store computations *)

Lemma bind_inr {A B} (c : M A) (k : A -> M B) st x st' :
  c st = (inr x, st') -> bind c k st = k x st'.
Proof. intros H. unfold bind. rewrite H. reflexivity. Qed.

Lemma bind_inl {A B} (c : M A) (k : A -> M B) st e st' :
  c st = (inl e, st') -> bind c k st = (inl e, st').
Proof. intros H. unfold bind. rewrite H. reflexivity. Qed.

Lemma eqb_empty_false (s : string) : s <> "" -> String.eqb s "" = false.
Proof. intros H. apply String.eqb_neq. exact H. Qed.

Lemma truthy_Some (k : string) : k <> "" -> truthy (Some k) = Some k.
Proof. intros H. unfold truthy. rewrite eqb_empty_false; auto. Qed.


Lemma ledger_lookup_fresh st key :
  fresh_key st key -> ledger_lookup key st = (inr None, st).
Proof.
  unfold fresh_key, ledger_lookup. destruct (truthy key); intros H.
  - unfold gets. rewrite H. reflexivity.
  - reflexivity.
Qed.

Lemma ledger_lookup_state st key r st' :
  ledger_lookup key st = (r, st') -> st' = st.
Proof.
  unfold ledger_lookup. destruct (truthy key); unfold gets, ret; intros [= _ <-]; reflexivity.
Qed.

(** ** Lookup by id *)

Lemma find_id_None (db : list Appointment) (appointment_id : string) :
  List.find (fun a => String.eqb (a_id a) appointment_id) db = None
  <-> (forall a, a ∈ db -> a_id a <> appointment_id).
Proof.
  split.
  - intros H a Ha. apply list_elem_of_In in Ha.
    apply (find_none _ _ H) in Ha. apply String.eqb_neq. exact Ha.
  - intros H. induction db as [|x db IH]; [reflexivity|]. simpl.
    destruct (String.eqb (a_id x) appointment_id) eqn:E.
    + apply String.eqb_eq in E. exfalso. apply (H x); [left | exact E].
    + apply IH. intros a Ha. apply H. right. exact Ha.
Qed.

(** C10, as amended. For every non-empty id, [get_appointment_by_id] returns
    without raising and without changing the state: a stored record with
    exactly that id (the first one) when there is one, and the absent value
    exactly when no stored record has the id. The empty id is rejected with
    a [ValueError] before the store is read. *)
Theorem get_appointment_by_id_spec (st : Store) (appointment_id : string) :
  appointment_id <> "" ->
  exists r,
    get_appointment_by_id appointment_id st = (inr r, st)
    /\ (forall a, r = Some a -> a ∈ appointments_db st /\ a_id a = appointment_id)
    /\ (r = None <-> forall a, a ∈ appointments_db st -> a_id a <> appointment_id)
    /\ get_appointment_by_id "" st
       = (inl (ValueError "Appointment ID cannot be empty"), st).
Proof.
  intros Hne.
  exists (List.find (fun a => String.eqb (a_id a) appointment_id) (appointments_db st)).
  split; [|split; [|split]].
  - unfold get_appointment_by_id. rewrite (eqb_empty_false _ Hne). reflexivity.
  - intros a Ha. apply find_some in Ha as [Hin Heq]. split.
    + apply list_elem_of_In. exact Hin.
    + apply String.eqb_eq. exact Heq.
  - apply find_id_None.
  - reflexivity.
Qed.

Lemma get_appointment_by_id_spec_witness :
  exists r,
    get_appointment_by_id "apt_003" (initial_store demo_rand)
      = (inr r, initial_store demo_rand)
    /\ (forall a, r = Some a ->
          a ∈ appointments_db (initial_store demo_rand) /\ a_id a = "apt_003")
    /\ (r = None <->
          forall a, a ∈ appointments_db (initial_store demo_rand) -> a_id a <> "apt_003")
    /\ get_appointment_by_id "" (initial_store demo_rand)
       = (inl (ValueError "Appointment ID cannot be empty"), initial_store demo_rand).
Proof.
  apply (get_appointment_by_id_spec (initial_store demo_rand) "apt_003"). discriminate.
Defined.

(** C10 as stated fails at the empty id: no sample has the empty id, yet the
    lookup raises instead of returning the absent value. *)
Lemma get_appointment_by_id_empty_raises :
  (forall a, a ∈ appointments_db (initial_store demo_rand) -> a_id a <> "")
  /\ fst (get_appointment_by_id "" (initial_store demo_rand))
     = inl (ValueError "Appointment ID cannot be empty")
  /\ fst (get_appointment_by_id "" (initial_store demo_rand)) <> inr None.
Proof.
  split; [|split].
  - apply find_id_None. reflexivity.
  - reflexivity.
  - discriminate.
Qed.

(** ** Status update *)

Lemma update_first_None (db : list Appointment) (appointment_id new_status : string) :
  (forall a, a ∈ db -> a_id a <> appointment_id) ->
  update_first appointment_id new_status db = None.
Proof.
  induction db as [|x db IH]; intros H; [reflexivity|]. simpl.
  destruct (String.eqb (a_id x) appointment_id) eqn:E.
  - apply String.eqb_eq in E. exfalso. apply (H x); [left | exact E].
  - rewrite IH; [reflexivity|]. intros a Ha. apply H. right. exact Ha.
Qed.

(** C3, as amended. For an id that no stored record has, and no key or a key
    not yet in the ledger, [update_appointment_status] raises and leaves the
    state as it was; which error depends on the checks made before the
    search: the empty id is rejected first, then a status outside the four
    known values, and only a valid status with a non-empty id reaches the
    search and gets the not-found error. *)
Theorem update_unknown_id (st : Store) (appointment_id new_status : string)
    (idempotency_key : option string) :
  (forall a, a ∈ appointments_db st -> a_id a <> appointment_id) ->
  fresh_key st idempotency_key ->
  update_appointment_status appointment_id new_status idempotency_key st
  = (inl (ValueError
            (if String.eqb appointment_id "" then "Appointment ID cannot be empty"
             else if is_valid_status new_status
                  then "Appointment not found: " +:+ appointment_id
                  else "Invalid status: " +:+ new_status)), st).
Proof.
  intros Habsent Hfresh. unfold update_appointment_status.
  rewrite (bind_inr _ _ _ _ _ (ledger_lookup_fresh _ _ Hfresh)).
  destruct (String.eqb appointment_id ""); [reflexivity|].
  destruct (is_valid_status new_status); simpl; [|reflexivity].
  unfold bind, gets. rewrite (update_first_None _ _ _ Habsent). reflexivity.
Qed.

Lemma update_unknown_id_witness :
  update_appointment_status "apt_999" "Confirmed" None (initial_store demo_rand)
  = (inl (ValueError "Appointment not found: apt_999"), initial_store demo_rand).
Proof.
  apply (update_unknown_id (initial_store demo_rand) "apt_999" "Confirmed" None).
  - apply find_id_None. reflexivity.
  - exact I.
Defined.

(** C3 as stated fails for an unknown id with an unknown status: the error
    is the invalid-status one, not the not-found one. *)
Lemma update_unknown_id_invalid_status :
  (forall a, a ∈ appointments_db (initial_store demo_rand) -> a_id a <> "apt_999")
  /\ is_valid_status "Bogus" = false
  /\ exists e,
       fst (update_appointment_status "apt_999" "Bogus" None (initial_store demo_rand)) = inl e
       /\ e = ValueError "Invalid status: Bogus"
       /\ is_not_found e = false.
Proof.
  split; [|split].
  - apply find_id_None. reflexivity.
  - reflexivity.
  - eexists. split; [reflexivity|]. split; reflexivity.
Qed.

Lemma ledger_store_db st key r :
  appointments_db (snd (ledger_store key r st)) = appointments_db st.
Proof. unfold ledger_store. destruct (truthy key); reflexivity. Qed.

Lemma ledger_store_inr st key r : fst (ledger_store key r st) = inr tt.
Proof. unfold ledger_store. destruct (truthy key); reflexivity. Qed.

Lemma same_but_status_refl a : same_but_status a a.
Proof. repeat split. Qed.

Lemma update_first_frame (appointment_id new_status : string) (db db' : list Appointment)
    (updated : Appointment) :
  update_first appointment_id new_status db = Some (db', updated) ->
  Forall2 (fun old new => same_but_status old new /\ (a_id old <> appointment_id -> new = old))
          db db'.
Proof.
  revert db'. induction db as [|x db IH]; intros db' H; simpl in H; [discriminate|].
  destruct (String.eqb (a_id x) appointment_id) eqn:E.
  - injection H as <- _. constructor.
    + split; [repeat split|]. intros Hne. apply String.eqb_eq in E. contradiction.
    + apply Forall2_same_length_lookup_2; [reflexivity|].
      intros i a b Ha Hb. rewrite Ha in Hb. injection Hb as <-.
      split; [apply same_but_status_refl | reflexivity].
  - destruct (update_first appointment_id new_status db) as [[rest' u]|]; [|discriminate].
    injection H as <- <-. constructor.
    + split; [apply same_but_status_refl | reflexivity].
    + apply IH. reflexivity.
Qed.

Lemma Forall2_frame_refl (appointment_id : string) (db : list Appointment) :
  Forall2 (fun old new => same_but_status old new /\ (a_id old <> appointment_id -> new = old))
          db db.
Proof.
  induction db; constructor; auto. split; [apply same_but_status_refl | reflexivity].
Qed.

(** Whatever [update_appointment_status] returns or raises, the records
    keep their places and every field other than the status. *)
Lemma update_appointment_status_db (st st' : Store) (appointment_id new_status : string)
    (idempotency_key : option string) (res : exn + Appointment) :
  update_appointment_status appointment_id new_status idempotency_key st = (res, st') ->
  Forall2 (fun old new => same_but_status old new /\ (a_id old <> appointment_id -> new = old))
          (appointments_db st) (appointments_db st')
  /\ uuid4_calls st' = uuid4_calls st.
Proof.
  unfold update_appointment_status. intros H.
  unfold bind at 1 in H.
  destruct (ledger_lookup idempotency_key st) as [[e|hit] st0] eqn:Hl.
  { apply ledger_lookup_state in Hl. subst st0. injection H as _ <-.
    split; [apply Forall2_frame_refl | reflexivity]. }
  apply ledger_lookup_state in Hl. subst st0.
  destruct hit as [stored|].
  { injection H as _ <-. split; [apply Forall2_frame_refl | reflexivity]. }
  destruct (String.eqb appointment_id "").
  { injection H as _ <-. split; [apply Forall2_frame_refl | reflexivity]. }
  destruct (is_valid_status new_status); simpl in H.
  2:{ injection H as _ <-. split; [apply Forall2_frame_refl | reflexivity]. }
  unfold bind at 1 in H. simpl in H.
  destruct (update_first appointment_id new_status (appointments_db st))
    as [[db' updated]|] eqn:Hu.
  2:{ injection H as _ <-. split; [apply Forall2_frame_refl | reflexivity]. }
  apply update_first_frame in Hu.
  unfold bind, modify, ret in H. simpl in H.
  unfold ledger_store in H. destruct (truthy idempotency_key); simpl in H;
    injection H as _ <-; simpl; auto.
Qed.

(** C9. After a successful [update_appointment_status] the record list has
    the same length and, position by position, every record agrees with the
    one before on every field other than the status; a record whose id is
    not the given one is unchanged altogether. The source of randomness is
    untouched as well. *)
Theorem update_status_frame (st st' : Store) (appointment_id new_status : string)
    (idempotency_key : option string) (result : Appointment) :
  update_appointment_status appointment_id new_status idempotency_key st = (inr result, st') ->
  Forall2 (fun old new => same_but_status old new /\ (a_id old <> appointment_id -> new = old))
          (appointments_db st) (appointments_db st')
  /\ length (appointments_db st') = length (appointments_db st)
  /\ uuid4_calls st' = uuid4_calls st.
Proof.
  intros H. apply update_appointment_status_db in H as [Hframe Hcalls].
  split; [exact Hframe|]. split; [|exact Hcalls].
  symmetry. apply (Forall2_length _ _ _ Hframe).
Qed.

Lemma update_status_frame_witness :
  Forall2 (fun old new => same_but_status old new /\ (a_id old <> "apt_002" -> new = old))
          (appointments_db (initial_store demo_rand))
          (appointments_db
             (snd (update_appointment_status "apt_002" "Cancelled" (Some "k")
                     (initial_store demo_rand))))
  /\ length (appointments_db
               (snd (update_appointment_status "apt_002" "Cancelled" (Some "k")
                       (initial_store demo_rand))))
     = length (appointments_db (initial_store demo_rand))
  /\ uuid4_calls (snd (update_appointment_status "apt_002" "Cancelled" (Some "k")
                     (initial_store demo_rand)))
     = uuid4_calls (initial_store demo_rand).
Proof.
  apply (update_status_frame (initial_store demo_rand) _ "apt_002" "Cancelled" (Some "k")
           (set_status (mkAppointment "apt_002" "Sarah Wilson" "2024-01-15" "10:30" 45
                          "Dr. Smith" "Scheduled" "online") "Cancelled")).
  reflexivity.
Defined.

(** ** Validation failures of [create_appointment] *)

(** C7, as amended. When the ledger does not answer the call and the
    detailed validator rejects the payload with the messages [errs],
    [create_appointment] raises a [ValueError] whose only argument is one
    string: the prefix followed by the messages joined with a semicolon and a
    space, in the validator's order. Nothing in the state changes. *)
Theorem create_validation_error (st : Store) (d : gmap string pyval)
    (idempotency_key : option string) (errs : list string) :
  fresh_key st idempotency_key ->
  validate_appointment_data_detailed (PyDict d) = (false, errs) ->
  create_appointment (PyDict d) idempotency_key st
  = (inl (ValueError ("Validation failed: " +:+ join "; " errs)), st)
  /\ exn_args (ValueError ("Validation failed: " +:+ join "; " errs))
     = ["Validation failed: " +:+ join "; " errs].
Proof.
  intros Hfresh Hv. split; [|reflexivity].
  unfold create_appointment.
  rewrite (bind_inr _ _ _ _ _ (ledger_lookup_fresh _ _ Hfresh)).
  rewrite Hv. reflexivity.
Qed.

Lemma create_validation_error_witness :
  create_appointment (PyDict (<["duration" := VInt 0]> demo_payload)) None
    (initial_store demo_rand)
  = (inl (ValueError "Validation failed: Duration must be greater than 0 minutes"),
     initial_store demo_rand)
  /\ exn_args (ValueError "Validation failed: Duration must be greater than 0 minutes")
     = ["Validation failed: Duration must be greater than 0 minutes"].
Proof.
  apply (create_validation_error (initial_store demo_rand)
           (<["duration" := VInt 0]> demo_payload) None
           ["Duration must be greater than 0 minutes"]).
  - exact I.
  - vm_compute. reflexivity.
Defined.

(** C7 as stated fails on the empty payload: the validator reports six
    messages, the error raised carries one string in which they are merged. *)
Lemma create_validation_error_merged :
  exists e,
    fst (create_appointment (PyDict ∅) None (initial_store demo_rand)) = inl e
    /\ length (snd (validate_appointment_data_detailed (PyDict ∅))) = 6%nat
    /\ exn_args e <> snd (validate_appointment_data_detailed (PyDict ∅))
    /\ exn_args e
       = ["Validation failed: Patient name is required; Date is required; Time is required; Duration is required; Doctor name is required; Appointment mode is required"].
Proof.
  eexists. split; [vm_compute; reflexivity|].
  split; [reflexivity|]. split; [|reflexivity]. discriminate.
Qed.

(** ** Detailed validator *)

(** Each block leaves the messages collected so far in place and adds its
    own result, whatever the earlier blocks found. *)

Lemma validate_patient_name_app d errors :
  validate_patient_name d errors = errors ++ validate_patient_name d [].
Proof. unfold validate_patient_name. block_cases; simpl; rewrite ?app_nil_r; reflexivity. Qed.

Lemma validate_date_app d errors :
  validate_date d errors = errors ++ validate_date d [].
Proof. unfold validate_date. block_cases; simpl; rewrite ?app_nil_r; reflexivity. Qed.

Lemma validate_time_app d errors :
  validate_time d errors = errors ++ validate_time d [].
Proof. unfold validate_time. block_cases; simpl; rewrite ?app_nil_r; reflexivity. Qed.

Lemma validate_duration_app d errors :
  validate_duration d errors = errors ++ validate_duration d [].
Proof. unfold validate_duration. block_cases; simpl; rewrite ?app_nil_r; reflexivity. Qed.

Lemma validate_doctor_name_app d errors :
  validate_doctor_name d errors = errors ++ validate_doctor_name d [].
Proof. unfold validate_doctor_name. block_cases; simpl; rewrite ?app_nil_r; reflexivity. Qed.

Lemma validate_mode_app d errors :
  validate_mode d errors = errors ++ validate_mode d [].
Proof. unfold validate_mode. block_cases; simpl; rewrite ?app_nil_r; reflexivity. Qed.

Lemma validate_patient_name_ok d :
  (length (validate_patient_name d []) <= 1)%nat
  /\ (validate_patient_name d [] = [] <-> patient_name_ok d).
Proof.
  unfold validate_patient_name, patient_name_ok.
  destruct (d !! "patientName") as [v|]; [destruct v; simpl; try destruct (blank s) eqn:E|];
    simpl; (split; [lia|]); split; try discriminate; eauto;
    intros (s' & H & Hb); congruence.
Qed.

Lemma validate_doctor_name_ok d :
  (length (validate_doctor_name d []) <= 1)%nat
  /\ (validate_doctor_name d [] = [] <-> doctor_name_ok d).
Proof.
  unfold validate_doctor_name, doctor_name_ok.
  destruct (d !! "doctorName") as [v|]; [destruct v; simpl; try destruct (blank s) eqn:E|];
    simpl; (split; [lia|]); split; try discriminate; eauto;
    intros (s' & H & Hb); congruence.
Qed.

Lemma validate_date_ok d :
  (length (validate_date d []) <= 1)%nat
  /\ (validate_date d [] = [] <-> date_ok d).
Proof.
  unfold validate_date, date_ok.
  destruct (d !! "date") as [v|]; [destruct v; simpl; try destruct (strptime_Ymd s) eqn:E|];
    simpl; (split; [lia|]); split; try discriminate; eauto;
    intros (s' & ymd & H & Hb); congruence.
Qed.

Lemma validate_time_ok d :
  (length (validate_time d []) <= 1)%nat
  /\ (validate_time d [] = [] <-> time_ok d).
Proof.
  unfold validate_time, time_ok.
  destruct (d !! "time") as [v|]; [destruct v; simpl; try destruct (strptime_HM s) eqn:E|];
    simpl; (split; [lia|]); split; try discriminate; eauto;
    intros (s' & hm & H & Hb); congruence.
Qed.

Lemma validate_duration_ok d :
  (length (validate_duration d []) <= 1)%nat
  /\ (validate_duration d [] = [] <-> duration_ok d).
Proof.
  unfold validate_duration, duration_ok.
  destruct (d !! "duration") as [v|].
  - destruct (as_int v) as [n|] eqn:Hi.
    + assert (Hinv : forall v' n', Some v = Some v' -> as_int v' = Some n' -> n' = n).
      { intros v' n' [= <-] Hn. congruence. }
      destruct (n <=? 0) eqn:E1; [|destruct (n >? 480) eqn:E2]; simpl; (split; [lia|]); split.
      * discriminate.
      * intros (v' & n' & H & Hn & Hr). rewrite (Hinv _ _ H Hn) in Hr. lia.
      * discriminate.
      * intros (v' & n' & H & Hn & Hr). rewrite (Hinv _ _ H Hn) in Hr. lia.
      * intros _. exists v, n. repeat split; auto; lia.
      * reflexivity.
    + simpl. split; [lia|]. split; [discriminate|].
      intros (v' & n' & [= <-] & Hn & _). congruence.
  - simpl. split; [lia|]. split; [discriminate|]. intros (v' & n' & H & _). discriminate.
Qed.

Lemma is_valid_mode_iff s : is_valid_mode s = true <-> s = "online" \/ s = "in-person".
Proof.
  unfold is_valid_mode, py_in, AppointmentMode.ONLINE, AppointmentMode.IN_PERSON.
  cbn [existsb]. rewrite !orb_true_iff, !String.eqb_eq. intuition discriminate.
Qed.

Lemma validate_mode_ok d :
  (length (validate_mode d []) <= 1)%nat
  /\ (validate_mode d [] = [] <-> mode_ok d).
Proof.
  unfold validate_mode, mode_ok.
  destruct (d !! "mode") as [v|].
  - destruct v; simpl; try (split; [lia|]; split; [discriminate | intros [H|H]; discriminate]).
    assert (Hs : Some (VStr s) = Some (VStr "online") \/ Some (VStr s) = Some (VStr "in-person")
                 <-> is_valid_mode s = true).
    { rewrite is_valid_mode_iff. split; (intros [H|H]; [left|right]); congruence. }
    rewrite Hs. destruct (is_valid_mode s); simpl; (split; [lia|]); split;
      congruence.
  - simpl. split; [lia|]. split; [discriminate|]. intros [H|H]; discriminate.
Qed.

(** The flag is true exactly when the six checks pass. *)
Lemma validate_passes_iff (d : gmap string pyval) :
  fst (validate_appointment_data_detailed (PyDict d)) = true
  <-> patient_name_ok d /\ date_ok d /\ time_ok d /\ duration_ok d
      /\ doctor_name_ok d /\ mode_ok d.
Proof.
  destruct (validate_patient_name_ok d) as [_ O1].
  destruct (validate_date_ok d) as [_ O2].
  destruct (validate_time_ok d) as [_ O3].
  destruct (validate_duration_ok d) as [_ O4].
  destruct (validate_doctor_name_ok d) as [_ O5].
  destruct (validate_mode_ok d) as [_ O6].
  rewrite <- O1, <- O2, <- O3, <- O4, <- O5, <- O6. simpl. rewrite Nat.eqb_eq.
  rewrite validate_mode_app, validate_doctor_name_app, validate_duration_app,
    validate_time_app, validate_date_app.
  split.
  - intros H. apply nil_length_inv in H.
    repeat (apply app_eq_nil in H as [H ?]). auto 10.
  - intros (-> & -> & -> & -> & -> & ->). reflexivity.
Qed.

Lemma validate_patient_name_check (d : gmap string pyval) :
  text_check d "patientName" (fun s => negb (blank s))
    "Patient name is required" "Patient name must be a string"
    "Patient name cannot be empty or whitespace only" (validate_patient_name d []).
Proof.
  unfold text_check, validate_patient_name. repeat split.
  - intros ->. reflexivity.
  - intros v -> ->. reflexivity.
  - intros s -> H. simpl. apply negb_false_iff in H. rewrite H. reflexivity.
  - intros s -> H. simpl. apply negb_true_iff in H. rewrite H. reflexivity.
Qed.

Lemma validate_date_check (d : gmap string pyval) :
  text_check d "date" parses_Ymd
    "Date is required" "Date must be a string" "Date must be in YYYY-MM-DD format"
    (validate_date d []).
Proof.
  unfold text_check, validate_date, parses_Ymd. repeat split.
  - intros ->. reflexivity.
  - intros v -> ->. reflexivity.
  - intros s -> H. simpl. destruct (strptime_Ymd s); [discriminate | reflexivity].
  - intros s -> H. simpl. destruct (strptime_Ymd s); [reflexivity | discriminate].
Qed.

Lemma validate_time_check (d : gmap string pyval) :
  text_check d "time" parses_HM
    "Time is required" "Time must be a string" "Time must be in HH:MM format (24-hour)"
    (validate_time d []).
Proof.
  unfold text_check, validate_time, parses_HM. repeat split.
  - intros ->. reflexivity.
  - intros v -> ->. reflexivity.
  - intros s -> H. simpl. destruct (strptime_HM s); [discriminate | reflexivity].
  - intros s -> H. simpl. destruct (strptime_HM s); [reflexivity | discriminate].
Qed.

Lemma validate_duration_check (d : gmap string pyval) :
  duration_check d (validate_duration d []).
Proof.
  unfold duration_check, validate_duration. repeat split.
  - intros ->. reflexivity.
  - intros v -> ->. reflexivity.
  - intros v n -> -> H. apply Z.leb_le in H. rewrite H. reflexivity.
  - intros v n -> -> H.
    destruct (n <=? 0) eqn:E0; [apply Z.leb_le in E0; lia|].
    destruct (n >? 480) eqn:E1; [reflexivity | rewrite Z.gtb_ltb in E1; apply Z.ltb_ge in E1; lia].
  - intros v n -> -> [Hlo Hhi].
    destruct (n <=? 0) eqn:E0; [apply Z.leb_le in E0; lia|].
    destruct (n >? 480) eqn:E1; [apply Z.gtb_gt in E1; lia | reflexivity].
Qed.

Lemma validate_doctor_name_check (d : gmap string pyval) :
  text_check d "doctorName" (fun s => negb (blank s))
    "Doctor name is required" "Doctor name must be a string"
    "Doctor name cannot be empty or whitespace only" (validate_doctor_name d []).
Proof.
  unfold text_check, validate_doctor_name. repeat split.
  - intros ->. reflexivity.
  - intros v -> ->. reflexivity.
  - intros s -> H. simpl. apply negb_false_iff in H. rewrite H. reflexivity.
  - intros s -> H. simpl. apply negb_true_iff in H. rewrite H. reflexivity.
Qed.

Lemma validate_mode_check (d : gmap string pyval) :
  text_check d "mode" is_valid_mode
    "Appointment mode is required" "Appointment mode must be a string"
    "Appointment mode must be one of: online, in-person" (validate_mode d []).
Proof.
  unfold text_check, validate_mode. repeat split.
  - intros ->. reflexivity.
  - intros v -> ->. reflexivity.
  - intros s -> H. simpl as_str. cbv iota. rewrite H. reflexivity.
  - intros s -> H. simpl as_str. cbv iota. rewrite H. reflexivity.
Qed.

(** C5. On a dictionary payload the detailed validator runs all six checks
    and reports them in the order patient name, date, time, duration, doctor
    name, mode: its message list is the concatenation, in that order, of one
    part per check. Each part is what its own check reports: nothing when
    the check passes, and otherwise the one message of that check for the
    first thing that is wrong with the field (missing, of the wrong type, not
    admissible). The flag is true exactly when all six checks pass. The
    duration check passes exactly for an integer above 0 and at most 480,
    the mode check exactly for one of the two modes. *)
Theorem validate_detailed_spec (d : gmap string pyval) :
  exists e1 e2 e3 e4 e5 e6 : list string,
    snd (validate_appointment_data_detailed (PyDict d)) = e1 ++ e2 ++ e3 ++ e4 ++ e5 ++ e6
    /\ Forall (fun e => (length e <= 1)%nat) [e1; e2; e3; e4; e5; e6]
    /\ (e1 = [] <-> patient_name_ok d)
    /\ (e2 = [] <-> date_ok d)
    /\ (e3 = [] <-> time_ok d)
    /\ (e4 = [] <-> duration_ok d)
    /\ (e5 = [] <-> doctor_name_ok d)
    /\ (e6 = [] <-> mode_ok d)
    /\ (fst (validate_appointment_data_detailed (PyDict d)) = true
        <-> patient_name_ok d /\ date_ok d /\ time_ok d /\ duration_ok d
            /\ doctor_name_ok d /\ mode_ok d)
    /\ (fst (validate_appointment_data_detailed (PyDict d)) = true
        <-> snd (validate_appointment_data_detailed (PyDict d)) = [])
    /\ text_check d "patientName" (fun s => negb (blank s))
         "Patient name is required" "Patient name must be a string"
         "Patient name cannot be empty or whitespace only" e1
    /\ text_check d "date" parses_Ymd
         "Date is required" "Date must be a string"
         "Date must be in YYYY-MM-DD format" e2
    /\ text_check d "time" parses_HM
         "Time is required" "Time must be a string"
         "Time must be in HH:MM format (24-hour)" e3
    /\ duration_check d e4
    /\ text_check d "doctorName" (fun s => negb (blank s))
         "Doctor name is required" "Doctor name must be a string"
         "Doctor name cannot be empty or whitespace only" e5
    /\ text_check d "mode" is_valid_mode
         "Appointment mode is required" "Appointment mode must be a string"
         "Appointment mode must be one of: online, in-person" e6.
Proof.
  destruct (validate_patient_name_ok d) as [L1 O1].
  destruct (validate_date_ok d) as [L2 O2].
  destruct (validate_time_ok d) as [L3 O3].
  destruct (validate_duration_ok d) as [L4 O4].
  destruct (validate_doctor_name_ok d) as [L5 O5].
  destruct (validate_mode_ok d) as [L6 O6].
  exists (validate_patient_name d []), (validate_date d []), (validate_time d []),
    (validate_duration d []), (validate_doctor_name d []), (validate_mode d []).
  assert (Hsnd : snd (validate_appointment_data_detailed (PyDict d))
                 = validate_patient_name d [] ++ validate_date d [] ++ validate_time d []
                   ++ validate_duration d [] ++ validate_doctor_name d []
                   ++ validate_mode d []).
  { simpl. rewrite validate_mode_app, validate_doctor_name_app, validate_duration_app,
      validate_time_app, validate_date_app. rewrite <- !app_assoc. reflexivity. }
  assert (Hfst : fst (validate_appointment_data_detailed (PyDict d)) = true
                 <-> snd (validate_appointment_data_detailed (PyDict d)) = []).
  { simpl. rewrite Nat.eqb_eq. split; [apply nil_length_inv | intros ->; reflexivity]. }
  split; [exact Hsnd|]. split; [repeat (constructor; [assumption|]); constructor|].
  do 6 (split; [assumption|]). split; [apply validate_passes_iff|].
  split; [exact Hfst|].
  split; [apply validate_patient_name_check|]. split; [apply validate_date_check|].
  split; [apply validate_time_check|]. split; [apply validate_duration_check|].
  split; [apply validate_doctor_name_check | apply validate_mode_check].
Qed.


Lemma validate_detailed_spec_witness :
  let d : gmap string pyval :=
    <["date" := VStr "2024-02-01"]> (<["time" := VStr "09:00"]> (<["duration" := VInt 0]>
    (<["doctorName" := VStr "Dr. X"]> (<["mode" := VStr "phone"]> ∅)))) in
  validate_appointment_data_detailed (PyDict d)
  = (false, ["Patient name is required"; "Duration must be greater than 0 minutes";
             "Appointment mode must be one of: online, in-person"]).
Proof.
  intros d.
  destruct (validate_detailed_spec d)
    as (e1 & e2 & e3 & e4 & e5 & e6 & Hsnd & _ & _ & _ & _ & _ & _ & _ & _ & _
        & (T1 & _) & (_ & _ & _ & T2) & (_ & _ & _ & T3) & (_ & _ & T4 & _)
        & (_ & _ & _ & T5) & (_ & _ & T6 & _)).
  assert (H1 : e1 = ["Patient name is required"]) by (apply T1; reflexivity).
  assert (H2 : e2 = []) by (apply (T2 "2024-02-01"); reflexivity).
  assert (H3 : e3 = []) by (apply (T3 "09:00"); reflexivity).
  assert (H4 : e4 = ["Duration must be greater than 0 minutes"])
    by (apply (T4 (VInt 0) 0); [reflexivity | reflexivity | lia]).
  assert (H5 : e5 = []) by (apply (T5 "Dr. X"); reflexivity).
  assert (H6 : e6 = ["Appointment mode must be one of: online, in-person"])
    by (apply (T6 "phone"); reflexivity).
  rewrite H1, H2, H3, H4, H5, H6 in Hsnd. cbn [app] in Hsnd.
  rewrite (surjective_pairing (validate_appointment_data_detailed (PyDict d))).
  rewrite Hsnd. f_equal.
Defined.

(** ** Conflict detector *)


(** On a store whose times all parse, the scan never stops early: it adds to
    the conflicts found so far exactly the records the rule selects. *)
Lemma scan_conflicts_filter (candidate : Appointment) (hour minute : Z)
    (db conflicts : list Appointment) :
  strptime_HM (a_time candidate) = Some (hour, minute) ->
  store_wf db ->
  scan_conflicts candidate (hour * 60 + minute)
    (hour * 60 + minute + a_duration candidate) db conflicts
  = conflicts ++ List.filter (conflicts_with candidate) db.
Proof.
  intros Hc Hwf. revert conflicts.
  induction Hwf as [|x db [[h m] Hx] _ IH]; intros conflicts; simpl.
  - rewrite app_nil_r. reflexivity.
  - assert (Ecw : conflicts_with candidate x
                  = String.eqb (a_date x) (a_date candidate)
                    && String.eqb (a_doctorName x) (a_doctorName candidate)
                    && negb (String.eqb (a_id x) (a_id candidate))
                    && ((hour * 60 + minute <? h * 60 + m + a_duration x)
                        && (hour * 60 + minute + a_duration candidate >? h * 60 + m))).
    { unfold conflicts_with, slot. rewrite Hc, Hx. reflexivity. }
    rewrite Ecw, Hx. clear Ecw.
    destruct (String.eqb (a_date x) (a_date candidate)); simpl; [|apply IH].
    destruct (String.eqb (a_doctorName x) (a_doctorName candidate)); simpl; [|apply IH].
    destruct (String.eqb (a_id x) (a_id candidate)); simpl; [apply IH|].
    destruct ((hour * 60 + minute <? h * 60 + m + a_duration x)
              && (hour * 60 + minute + a_duration candidate >? h * 60 + m)).
    + rewrite IH, <- app_assoc. reflexivity.
    + apply IH.
Qed.

Lemma conflicts_with_iff (candidate other : Appointment) :
  conflicts_with candidate other = true <->
  a_date other = a_date candidate
  /\ a_doctorName other = a_doctorName candidate
  /\ a_id other <> a_id candidate
  /\ exists cs ce os oe,
       slot candidate = Some (cs, ce) /\ slot other = Some (os, oe)
       /\ cs < oe /\ ce > os.
Proof.
  unfold conflicts_with.
  rewrite !andb_true_iff, !String.eqb_eq, negb_true_iff, String.eqb_neq.
  destruct (slot candidate) as [[cs ce]|], (slot other) as [[os oe]|].
  - rewrite andb_true_iff, Z.ltb_lt, Z.gtb_gt. split.
    + intros [[[? ?] ?] [? ?]]. repeat split; auto. exists cs, ce, os, oe. auto.
    + intros (? & ? & ? & cs' & ce' & os' & oe' & [= <- <-] & [= <- <-] & ? & ?). auto.
  - split; [intros [_ ?]; discriminate|].
    intros (_ & _ & _ & ? & ? & ? & ? & _ & ? & _). discriminate.
  - split; [intros [_ ?]; discriminate|].
    intros (_ & _ & _ & ? & ? & ? & ? & ? & _). discriminate.
  - split; [intros [_ ?]; discriminate|].
    intros (_ & _ & _ & ? & ? & ? & ? & ? & _). discriminate.
Qed.

(** C1. On a store whose times of day all parse (every reachable store, see
    [create_appointment_store_wf] and [update_appointment_status_store_wf]),
    [detect_scheduling_conflicts] returns the stored records selected by the
    conflict rule, all of them, in store order: a record is reported exactly
    when it is stored, has the candidate's date and doctor, another id, and a
    slot with [candidate.start < other.end] and [candidate.end > other.start].
    A record whose slot only touches the candidate's is never reported. *)
Theorem detect_scheduling_conflicts_spec (db : list Appointment) (candidate : Appointment) :
  store_wf db ->
  detect_scheduling_conflicts db candidate = List.filter (conflicts_with candidate) db
  /\ (forall other,
        other ∈ detect_scheduling_conflicts db candidate <->
        other ∈ db
        /\ a_date other = a_date candidate
        /\ a_doctorName other = a_doctorName candidate
        /\ a_id other <> a_id candidate
        /\ exists cs ce os oe,
             slot candidate = Some (cs, ce) /\ slot other = Some (os, oe)
             /\ cs < oe /\ ce > os)
  /\ (forall other cs ce os oe,
        slot candidate = Some (cs, ce) -> slot other = Some (os, oe) ->
        ce = os \/ oe = cs ->
        other ∉ detect_scheduling_conflicts db candidate).
Proof.
  intros Hwf.
  assert (Heq : detect_scheduling_conflicts db candidate
                = List.filter (conflicts_with candidate) db).
  { unfold detect_scheduling_conflicts.
    destruct (strptime_HM (a_time candidate)) as [[hour minute]|] eqn:Hc.
    - rewrite (scan_conflicts_filter _ _ _ _ _ Hc Hwf). reflexivity.
    - clear Hwf. induction db as [|x db IH]; [reflexivity|]. simpl. rewrite <- IH.
      unfold conflicts_with, slot. rewrite Hc, andb_false_r. reflexivity. }
  assert (Hin : forall other,
             other ∈ detect_scheduling_conflicts db candidate <->
             other ∈ db /\ conflicts_with candidate other = true).
  { intros other. rewrite Heq, list_elem_of_In, filter_In, <- list_elem_of_In. reflexivity. }
  split; [exact Heq|]. split.
  - intros other. rewrite Hin, conflicts_with_iff. reflexivity.
  - intros other cs ce os oe Hc Ho Htouch Hmem.
    apply Hin in Hmem as [_ Hmem]. apply conflicts_with_iff in Hmem.
    destruct Hmem as (_ & _ & _ & cs' & ce' & os' & oe' & Hc' & Ho' & Hlt & Hgt).
    rewrite Hc in Hc'. rewrite Ho in Ho'.
    injection Hc' as <- <-. injection Ho' as <- <-. lia.
Qed.

Lemma detect_scheduling_conflicts_spec_witness :
  let candidate :=
    mkAppointment "apt_new" "B" "2024-01-15" "09:15" 30 "Dr. Johnson" "Scheduled" "in-person" in
  detect_scheduling_conflicts sample_appointments candidate
  = List.filter (conflicts_with candidate) sample_appointments
  /\ (forall other,
        other ∈ detect_scheduling_conflicts sample_appointments candidate <->
        other ∈ sample_appointments
        /\ a_date other = a_date candidate
        /\ a_doctorName other = a_doctorName candidate
        /\ a_id other <> a_id candidate
        /\ exists cs ce os oe,
             slot candidate = Some (cs, ce) /\ slot other = Some (os, oe)
             /\ cs < oe /\ ce > os)
  /\ (forall other cs ce os oe,
        slot candidate = Some (cs, ce) -> slot other = Some (os, oe) ->
        ce = os \/ oe = cs ->
        other ∉ detect_scheduling_conflicts sample_appointments candidate).
Proof.
  intros candidate.
  apply (detect_scheduling_conflicts_spec sample_appointments candidate).
  unfold store_wf, sample_appointments.
  repeat (constructor; [eexists; reflexivity|]). constructor.
Defined.

(** The two scenarios of the specification on the rule itself: a quarter
    past nine collides with the half hour from nine, half past nine does not. *)
Example detect_overlap_0915 :
  map a_id (detect_scheduling_conflicts sample_appointments
              (mkAppointment "apt_new" "B" "2024-01-15" "09:15" 30 "Dr. Johnson"
                 "Scheduled" "in-person"))
  = ["apt_001"].
Proof. reflexivity. Qed.

Example detect_touching_0930 :
  detect_scheduling_conflicts sample_appointments
    (mkAppointment "apt_new" "B" "2024-01-15" "09:30" 30 "Dr. Johnson"
       "Scheduled" "in-person")
  = [].
Proof. reflexivity. Qed.


(** ** Identity generation *)

Lemma after_draws_0 st : after_draws st 0 = st.
Proof. destruct st. unfold after_draws. simpl. rewrite Nat.add_0_r. reflexivity. Qed.

Lemma after_draws_S st n : after_draws (after_draws st 1) n = after_draws st (S n).
Proof. unfold after_draws. simpl. f_equal. lia. Qed.

Lemma candidate_id_S st i : candidate_id (after_draws st 1) i = candidate_id st (S i).
Proof. unfold candidate_id, after_draws. simpl. do 2 f_equal. lia. Qed.

Lemma generate_unique_id_loop_step (remaining max_retries : nat) (st : Store) :
  generate_unique_id_loop (S remaining) max_retries st
  = if id_taken st (candidate_id st 0)
    then generate_unique_id_loop remaining max_retries (after_draws st 1)
    else (inr (candidate_id st 0), after_draws st 1).
Proof.
  unfold candidate_id, id_taken. rewrite Nat.add_0_r. simpl.
  unfold bind, uuid4_8, bind, gets, modify, ret, ensure_unique_appointment_id, bind, gets, ret.
  simpl. unfold after_draws. replace (uuid4_calls st + 1)%nat with (S (uuid4_calls st)) by lia.
  destruct (existsb _ (appointments_db st)); reflexivity.
Qed.

(** The loop returns the first proposal that is not taken, after that many
    draws. *)
Lemma generate_unique_id_loop_success (remaining max_retries : nat) (st : Store) (i : nat) :
  (i < remaining)%nat ->
  (forall j, (j < i)%nat -> id_taken st (candidate_id st j) = true) ->
  id_taken st (candidate_id st i) = false ->
  generate_unique_id_loop remaining max_retries st
  = (inr (candidate_id st i), after_draws st (S i)).
Proof.
  revert st i. induction remaining as [|n IH]; intros st i Hi Hbefore Hfree; [lia|].
  rewrite generate_unique_id_loop_step. destruct i as [|i].
  - rewrite Hfree. reflexivity.
  - rewrite (Hbefore 0%nat) by lia.
    rewrite (IH (after_draws st 1) i).
    + rewrite candidate_id_S, after_draws_S. reflexivity.
    + lia.
    + intros j Hj. rewrite candidate_id_S. apply (Hbefore (S j)). lia.
    + rewrite candidate_id_S. exact Hfree.
Qed.

(** When every proposal is taken the loop runs out and raises. *)
Lemma generate_unique_id_loop_exhausted (remaining max_retries : nat) (st : Store) :
  (forall j, (j < remaining)%nat -> id_taken st (candidate_id st j) = true) ->
  generate_unique_id_loop remaining max_retries st
  = (inl (RuntimeError ("Unable to generate unique appointment ID after "
                        +:+ pretty max_retries +:+ " attempts")),
     after_draws st remaining).
Proof.
  revert st. induction remaining as [|n IH]; intros st Hall.
  - simpl. unfold raise. rewrite after_draws_0. reflexivity.
  - rewrite generate_unique_id_loop_step. rewrite (Hall 0%nat) by lia.
    rewrite (IH (after_draws st 1)).
    + rewrite after_draws_S. reflexivity.
    + intros j Hj. rewrite candidate_id_S. apply (Hall (S j)). lia.
Qed.

(** What a returned id satisfies. *)
Lemma generate_unique_id_loop_inr (remaining max_retries : nat) (st st' : Store)
    (new_id : string) :
  generate_unique_id_loop remaining max_retries st = (inr new_id, st') ->
  id_taken st new_id = false
  /\ exists i, (i < remaining)%nat /\ new_id = candidate_id st i /\ st' = after_draws st (S i).
Proof.
  revert st. induction remaining as [|n IH]; intros st H; [discriminate|].
  rewrite generate_unique_id_loop_step in H.
  destruct (id_taken st (candidate_id st 0)) eqn:E.
  - apply IH in H as (Hfree & i & Hi & -> & ->). split; [exact Hfree|].
    exists (S i). rewrite candidate_id_S, after_draws_S. split; [lia|auto].
  - injection H as <- <-. split; [exact E|]. exists 0%nat. split; [lia|auto].
Qed.

Lemma id_taken_false_not_in st new_id :
  id_taken st new_id = false <-> new_id ∉ map a_id (appointments_db st).
Proof.
  unfold id_taken. rewrite <- not_true_iff_false, existsb_exists, list_elem_of_In, in_map_iff.
  split; intros H (x & Hx1 & Hx2); apply H; exists x.
  - split; [exact Hx2|]. apply String.eqb_eq. exact Hx1.
  - split; [apply String.eqb_eq; exact Hx2 | exact Hx1].
Qed.

(** ** Creation *)

(** After a successful validation the six values can be read with the types
    of the record: the [KeyError] branch of the embedding is dead. *)
Lemma new_appointment_of_validated (d : gmap string pyval) (new_id : string) :
  fst (validate_appointment_data_detailed (PyDict d)) = true ->
  exists a, new_appointment_of new_id d = Some a
            /\ a_id a = new_id
            /\ a_status a = AppointmentStatus.SCHEDULED
            /\ is_Some (strptime_HM (a_time a)).
Proof.
  intros H. apply validate_passes_iff in H.
  destruct H as ((pn & Hpn & _) & (dt & ymd & Hdt & _) & (tm & hm & Htm & Hhm)
                 & (dv & dn & Hdv & Hdn & _) & (dr & Hdr & _) & Hmode).
  assert (exists md, d !! "mode" = Some (VStr md)) as [md Hmd]
    by (destruct Hmode; eauto).
  unfold new_appointment_of.
  rewrite Hpn, Hdt, Htm, Hdv, Hdr, Hmd. simpl. rewrite Hdn. simpl.
  eexists. split; [reflexivity|]. simpl. repeat split. rewrite Hhm. eauto.
Qed.

Lemma new_appointment_of_fields (d : gmap string pyval) (new_id : string) (a : Appointment) :
  new_appointment_of new_id d = Some a ->
  a_id a = new_id /\ a_status a = AppointmentStatus.SCHEDULED.
Proof.
  unfold new_appointment_of. intros H.
  destruct (d !! "patientName" ≫= as_str); simpl in H; [|discriminate].
  destruct (d !! "date" ≫= as_str); simpl in H; [|discriminate].
  destruct (d !! "time" ≫= as_str); simpl in H; [|discriminate].
  destruct (d !! "duration" ≫= as_int); simpl in H; [|discriminate].
  destruct (d !! "doctorName" ≫= as_str); simpl in H; [|discriminate].
  destruct (d !! "mode" ≫= as_str); simpl in H; [|discriminate].
  injection H as <-. split; reflexivity.
Qed.

(** The state after the append and the ledger registration. *)
Lemma create_appointment_miss (st st1 : Store) (d : gmap string pyval)
    (idempotency_key : option string) (new_id : string) (a : Appointment) :
  fresh_key st idempotency_key ->
  fst (validate_appointment_data_detailed (PyDict d)) = true ->
  generate_unique_id_with_retry 10 st = (inr new_id, st1) ->
  new_appointment_of new_id d = Some a ->
  create_appointment (PyDict d) idempotency_key st
  = match detect_scheduling_conflicts (appointments_db st1) a with
    | [] =>
        (inr a, snd (ledger_store idempotency_key a
                       (set_appointments_db (appointments_db st1 ++ [a]) st1)))
    | c :: cs =>
        (inl (ValueError ("Scheduling conflicts detected: "
                          +:+ join "; " (map conflict_detail (c :: cs)))), st1)
    end.
Proof.
  intros Hfresh Hv Hgen Ha. unfold create_appointment.
  rewrite (bind_inr _ _ _ _ _ (ledger_lookup_fresh _ _ Hfresh)).
  destruct (validate_appointment_data_detailed (PyDict d)) as [ok errs].
  simpl in Hv. subst ok. cbv beta iota. change (negb true) with false. cbv beta iota.
  rewrite (bind_inr _ _ _ _ _ Hgen). rewrite Ha.
  unfold bind at 1, gets.
  destruct (detect_scheduling_conflicts (appointments_db st1) a); [|reflexivity].
  unfold bind, modify, ret.
  destruct (ledger_store idempotency_key a _) as [[e|[]] st2] eqn:El.
  - pose proof (ledger_store_inr (set_appointments_db (appointments_db st1 ++ [a]) st1)
                  idempotency_key a) as Hi. rewrite El in Hi. discriminate.
  - reflexivity.
Qed.

Lemma create_appointment_exhausted (st st1 : Store) (d : gmap string pyval)
    (idempotency_key : option string) (e : exn) :
  fresh_key st idempotency_key ->
  fst (validate_appointment_data_detailed (PyDict d)) = true ->
  generate_unique_id_with_retry 10 st = (inl e, st1) ->
  create_appointment (PyDict d) idempotency_key st = (inl e, st1).
Proof.
  intros Hfresh Hv Hgen. unfold create_appointment.
  rewrite (bind_inr _ _ _ _ _ (ledger_lookup_fresh _ _ Hfresh)).
  destruct (validate_appointment_data_detailed (PyDict d)) as [ok errs].
  simpl in Hv. subst ok. cbv beta iota. change (negb true) with false. cbv beta iota.
  rewrite (bind_inl _ _ _ _ _ Hgen). reflexivity.
Qed.

Lemma fresh_key_dec st key :
  fresh_key st key
  \/ exists k stored, truthy key = Some k /\ idempotency_keys st !! k = Some stored.
Proof.
  unfold fresh_key. destruct (truthy key) as [k|]; [|auto].
  destruct (idempotency_keys st !! k) as [stored|] eqn:E; eauto.
Qed.

Lemma create_appointment_hit (st : Store) (payload : pyobj) (idempotency_key : option string)
    (k : string) (stored : Appointment) :
  truthy idempotency_key = Some k ->
  idempotency_keys st !! k = Some stored ->
  create_appointment payload idempotency_key st = (inr stored, st).
Proof.
  intros Hk Hs. unfold create_appointment, bind, ledger_lookup, gets.
  rewrite Hk, Hs. reflexivity.
Qed.

(** How a successful [create_appointment] came about: a replay from the
    ledger, or a validated payload, a generated id, no conflict, an append
    and a registration. *)
Lemma create_appointment_inr (st st' : Store) (payload : pyobj)
    (idempotency_key : option string) (r : Appointment) :
  create_appointment payload idempotency_key st = (inr r, st') ->
  (exists k, truthy idempotency_key = Some k
             /\ idempotency_keys st !! k = Some r /\ st' = st)
  \/ (fresh_key st idempotency_key
      /\ exists d new_id st1,
           payload = PyDict d
           /\ fst (validate_appointment_data_detailed (PyDict d)) = true
           /\ generate_unique_id_with_retry 10 st = (inr new_id, st1)
           /\ new_appointment_of new_id d = Some r
           /\ detect_scheduling_conflicts (appointments_db st1) r = []
           /\ st' = snd (ledger_store idempotency_key r
                           (set_appointments_db (appointments_db st1 ++ [r]) st1))).
Proof.
  intros H. destruct (fresh_key_dec st idempotency_key) as [Hfresh | (k & stored & Hk & Hs)].
  - right. split; [exact Hfresh|].
    destruct payload as [d|v].
    2:{ unfold create_appointment in H.
        rewrite (bind_inr _ _ _ _ _ (ledger_lookup_fresh _ _ Hfresh)) in H. discriminate. }
    destruct (fst (validate_appointment_data_detailed (PyDict d))) eqn:Hv.
    2:{ unfold create_appointment in H.
        rewrite (bind_inr _ _ _ _ _ (ledger_lookup_fresh _ _ Hfresh)) in H.
        destruct (validate_appointment_data_detailed (PyDict d)) as [ok errs].
        simpl in Hv. subst ok. discriminate. }
    destruct (generate_unique_id_with_retry 10 st) as [[e|new_id] st1] eqn:Hgen.
    { rewrite (create_appointment_exhausted _ _ _ _ _ Hfresh Hv Hgen) in H. discriminate. }
    destruct (new_appointment_of_validated d new_id Hv) as (a & Ha & _).
    rewrite (create_appointment_miss _ _ _ _ _ _ Hfresh Hv Hgen Ha) in H.
    destruct (detect_scheduling_conflicts (appointments_db st1) a) eqn:Hd; [|discriminate].
    injection H as <- <-. exists d, new_id, st1. auto 10.
  - left. rewrite (create_appointment_hit _ _ _ _ _ Hk Hs) in H.
    injection H as <- <-. eauto.
Qed.

Lemma ledger_store_keys st key k r :
  truthy key = Some k ->
  idempotency_keys (snd (ledger_store key r st)) !! k = Some r.
Proof.
  intros Hk. unfold ledger_store. rewrite Hk. simpl. apply lookup_insert_eq.
Qed.

(** C2, as amended. For every non-empty idempotency key and every two
    payloads, if [create_appointment] with the first payload and the key
    succeeds, a second call with the same key and the second payload, valid
    or not, dictionary or not, returns the same record and leaves the whole
    state as the first call left it: no validation, no conflict detection,
    no draw of an id, no store or ledger mutation. When the key was not in
    the ledger before the first call, the two calls together append exactly
    that one record to the store; when it was, the first call is a replay
    itself and changes nothing. *)
Theorem create_appointment_idempotent (st st1 : Store) (p1 p2 : pyobj) (k : string)
    (r : Appointment) :
  k <> "" ->
  create_appointment p1 (Some k) st = (inr r, st1) ->
  create_appointment p2 (Some k) st1 = (inr r, st1)
  /\ (idempotency_keys st !! k = None ->
      appointments_db st1 = appointments_db st ++ [r])
  /\ (is_Some (idempotency_keys st !! k) -> st1 = st).
Proof.
  intros Hk H. pose proof (truthy_Some k Hk) as Ht.
  apply create_appointment_inr in H
    as [(k' & Hk' & Hs & ->) | (Hfresh & d & new_id & st0 & -> & Hv & Hgen & Ha & Hd & ->)].
  - rewrite Ht in Hk'. injection Hk' as <-. split; [|split].
    + apply (create_appointment_hit _ _ _ k r Ht Hs).
    + intros Hnone. congruence.
    + reflexivity.
  - split; [|split].
    + apply (create_appointment_hit _ _ _ k r Ht). apply ledger_store_keys. exact Ht.
    + intros _. rewrite ledger_store_db. simpl.
      apply generate_unique_id_loop_inr in Hgen as (_ & i & _ & _ & ->). reflexivity.
    + intros [stored Hs]. unfold fresh_key in Hfresh. rewrite Ht in Hfresh. congruence.
Qed.

Lemma create_appointment_idempotent_witness :
  let st := initial_store demo_rand in
  let st1 := snd (create_appointment (PyDict demo_payload) (Some "retry-1") st) in
  let r := mkAppointment "apt_00000000" "A" "2024-02-01" "09:00" 30 "Dr. X"
             "Scheduled" "in-person" in
  create_appointment (PyNonDict VNone) (Some "retry-1") st1 = (inr r, st1)
  /\ (idempotency_keys st !! "retry-1" = None ->
      appointments_db st1 = appointments_db st ++ [r])
  /\ (is_Some (idempotency_keys st !! "retry-1") -> st1 = st).
Proof.
  intros st st1 r.
  apply (create_appointment_idempotent st st1 (PyDict demo_payload) (PyNonDict VNone)
           "retry-1" r).
  - discriminate.
  - vm_compute. reflexivity.
Defined.

(** C2 as stated fails for the empty key, which both calls treat as no key:
    repeating the payload is rejected as a conflict with the record the first
    call stored, and another payload stores a second record. *)
Lemma create_appointment_empty_key_repeats :
  let st := initial_store demo_rand in
  let later := <["time" := VStr "10:00"]> demo_payload in
  exists r st1,
    create_appointment (PyDict demo_payload) (Some "") st = (inr r, st1)
    /\ fst (create_appointment (PyDict demo_payload) (Some "") st1)
       = inl (ValueError
                "Scheduling conflicts detected: Conflict with appointment apt_00000000 at 09:00")
    /\ exists r2 st2,
         create_appointment (PyDict later) (Some "") st1 = (inr r2, st2)
         /\ a_id r2 <> a_id r
         /\ appointments_db st2 = appointments_db st ++ [r; r2].
Proof.
  intros st later. eexists. eexists. split; [vm_compute; reflexivity|].
  split; [vm_compute; reflexivity|].
  eexists. eexists. split; [vm_compute; reflexivity|].
  split; [discriminate | reflexivity].
Qed.

(** C4. For a payload that passes validation and collides with nothing in
    the store, on a call the ledger does not answer: when one of the next ten
    proposals of the generator is not a stored id, [create_appointment]
    returns the record built from the payload with the first such id and the
    status Scheduled, whatever the payload says about a status; that id is
    the id of no stored record; the store afterwards is the store before
    with that record appended. When all ten proposals are stored ids it
    raises the [RuntimeError] and stores nothing. *)
Theorem create_appointment_fresh (st : Store) (d : gmap string pyval)
    (idempotency_key : option string) :
  fresh_key st idempotency_key ->
  fst (validate_appointment_data_detailed (PyDict d)) = true ->
  (forall new_id a, new_appointment_of new_id d = Some a ->
                    detect_scheduling_conflicts (appointments_db st) a = []) ->
  (forall i, (i < 10)%nat ->
     (forall j, (j < i)%nat -> id_taken st (candidate_id st j) = true) ->
     id_taken st (candidate_id st i) = false ->
     exists r st',
       create_appointment (PyDict d) idempotency_key st = (inr r, st')
       /\ new_appointment_of (candidate_id st i) d = Some r
       /\ a_id r = candidate_id st i
       /\ a_status r = AppointmentStatus.SCHEDULED
       /\ (a_id r ∉ map a_id (appointments_db st))
       /\ appointments_db st' = appointments_db st ++ [r])
  /\ ((forall j, (j < 10)%nat -> id_taken st (candidate_id st j) = true) ->
      create_appointment (PyDict d) idempotency_key st
      = (inl (RuntimeError "Unable to generate unique appointment ID after 10 attempts"),
         after_draws st 10)
      /\ appointments_db (after_draws st 10) = appointments_db st).
Proof.
  intros Hfresh Hv Hfree. split.
  - intros i Hi Hbefore Hi_free.
    pose proof (generate_unique_id_loop_success 10 10 st i Hi Hbefore Hi_free) as Hgen.
    destruct (new_appointment_of_validated d (candidate_id st i) Hv) as (r & Hr & Hid & Hst & _).
    exists r. eexists.
    rewrite (create_appointment_miss st _ d idempotency_key _ r Hfresh Hv Hgen Hr).
    change (appointments_db (after_draws st (S i))) with (appointments_db st).
    rewrite (Hfree _ _ Hr). split; [reflexivity|].
    split; [exact Hr|]. split; [exact Hid|]. split; [exact Hst|]. split.
    + rewrite Hid. apply id_taken_false_not_in. exact Hi_free.
    + rewrite ledger_store_db. reflexivity.
  - intros Hall. split; [|reflexivity].
    apply (create_appointment_exhausted st _ d idempotency_key _ Hfresh Hv).
    apply (generate_unique_id_loop_exhausted 10 10 st Hall).
Qed.

Lemma create_appointment_fresh_witness :
  let st := initial_store demo_rand in
  let d := <["status" := VStr "Cancelled"]> demo_payload in
  exists r st',
    create_appointment (PyDict d) None st = (inr r, st')
    /\ new_appointment_of (candidate_id st 0) d = Some r
    /\ a_id r = candidate_id st 0
    /\ a_status r = AppointmentStatus.SCHEDULED
    /\ (a_id r ∉ map a_id (appointments_db st))
    /\ appointments_db st' = appointments_db st ++ [r].
Proof.
  intros st d.
  refine (proj1 (create_appointment_fresh st d None I _ _) 0%nat _ _ _).
  - vm_compute. reflexivity.
  - intros new_id a Ha. vm_compute in Ha. injection Ha as <-. vm_compute. reflexivity.
  - lia.
  - intros j Hj. lia.
  - vm_compute. reflexivity.
Defined.

(** The two creation scenarios of the specification: after the half hour
    from nine for "Dr. X" is stored, a quarter past nine is refused with the
    id of the stored record, half past nine is accepted. *)
Example create_scenario_overlap :
  let st1 := snd (create_appointment (PyDict demo_payload) None (initial_store demo_rand)) in
  let second := <["patientName" := VStr "B"]> (<["time" := VStr "09:15"]> demo_payload) in
  fst (create_appointment (PyDict second) None st1)
  = inl (ValueError
           "Scheduling conflicts detected: Conflict with appointment apt_00000000 at 09:00").
Proof. vm_compute. reflexivity. Qed.

Example create_scenario_touching :
  let st1 := snd (create_appointment (PyDict demo_payload) None (initial_store demo_rand)) in
  let second := <["patientName" := VStr "B"]> (<["time" := VStr "09:30"]> demo_payload) in
  fst (create_appointment (PyDict second) None st1)
  = inr (mkAppointment "apt_00000001" "B" "2024-02-01" "09:30" 30 "Dr. X"
           "Scheduled" "in-person").
Proof. vm_compute. reflexivity. Qed.

(** ** One ledger for both operations *)

(** A key stored by [update_appointment_status] answers a later
    [create_appointment] with the same key: the updated record comes back
    and nothing is created. *)
Lemma update_then_create_replays (st st' : Store) (appointment_id new_status k : string)
    (payload : pyobj) (r : Appointment) :
  k <> "" ->
  update_appointment_status appointment_id new_status (Some k) st = (inr r, st') ->
  create_appointment payload (Some k) st' = (inr r, st').
Proof.
  intros Hk H. pose proof (truthy_Some k Hk) as Ht.
  apply (create_appointment_hit _ _ _ k r Ht).
  unfold update_appointment_status in H. unfold bind at 1 in H.
  unfold ledger_lookup in H. rewrite Ht in H. unfold gets in H.
  destruct (idempotency_keys st !! k) as [stored|] eqn:Hs.
  { injection H as <- <-. exact Hs. }
  destruct (String.eqb appointment_id ""); [discriminate|].
  destruct (is_valid_status new_status); simpl in H; [|discriminate].
  unfold bind at 1 in H. simpl in H.
  destruct (update_first appointment_id new_status (appointments_db st))
    as [[db' updated]|]; [|discriminate].
  unfold bind, modify, ret, ledger_store in H. rewrite Ht in H. simpl in H.
  injection H as <- <-. simpl. apply lookup_insert_eq.
Qed.

(** And the other way round: a key stored by [create_appointment] answers a
    later [update_appointment_status], which then updates nothing. *)
Lemma create_then_update_replays (st st' : Store) (payload : pyobj)
    (appointment_id new_status k : string) (r : Appointment) :
  k <> "" ->
  create_appointment payload (Some k) st = (inr r, st') ->
  update_appointment_status appointment_id new_status (Some k) st' = (inr r, st').
Proof.
  intros Hk H. pose proof (truthy_Some k Hk) as Ht.
  assert (Hs : idempotency_keys st' !! k = Some r).
  { apply create_appointment_inr in H
      as [(k' & Hk' & Hs & ->) | (_ & d & new_id & st0 & _ & _ & _ & _ & _ & ->)].
    - rewrite Ht in Hk'. injection Hk' as <-. exact Hs.
    - apply ledger_store_keys. exact Ht. }
  unfold update_appointment_status, bind, ledger_lookup, gets. rewrite Ht, Hs. reflexivity.
Qed.

(** C6 on the code. The key "k1" is first used to cancel the sample
    "apt_001". A create with the same key and a payload that is valid and
    free of conflicts (the same call without the key stores a thirteenth
    record) returns the cancelled "apt_001" and stores nothing. *)
Theorem create_short_circuited_by_update_key :
  let st := initial_store demo_rand in
  exists r st1,
    idempotency_keys st !! "k1" = None
    /\ update_appointment_status "apt_001" "Cancelled" (Some "k1") st = (inr r, st1)
    /\ a_id r = "apt_001" /\ a_status r = "Cancelled"
    /\ create_appointment (PyDict demo_payload) (Some "k1") st1 = (inr r, st1)
    /\ length (appointments_db st1) = 12%nat
    /\ exists r' st2,
         create_appointment (PyDict demo_payload) None st1 = (inr r', st2)
         /\ a_id r' = "apt_00000000" /\ a_status r' = "Scheduled"
         /\ length (appointments_db st2) = 13%nat.
Proof.
  intros st. eexists. eexists. split; [reflexivity|].
  split; [vm_compute; reflexivity|]. split; [reflexivity|]. split; [reflexivity|].
  split; [vm_compute; reflexivity|]. split; [reflexivity|].
  eexists. eexists. split; [vm_compute; reflexivity|]. repeat split.
Qed.

(** ** Invariants of the store *)

Lemma sample_appointments_wf : store_wf sample_appointments.
Proof.
  unfold store_wf, sample_appointments.
  repeat (constructor; [eexists; reflexivity|]). constructor.
Qed.

Lemma sample_appointments_ids : NoDup (map a_id sample_appointments).
Proof. apply (bool_decide_unpack (NoDup (map a_id sample_appointments))). vm_compute. exact I. Qed.

Lemma generate_unique_id_loop_db (remaining max_retries : nat) (st : Store) :
  appointments_db (snd (generate_unique_id_loop remaining max_retries st))
  = appointments_db st.
Proof.
  revert st. induction remaining as [|n IH]; intros st; [reflexivity|].
  rewrite generate_unique_id_loop_step.
  destruct (id_taken st (candidate_id st 0)); [rewrite IH|]; reflexivity.
Qed.

(** Whatever [create_appointment] returns or raises, the record list is
    either untouched or longer by the returned record, whose time parses and
    whose id is new. *)
Lemma create_appointment_db (st st' : Store) (payload : pyobj)
    (idempotency_key : option string) (res : exn + Appointment) :
  create_appointment payload idempotency_key st = (res, st') ->
  appointments_db st' = appointments_db st
  \/ exists r, res = inr r
               /\ appointments_db st' = appointments_db st ++ [r]
               /\ is_Some (strptime_HM (a_time r))
               /\ a_id r ∉ map a_id (appointments_db st).
Proof.
  intros H. destruct (fresh_key_dec st idempotency_key) as [Hfresh | (k & stored & Hk & Hs)].
  2:{ rewrite (create_appointment_hit _ _ _ _ _ Hk Hs) in H. injection H as _ <-. auto. }
  destruct payload as [d|v].
  2:{ unfold create_appointment in H.
      rewrite (bind_inr _ _ _ _ _ (ledger_lookup_fresh _ _ Hfresh)) in H.
      injection H as _ <-. auto. }
  destruct (fst (validate_appointment_data_detailed (PyDict d))) eqn:Hv.
  2:{ unfold create_appointment in H.
      rewrite (bind_inr _ _ _ _ _ (ledger_lookup_fresh _ _ Hfresh)) in H.
      destruct (validate_appointment_data_detailed (PyDict d)) as [ok errs].
      simpl in Hv. subst ok. injection H as _ <-. auto. }
  pose proof (generate_unique_id_loop_db 10 10 st) as Hdb.
  fold (generate_unique_id_with_retry 10) in Hdb.
  destruct (generate_unique_id_with_retry 10 st) as [[e|new_id] st1] eqn:Hgen; simpl in Hdb.
  { rewrite (create_appointment_exhausted _ _ _ _ _ Hfresh Hv Hgen) in H.
    injection H as _ <-. auto. }
  destruct (new_appointment_of_validated d new_id Hv) as (a & Ha & Hid & _ & Htime).
  rewrite (create_appointment_miss _ _ _ _ _ _ Hfresh Hv Hgen Ha) in H.
  destruct (detect_scheduling_conflicts (appointments_db st1) a) eqn:Hd.
  - injection H as <- <-. right. exists a. split; [reflexivity|].
    rewrite ledger_store_db. simpl. rewrite Hdb. split; [reflexivity|].
    split; [exact Htime|]. rewrite Hid. apply id_taken_false_not_in.
    apply generate_unique_id_loop_inr in Hgen. tauto.
  - injection H as _ <-. auto.
Qed.

Lemma create_appointment_store_wf (st st' : Store) (payload : pyobj)
    (idempotency_key : option string) (res : exn + Appointment) :
  store_wf (appointments_db st) ->
  create_appointment payload idempotency_key st = (res, st') ->
  store_wf (appointments_db st').
Proof.
  intros Hwf H. apply create_appointment_db in H as [-> | (r & _ & -> & Ht & _)]; [exact Hwf|].
  apply Forall_app. split; [exact Hwf|]. constructor; [exact Ht | constructor].
Qed.

Lemma create_appointment_ids (st st' : Store) (payload : pyobj)
    (idempotency_key : option string) (res : exn + Appointment) :
  NoDup (map a_id (appointments_db st)) ->
  create_appointment payload idempotency_key st = (res, st') ->
  NoDup (map a_id (appointments_db st')).
Proof.
  intros Hnd H. apply create_appointment_db in H as [-> | (r & _ & -> & _ & Hid)]; [exact Hnd|].
  rewrite map_app. apply NoDup_app. split; [exact Hnd|]. split.
  - intros x Hx Hin. apply list_elem_of_In in Hin as [Heq|[]]. subst x. contradiction.
  - simpl. apply NoDup_singleton.
Qed.

Lemma update_appointment_status_store_wf (st st' : Store) (appointment_id new_status : string)
    (idempotency_key : option string) (res : exn + Appointment) :
  store_wf (appointments_db st) ->
  update_appointment_status appointment_id new_status idempotency_key st = (res, st') ->
  store_wf (appointments_db st').
Proof.
  intros Hwf H. apply update_appointment_status_db in H as [Hframe _].
  unfold store_wf in *. induction Hframe as [|old new db db' [Hs _] _ IH]; [constructor|].
  inversion Hwf as [|? ? Hold Hrest]; subst. constructor; [|apply IH; exact Hrest].
  destruct Hs as (_ & _ & _ & Htime & _). rewrite Htime. exact Hold.
Qed.

Lemma update_appointment_status_ids (st st' : Store) (appointment_id new_status : string)
    (idempotency_key : option string) (res : exn + Appointment) :
  update_appointment_status appointment_id new_status idempotency_key st = (res, st') ->
  map a_id (appointments_db st') = map a_id (appointments_db st).
Proof.
  intros H. apply update_appointment_status_db in H as [Hframe _].
  induction Hframe as [|old new db db' [Hs _] _ IH]; [reflexivity|].
  simpl. rewrite IH. destruct Hs as (-> & _). reflexivity.
Qed.

(** ** Overlap analyzer *)

Lemma py_in_true (x : string) (xs : list string) : py_in x xs = true <-> x ∈ xs.
Proof.
  unfold py_in. rewrite existsb_exists, list_elem_of_In. split.
  - intros (y & Hy & Heq). apply String.eqb_eq in Heq. subst y. exact Hy.
  - intros H. exists x. split; [exact H | apply String.eqb_refl].
Qed.

Lemma py_in_false (x : string) (xs : list string) : py_in x xs = false <-> x ∉ xs.
Proof. rewrite <- py_in_true. destruct (py_in x xs); split; congruence. Qed.

Lemma overlap_pair_cases (apt1 apt2 : Appointment) (m : gmap string (list Appointment)) :
  (overlap_pair apt1 apt2 m = m /\ forall s1 s2, ~ overlapping apt1 apt2 s1 s2)
  \/ exists s1 s2,
       overlapping apt1 apt2 s1 s2
       /\ overlap_pair apt1 apt2 m
          = <[overlap_key apt1 s1 s2 :=
                add_pair apt1 apt2 (default [] (m !! overlap_key apt1 s1 s2))]> m.
Proof.
  unfold overlap_pair, overlapping, slot.
  destruct (String.eqb (a_date apt1) (a_date apt2)) eqn:Ed; simpl.
  2:{ left. split; [reflexivity|]. intros s1 s2 (H & _).
      apply String.eqb_neq in Ed. contradiction. }
  destruct (String.eqb (a_doctorName apt1) (a_doctorName apt2)) eqn:En; simpl.
  2:{ left. split; [reflexivity|]. intros s1 s2 (_ & H & _).
      apply String.eqb_neq in En. contradiction. }
  apply String.eqb_eq in Ed, En.
  destruct (strptime_HM (a_time apt1)) as [[h1 m1]|].
  2:{ left. split; [reflexivity|]. intros s1 s2 (_ & _ & e1 & e2 & H & _). discriminate. }
  destruct (strptime_HM (a_time apt2)) as [[h2 m2]|].
  2:{ left. split; [reflexivity|]. intros s1 s2 (_ & _ & e1 & e2 & _ & H & _). discriminate. }
  destruct ((h1 * 60 + m1 <? h2 * 60 + m2 + a_duration apt2)
            && (h2 * 60 + m2 <? h1 * 60 + m1 + a_duration apt1)) eqn:Eo.
  - right. exists (h1 * 60 + m1), (h2 * 60 + m2).
    apply andb_true_iff in Eo as [E1 E2]. apply Z.ltb_lt in E1, E2.
    split; [|reflexivity]. split; [exact Ed|]. split; [exact En|]. eauto 10.
  - left. split; [reflexivity|].
    intros s1 s2 (_ & _ & e1 & e2 & [= <- <-] & [= <- <-] & H1 & H2).
    apply andb_false_iff in Eo as [E|E]; apply Z.ltb_ge in E; lia.
Qed.

Lemma add_pair_incl (apt1 apt2 : Appointment) (members : list Appointment) (x : Appointment) :
  x ∈ members -> x ∈ add_pair apt1 apt2 members.
Proof.
  intros H. unfold add_pair.
  destruct (py_in (a_id apt1) _), (py_in (a_id apt2) _);
    rewrite ?elem_of_app; auto.
Qed.

Lemma add_pair_from (apt1 apt2 : Appointment) (members : list Appointment) (x : Appointment) :
  x ∈ add_pair apt1 apt2 members -> x ∈ members \/ x = apt1 \/ x = apt2.
Proof.
  unfold add_pair.
  destruct (py_in (a_id apt1) _), (py_in (a_id apt2) _);
    rewrite ?elem_of_app, ?list_elem_of_singleton; tauto.
Qed.

Lemma add_pair_ids (apt1 apt2 : Appointment) (members : list Appointment) :
  a_id apt1 ∈ map a_id (add_pair apt1 apt2 members)
  /\ a_id apt2 ∈ map a_id (add_pair apt1 apt2 members).
Proof.
  unfold add_pair.
  destruct (py_in (a_id apt1) _) eqn:E1, (py_in (a_id apt2) _) eqn:E2;
    rewrite ?py_in_true in *; rewrite ?map_app, ?elem_of_app; simpl;
    rewrite ?list_elem_of_singleton; auto.
Qed.

Lemma add_pair_NoDup (apt1 apt2 : Appointment) (members : list Appointment) :
  a_id apt1 <> a_id apt2 ->
  NoDup (map a_id members) ->
  NoDup (map a_id (add_pair apt1 apt2 members)).
Proof.
  intros Hne Hnd. unfold add_pair.
  destruct (py_in (a_id apt1) _) eqn:E1, (py_in (a_id apt2) _) eqn:E2;
    rewrite ?py_in_false in *; rewrite ?map_app; simpl; auto.
  - apply NoDup_app. split; [exact Hnd|]. split; [|apply NoDup_singleton].
    intros y Hy Hin. apply list_elem_of_singleton in Hin. subst y. contradiction.
  - apply NoDup_app. split; [exact Hnd|]. split; [|apply NoDup_singleton].
    intros y Hy Hin. apply list_elem_of_singleton in Hin. subst y. contradiction.
  - apply NoDup_app. split; [|split; [|apply NoDup_singleton]].
    + apply NoDup_app. split; [exact Hnd|]. split; [|apply NoDup_singleton].
      intros y Hy Hin. apply list_elem_of_singleton in Hin. subst y. contradiction.
    + intros y Hy Hin. apply list_elem_of_singleton in Hin. subst y.
      apply elem_of_app in Hy as [Hy|Hy]; [contradiction|].
      apply list_elem_of_singleton in Hy. congruence.
Qed.

Lemma same_id_same_record (l : list Appointment) (x y : Appointment) :
  NoDup (map a_id l) -> x ∈ l -> y ∈ l -> a_id x = a_id y -> x = y.
Proof.
  induction l as [|z l IH]; intros Hnd Hx Hy Heq.
  - apply elem_of_nil in Hx. contradiction.
  - simpl in Hnd. apply NoDup_cons in Hnd as [Hz Hnd].
    apply elem_of_cons in Hx as [->|Hx]; apply elem_of_cons in Hy as [->|Hy]; auto.
    + exfalso. apply Hz. rewrite Heq. apply list_elem_of_fmap. eauto.
    + exfalso. apply Hz. rewrite <- Heq. apply list_elem_of_fmap. eauto.
Qed.

Lemma clusters_le_refl m : clusters_le m m.
Proof. intros key members H. eauto. Qed.

Lemma clusters_le_trans m1 m2 m3 : clusters_le m1 m2 -> clusters_le m2 m3 -> clusters_le m1 m3.
Proof.
  intros H12 H23 key members H.
  destruct (H12 _ _ H) as (members2 & H2 & Hin2).
  destruct (H23 _ _ H2) as (members3 & H3 & Hin3). eauto.
Qed.

Lemma recorded_mono a b sa sb m m' :
  clusters_le m m' -> recorded a b sa sb m -> recorded a b sa sb m'.
Proof.
  intros Hle (members & Hm & Ha & Hb).
  destruct (Hle _ _ Hm) as (members' & Hm' & Hin). exists members'. auto.
Qed.

Lemma recorded_sym a b sa sb m :
  a_date a = a_date b -> a_doctorName a = a_doctorName b ->
  recorded a b sa sb m -> recorded b a sb sa m.
Proof.
  intros Hd Hn (members & Hm & Ha & Hb). exists members.
  unfold overlap_key in *. rewrite <- Hd, <- Hn, Z.min_comm. auto.
Qed.

Section Clusters.
Variable l : list Appointment.
Hypothesis l_ids : NoDup (map a_id l).

(** One pair: the clusters stay well formed, only grow, and hold the pair
    when it overlaps. *)
Lemma overlap_pair_step (apt1 apt2 : Appointment) (m : gmap string (list Appointment)) :
  clusters_ok l m -> apt1 ∈ l -> apt2 ∈ l -> a_id apt1 <> a_id apt2 ->
  clusters_ok l (overlap_pair apt1 apt2 m)
  /\ clusters_le m (overlap_pair apt1 apt2 m)
  /\ (forall s1 s2, overlapping apt1 apt2 s1 s2 ->
                    recorded apt1 apt2 s1 s2 (overlap_pair apt1 apt2 m)).
Proof.
  intros Hok H1 H2 Hne.
  destruct (overlap_pair_cases apt1 apt2 m) as [[-> Hno] | (s1 & s2 & Hov & ->)].
  { split; [exact Hok|]. split; [apply clusters_le_refl|].
    intros s1 s2 Hov. destruct (Hno _ _ Hov). }
  set (key := overlap_key apt1 s1 s2).
  set (old := default [] (m !! key)).
  assert (Hold : (forall x, x ∈ old -> x ∈ l) /\ NoDup (map a_id old)).
  { unfold old. destruct (m !! key) as [members|] eqn:Hm; simpl.
    - apply (Hok _ _ Hm).
    - split; [intros x Hx; apply elem_of_nil in Hx; contradiction | constructor]. }
  destruct Hold as [Hold_in Hold_nd].
  assert (Hnew_in : forall x, x ∈ add_pair apt1 apt2 old -> x ∈ l).
  { intros x Hx. apply add_pair_from in Hx as [Hx|[->| ->]]; auto. }
  assert (Hmem : forall a, a ∈ l -> a_id a ∈ map a_id (add_pair apt1 apt2 old) ->
                           a ∈ add_pair apt1 apt2 old).
  { intros a Ha Hid. apply list_elem_of_fmap in Hid as (x & Heq & Hx).
    rewrite (same_id_same_record l a x l_ids Ha (Hnew_in _ Hx) Heq). exact Hx. }
  split; [|split].
  - intros k members Hk. destruct (decide (key = k)) as [<-|Hkne].
    + rewrite lookup_insert_eq in Hk. injection Hk as <-. split; [exact Hnew_in|].
      apply add_pair_NoDup; assumption.
    + rewrite lookup_insert_ne in Hk by exact Hkne. apply (Hok _ _ Hk).
  - intros k members Hk. destruct (decide (key = k)) as [<-|Hkne].
    + rewrite lookup_insert_eq. eexists. split; [reflexivity|].
      intros x Hx. apply add_pair_incl. unfold old. rewrite Hk. exact Hx.
    + rewrite lookup_insert_ne by exact Hkne. eauto.
  - intros s1' s2' (_ & _ & e1' & e2' & Hs1' & Hs2' & _).
    destruct Hov as (_ & _ & e1 & e2 & Hs1 & Hs2 & _).
    rewrite Hs1 in Hs1'. rewrite Hs2 in Hs2'.
    injection Hs1' as <- <-. injection Hs2' as <- <-.
    exists (add_pair apt1 apt2 old). fold key. rewrite lookup_insert_eq.
    split; [reflexivity|].
    destruct (add_pair_ids apt1 apt2 old) as [Hi1 Hi2]. auto.
Qed.

(** The inner loop for one [apt1] against the records after it. *)
Lemma overlap_inner_step (apt1 : Appointment) (later : list Appointment)
    (m : gmap string (list Appointment)) :
  clusters_ok l m -> apt1 ∈ l ->
  (forall apt2, apt2 ∈ later -> apt2 ∈ l /\ a_id apt1 <> a_id apt2) ->
  clusters_ok l (overlap_inner apt1 later m)
  /\ clusters_le m (overlap_inner apt1 later m)
  /\ (forall apt2 s1 s2, apt2 ∈ later -> overlapping apt1 apt2 s1 s2 ->
                         recorded apt1 apt2 s1 s2 (overlap_inner apt1 later m)).
Proof.
  intros Hok H1. revert m Hok.
  induction later as [|apt2 later IH]; intros m Hok Hlater.
  - split; [exact Hok|]. split; [apply clusters_le_refl|].
    intros apt2 s1 s2 Hin. apply elem_of_nil in Hin. contradiction.
  - unfold overlap_inner. simpl. fold (overlap_inner apt1 later (overlap_pair apt1 apt2 m)).
    destruct (Hlater apt2) as [H2 Hne]; [left|].
    destruct (overlap_pair_step apt1 apt2 m Hok H1 H2 Hne) as (Hok' & Hle' & Hrec').
    destruct (IH _ Hok') as (Hok'' & Hle'' & Hrec'').
    { intros b Hb. apply Hlater. right. exact Hb. }
    split; [exact Hok''|]. split; [eapply clusters_le_trans; eassumption|].
    intros b s1 s2 Hb Hov. apply elem_of_cons in Hb as [->|Hb].
    + apply (recorded_mono _ _ _ _ _ _ Hle''). apply Hrec'. exact Hov.
    + apply Hrec''; assumption.
Qed.

(** The outer loop over a part [part] of the list. *)
Lemma overlap_outer_step (part : list Appointment) (m : gmap string (list Appointment)) :
  clusters_ok l m ->
  (forall x, x ∈ part -> x ∈ l) -> NoDup (map a_id part) ->
  clusters_ok l (overlap_outer part m)
  /\ clusters_le m (overlap_outer part m)
  /\ (forall i j a b s1 s2,
        (i < j)%nat -> part !! i = Some a -> part !! j = Some b ->
        overlapping a b s1 s2 -> recorded a b s1 s2 (overlap_outer part m)).
Proof.
  revert m. induction part as [|apt1 later IH]; intros m Hok Hin Hnd.
  - split; [exact Hok|]. split; [apply clusters_le_refl|].
    intros i j a b s1 s2 _ Hi. rewrite lookup_nil in Hi. discriminate.
  - simpl. simpl in Hnd. apply NoDup_cons in Hnd as [Hfirst Hnd].
    destruct (overlap_inner_step apt1 later m Hok) as (Hok' & Hle' & Hrec').
    { apply Hin. left. }
    { intros b Hb. split; [apply Hin; right; exact Hb|].
      intros Heq. apply Hfirst. rewrite Heq. apply list_elem_of_fmap. eauto. }
    destruct (IH _ Hok') as (Hok'' & Hle'' & Hrec'').
    { intros x Hx. apply Hin. right. exact Hx. }
    { exact Hnd. }
    split; [exact Hok''|]. split; [eapply clusters_le_trans; eassumption|].
    intros i j a b s1 s2 Hij Hi Hj Hov.
    destruct j as [|j]; [lia|]. simpl in Hj. destruct i as [|i].
    + simpl in Hi. injection Hi as <-.
      apply (recorded_mono _ _ _ _ _ _ Hle''). apply Hrec'; [|exact Hov].
      apply list_elem_of_lookup. eauto.
    + simpl in Hi. apply (Hrec'' i j); [lia|assumption..].
Qed.
End Clusters.

Lemma considered_ids (appointments : list Appointment) (date : option string) :
  NoDup (map a_id appointments) -> NoDup (map a_id (considered appointments date)).
Proof.
  unfold considered. destruct (truthy date) as [d|]; [|auto].
  induction appointments as [|x xs IH]; intros Hnd; [constructor|].
  simpl in Hnd. apply NoDup_cons in Hnd as [Hx Hnd]. simpl.
  destruct (String.eqb (a_date x) d); [|auto]. simpl. apply NoDup_cons. split; [|auto].
  intros Hin. apply Hx. apply list_elem_of_fmap in Hin as (y & -> & Hy).
  apply list_elem_of_fmap. exists y. split; [reflexivity|].
  apply list_elem_of_In in Hy. apply filter_In in Hy as [Hy _].
  apply list_elem_of_In. exact Hy.
Qed.

Lemma get_overlapping_appointments_outer (appointments : list Appointment)
    (date : option string) :
  get_overlapping_appointments appointments date
  = overlap_outer (considered appointments date) ∅.
Proof.
  unfold get_overlapping_appointments, considered.
  destruct appointments as [|x xs]; [|reflexivity].
  destruct (truthy date); reflexivity.
Qed.

(** C8, as amended. For every collection whose record ids are pairwise
    distinct (optionally filtered to one date) and every two different
    records of it with the same date and doctor whose slots intersect, the
    cluster keyed by date, doctor and the smaller of the two start minutes
    exists and holds both records; and no cluster holds two records with the
    same id, nor any record from outside the collection. *)
Theorem get_overlapping_appointments_spec (appointments : list Appointment)
    (date : option string) :
  NoDup (map a_id appointments) ->
  (forall a b start_a start_b,
     a ∈ considered appointments date -> b ∈ considered appointments date ->
     a <> b -> overlapping a b start_a start_b ->
     exists members,
       get_overlapping_appointments appointments date !! overlap_key a start_a start_b
       = Some members
       /\ a ∈ members /\ b ∈ members)
  /\ (forall key members,
        get_overlapping_appointments appointments date !! key = Some members ->
        NoDup (map a_id members)
        /\ forall x, x ∈ members -> x ∈ considered appointments date).
Proof.
  intros Hnd. rewrite get_overlapping_appointments_outer.
  pose proof (considered_ids appointments date Hnd) as Hc.
  destruct (overlap_outer_step (considered appointments date) Hc
              (considered appointments date) ∅) as (Hok & _ & Hrec).
  { intros key members Hk. rewrite lookup_empty in Hk. discriminate. }
  { auto. }
  { exact Hc. }
  split.
  - intros a b sa sb Ha Hb Hab Hov.
    apply list_elem_of_lookup in Ha as [i Hi]. apply list_elem_of_lookup in Hb as [j Hj].
    destruct (Nat.lt_trichotomy i j) as [Hlt|[Heq|Hgt]].
    + apply (Hrec i j a b sa sb Hlt Hi Hj Hov).
    + subst j. rewrite Hi in Hj. injection Hj as <-. contradiction.
    + destruct Hov as (Hd & Hn & ea & eb & Hsa & Hsb & H1 & H2).
      apply (recorded_sym b a sb sa); [congruence | congruence |].
      apply (Hrec j i b a sb sa Hgt Hj Hi).
      split; [congruence|]. split; [congruence|]. exists eb, ea. auto.
  - intros key members Hk. destruct (Hok _ _ Hk) as [Hin Hnd']. auto.
Qed.

Lemma get_overlapping_appointments_spec_witness :
  let extra := mkAppointment "apt_013" "B" "2024-01-15" "09:15" 30 "Dr. Johnson"
                 "Scheduled" "in-person" in
  let appointments := sample_appointments ++ [extra] in
  (forall a b start_a start_b,
     a ∈ considered appointments (Some "2024-01-15") ->
     b ∈ considered appointments (Some "2024-01-15") ->
     a <> b -> overlapping a b start_a start_b ->
     exists members,
       get_overlapping_appointments appointments (Some "2024-01-15")
         !! overlap_key a start_a start_b = Some members
       /\ a ∈ members /\ b ∈ members)
  /\ (forall key members,
        get_overlapping_appointments appointments (Some "2024-01-15") !! key = Some members ->
        NoDup (map a_id members)
        /\ forall x, x ∈ members -> x ∈ considered appointments (Some "2024-01-15")).
Proof.
  intros extra appointments.
  apply (get_overlapping_appointments_spec appointments (Some "2024-01-15")).
  apply (bool_decide_unpack (NoDup (map a_id appointments))). vm_compute. exact I.
Defined.

Example get_overlapping_appointments_cluster :
  get_overlapping_appointments
    (sample_appointments
     ++ [mkAppointment "apt_013" "B" "2024-01-15" "09:15" 30 "Dr. Johnson"
           "Scheduled" "in-person"]) None
  !! "2024-01-15_Dr. Johnson_540"
  = Some [mkAppointment "apt_001" "John Smith" "2024-01-15" "09:00" 30 "Dr. Johnson"
            "Confirmed" "in-person";
          mkAppointment "apt_013" "B" "2024-01-15" "09:15" 30 "Dr. Johnson"
            "Scheduled" "in-person"].
Proof. vm_compute. reflexivity. Qed.

(** C8 as stated fails on a collection in which two records share an id:
    membership is tested by id, so the later of the two is taken for present
    and left out of the cluster of a pair it overlaps in. *)
Lemma get_overlapping_appointments_shared_id :
  let a := mkAppointment "x" "A" "2024-02-01" "09:00" 30 "Dr. X" "Scheduled" "online" in
  let b := mkAppointment "y" "B" "2024-02-01" "09:00" 30 "Dr. X" "Scheduled" "online" in
  let c := mkAppointment "x" "C" "2024-02-01" "09:10" 30 "Dr. X" "Scheduled" "online" in
  let appointments := [a; b; c] in
  b ∈ considered appointments None /\ c ∈ considered appointments None
  /\ b <> c /\ a_id b <> a_id c
  /\ overlapping b c 540 550
  /\ get_overlapping_appointments appointments None !! overlap_key b 540 550 = Some [a; b]
  /\ ~ (exists members,
          get_overlapping_appointments appointments None !! overlap_key b 540 550
          = Some members
          /\ b ∈ members /\ c ∈ members).
Proof.
  intros a b c appointments.
  assert (Hc : get_overlapping_appointments appointments None !! overlap_key b 540 550
               = Some [a; b]) by (vm_compute; reflexivity).
  split; [right; left|]. split; [right; right; left|].
  split; [discriminate|]. split; [discriminate|]. split.
  - split; [reflexivity|]. split; [reflexivity|]. exists 570, 580. repeat split.
  - split; [exact Hc|]. intros (members & Hm & _ & Hin). rewrite Hc in Hm.
    injection Hm as <-.
    apply elem_of_cons in Hin as [Hin|Hin]; [discriminate|].
    apply elem_of_cons in Hin as [Hin|Hin]; [discriminate|].
    apply elem_of_nil in Hin. exact Hin.
Qed.

(** The same test reads the ids of a cluster once per pair: a record paired
    with a record of its own id is added twice. *)
Example get_overlapping_appointments_listed_twice :
  let a := mkAppointment "x" "A" "2024-02-01" "09:00" 30 "Dr. X" "Scheduled" "online" in
  get_overlapping_appointments [a; a] None !! "2024-02-01_Dr. X_540" = Some [a; a].
Proof. vm_compute. reflexivity. Qed.

(** * Further properties *)

(** ** Deletion *)

Lemma remove_first_None (appointment_id : string) (db : list Appointment) :
  remove_first appointment_id db = None
  <-> (forall a, a ∈ db -> a_id a <> appointment_id).
Proof.
  induction db as [|x db IH]; simpl.
  - split; [|reflexivity]. intros _ a Ha. apply elem_of_nil in Ha. contradiction.
  - destruct (String.eqb (a_id x) appointment_id) eqn:E.
    + apply String.eqb_eq in E. split; [discriminate|].
      intros H. exfalso. apply (H x); [left | exact E].
    + apply String.eqb_neq in E.
      destruct (remove_first appointment_id db) as [rest'|].
      * split; [discriminate|]. intros H.
        assert (Hn : @Some (list Appointment) rest' = None); [|discriminate].
        apply IH. intros a Ha. apply H. right. exact Ha.
      * split; [|reflexivity]. intros _ a Ha.
        apply elem_of_cons in Ha as [->|Ha]; [exact E|].
        apply (proj1 IH); [reflexivity | exact Ha].
Qed.

Lemma remove_first_Some (appointment_id : string) (db db' : list Appointment) :
  remove_first appointment_id db = Some db' ->
  exists before a after,
    db = before ++ a :: after /\ db' = before ++ after
    /\ a_id a = appointment_id
    /\ (forall b, b ∈ before -> a_id b <> appointment_id).
Proof.
  revert db'. induction db as [|x db IH]; intros db' H; simpl in H; [discriminate|].
  destruct (String.eqb (a_id x) appointment_id) eqn:E.
  - injection H as <-. apply String.eqb_eq in E. exists [], x, db.
    repeat split; auto. intros b Hb. apply elem_of_nil in Hb. contradiction.
  - destruct (remove_first appointment_id db) as [rest'|]; [|discriminate].
    injection H as <-. destruct (IH rest' eq_refl) as (before & a & after & -> & -> & Ha & Hb).
    exists (x :: before), a, after. repeat split; auto.
    intros b Hin. apply elem_of_cons in Hin as [->|Hin]; [|auto].
    apply String.eqb_neq. exact E.
Qed.

(** The two outcomes of [delete_appointment] on a non-empty id. *)
Lemma delete_appointment_cases (st : Store) (appointment_id : string) :
  appointment_id <> "" ->
  ((forall a, a ∈ appointments_db st -> a_id a <> appointment_id)
   /\ delete_appointment appointment_id st = (inr false, st))
  \/ (exists before a after,
        appointments_db st = before ++ a :: after
        /\ a_id a = appointment_id
        /\ (forall b, b ∈ before -> a_id b <> appointment_id)
        /\ delete_appointment appointment_id st
           = (inr true, mkStore (before ++ after) (idempotency_keys st)
                                (uuid4_prefix st) (uuid4_calls st))).
Proof.
  intros Hne. unfold delete_appointment. rewrite (eqb_empty_false _ Hne).
  unfold bind, gets. simpl.
  destruct (remove_first appointment_id (appointments_db st)) as [db'|] eqn:Hr.
  - right. apply remove_first_Some in Hr as (before & a & after & Hdb & -> & Ha & Hb).
    exists before, a, after. repeat split; auto.
  - left. split; [apply remove_first_None; exact Hr | reflexivity].
Qed.

(** X1. For a non-empty id, [delete_appointment] either finds no record with
    the id, returns [False] and changes nothing, or returns [True] after
    removing exactly the first record with the id: the records before and
    after it keep their order, the ledger and the generator are untouched.
    The empty id is rejected with a [ValueError]. *)
Theorem delete_appointment_spec (st : Store) (appointment_id : string) :
  appointment_id <> "" ->
  (((forall a, a ∈ appointments_db st -> a_id a <> appointment_id)
    /\ delete_appointment appointment_id st = (inr false, st))
   \/ (exists before a after,
         appointments_db st = before ++ a :: after
         /\ a_id a = appointment_id
         /\ (forall b, b ∈ before -> a_id b <> appointment_id)
         /\ delete_appointment appointment_id st
            = (inr true, mkStore (before ++ after) (idempotency_keys st)
                                 (uuid4_prefix st) (uuid4_calls st))))
  /\ delete_appointment "" st = (inl (ValueError "Appointment ID cannot be empty"), st).
Proof.
  intros Hne. split; [apply delete_appointment_cases; exact Hne | reflexivity].
Qed.

Lemma delete_appointment_spec_witness :
  let st := initial_store demo_rand in
  (((forall a, a ∈ appointments_db st -> a_id a <> "apt_002")
    /\ delete_appointment "apt_002" st = (inr false, st))
   \/ (exists before a after,
         appointments_db st = before ++ a :: after
         /\ a_id a = "apt_002"
         /\ (forall b, b ∈ before -> a_id b <> "apt_002")
         /\ delete_appointment "apt_002" st
            = (inr true, mkStore (before ++ after) (idempotency_keys st)
                                 (uuid4_prefix st) (uuid4_calls st))))
  /\ delete_appointment "" st = (inl (ValueError "Appointment ID cannot be empty"), st).
Proof.
  intros st. apply (delete_appointment_spec st "apt_002"). discriminate.
Defined.

(** Whatever [delete_appointment] returns or raises, it touches neither the
    ledger nor the generator, and what is left of the store is the store
    with at most one record taken out. *)
Lemma delete_appointment_db (st st' : Store) (appointment_id : string) (res : exn + bool) :
  delete_appointment appointment_id st = (res, st') ->
  idempotency_keys st' = idempotency_keys st
  /\ uuid4_calls st' = uuid4_calls st
  /\ (appointments_db st' = appointments_db st
      \/ exists before a after,
           appointments_db st = before ++ a :: after
           /\ appointments_db st' = before ++ after
           /\ a_id a = appointment_id
           /\ (forall b, b ∈ before -> a_id b <> appointment_id)).
Proof.
  unfold delete_appointment. destruct (String.eqb appointment_id "").
  { intros [= _ <-]. auto. }
  unfold bind, gets. simpl.
  destruct (remove_first appointment_id (appointments_db st)) as [db'|] eqn:Hr.
  - intros [= _ <-]. simpl. split; [reflexivity|]. split; [reflexivity|]. right.
    apply remove_first_Some in Hr as (before & a & after & Hdb & -> & Ha & Hb).
    exists before, a, after. auto.
  - intros [= _ <-]. auto.
Qed.

Lemma delete_appointment_gone (st : Store) (appointment_id : string) :
  NoDup (map a_id (appointments_db st)) ->
  appointment_id <> "" ->
  forall a, a ∈ appointments_db (snd (delete_appointment appointment_id st)) ->
            a_id a <> appointment_id.
Proof.
  intros Hnd Hne.
  destruct (delete_appointment_cases st appointment_id Hne)
    as [[Habs ->] | (before & a & after & Hdb & Ha & Hb & ->)]; simpl.
  - exact Habs.
  - rewrite Hdb in Hnd. rewrite map_app in Hnd. simpl in Hnd.
    apply NoDup_app in Hnd as (_ & _ & Hnd2). apply NoDup_cons in Hnd2 as [Hnotin _].
    intros x Hx Hid. apply elem_of_app in Hx as [Hx|Hx].
    + apply (Hb x Hx Hid).
    + apply Hnotin. rewrite Ha, <- Hid. apply list_elem_of_fmap. eauto.
Qed.

(** X2. In a store whose ids are pairwise distinct, a deleted id is gone:
    after [delete_appointment] no record has the id, a lookup of the id
    returns the absent value and a second deletion returns [False] and
    changes nothing. *)
Theorem delete_then_lookup (st : Store) (appointment_id : string) :
  NoDup (map a_id (appointments_db st)) ->
  appointment_id <> "" ->
  let st' := snd (delete_appointment appointment_id st) in
  (forall a, a ∈ appointments_db st' -> a_id a <> appointment_id)
  /\ get_appointment_by_id appointment_id st' = (inr None, st')
  /\ delete_appointment appointment_id st' = (inr false, st').
Proof.
  intros Hnd Hne st'.
  pose proof (delete_appointment_gone st appointment_id Hnd Hne) as Hgone. fold st' in Hgone.
  split; [exact Hgone|]. split.
  - unfold get_appointment_by_id. rewrite (eqb_empty_false _ Hne).
    unfold bind, gets, ret. simpl.
    rewrite (proj2 (find_id_None _ _) Hgone). reflexivity.
  - unfold delete_appointment. rewrite (eqb_empty_false _ Hne).
    unfold bind, gets. simpl.
    rewrite (proj2 (remove_first_None _ _) Hgone). reflexivity.
Qed.

Lemma delete_then_lookup_witness :
  let st := initial_store demo_rand in
  let st' := snd (delete_appointment "apt_002" st) in
  (forall a, a ∈ appointments_db st' -> a_id a <> "apt_002")
  /\ get_appointment_by_id "apt_002" st' = (inr None, st')
  /\ delete_appointment "apt_002" st' = (inr false, st').
Proof.
  intros st. apply (delete_then_lookup st "apt_002").
  - exact sample_appointments_ids.
  - discriminate.
Defined.

(** ** How the mutating calls end *)

Lemma generate_unique_id_loop_inl (remaining max_retries : nat) (st st' : Store) (e : exn) :
  generate_unique_id_loop remaining max_retries st = (inl e, st') ->
  st' = after_draws st remaining.
Proof.
  revert st. induction remaining as [|n IH]; intros st H.
  - simpl in H. injection H as _ <-. symmetry. apply after_draws_0.
  - rewrite generate_unique_id_loop_step in H.
    destruct (id_taken st (candidate_id st 0)); [|discriminate].
    apply IH in H. rewrite H. apply after_draws_S.
Qed.

Lemma detect_scheduling_conflicts_filter (db : list Appointment) (candidate : Appointment) :
  store_wf db -> is_Some (strptime_HM (a_time candidate)) ->
  detect_scheduling_conflicts db candidate = List.filter (conflicts_with candidate) db.
Proof.
  intros Hwf [[hour minute] Hc]. unfold detect_scheduling_conflicts. rewrite Hc.
  rewrite (scan_conflicts_filter _ _ _ _ _ Hc Hwf). reflexivity.
Qed.

(** Every way [create_appointment] can end. Either nothing is stored (an
    error, or a replay from the ledger) and the state differs by draws of
    the generator at most, or a validated record with a new id and no
    conflict is appended and registered. *)
Lemma create_appointment_outcome (st st' : Store) (payload : pyobj)
    (idempotency_key : option string) (res : exn + Appointment) :
  create_appointment payload idempotency_key st = (res, st') ->
  (exists n, st' = after_draws st n
             /\ forall r, res = inr r ->
                  exists k, truthy idempotency_key = Some k
                            /\ idempotency_keys st !! k = Some r)
  \/ (exists r d n,
        res = inr r /\ payload = PyDict d
        /\ fresh_key st idempotency_key
        /\ fst (validate_appointment_data_detailed (PyDict d)) = true
        /\ new_appointment_of (a_id r) d = Some r
        /\ id_taken st (a_id r) = false
        /\ (exists u, a_id r = "apt_" +:+ u)
        /\ detect_scheduling_conflicts (appointments_db st) r = []
        /\ st' = snd (ledger_store idempotency_key r
                        (set_appointments_db (appointments_db st ++ [r])
                           (after_draws st n)))).
Proof.
  intros H. destruct (fresh_key_dec st idempotency_key) as [Hfresh | (k & stored & Hk & Hs)].
  2:{ rewrite (create_appointment_hit _ _ _ _ _ Hk Hs) in H. injection H as <- <-.
      left. exists 0%nat. rewrite after_draws_0. split; [reflexivity|].
      intros r [= <-]. eauto. }
  destruct payload as [d|v].
  2:{ unfold create_appointment in H.
      rewrite (bind_inr _ _ _ _ _ (ledger_lookup_fresh _ _ Hfresh)) in H.
      injection H as <- <-. left. exists 0%nat. rewrite after_draws_0.
      split; [reflexivity|]. intros r Hr. discriminate. }
  destruct (fst (validate_appointment_data_detailed (PyDict d))) eqn:Hv.
  2:{ unfold create_appointment in H.
      rewrite (bind_inr _ _ _ _ _ (ledger_lookup_fresh _ _ Hfresh)) in H.
      destruct (validate_appointment_data_detailed (PyDict d)) as [ok errs].
      simpl in Hv. subst ok. injection H as <- <-. left. exists 0%nat. rewrite after_draws_0.
      split; [reflexivity|]. intros r Hr. discriminate. }
  destruct (generate_unique_id_with_retry 10 st) as [[e|new_id] st1] eqn:Hgen.
  { rewrite (create_appointment_exhausted _ _ _ _ _ Hfresh Hv Hgen) in H.
    injection H as <- <-. left. exists 10%nat.
    split; [apply (generate_unique_id_loop_inl _ _ _ _ _ Hgen)|]. intros r Hr. discriminate. }
  destruct (new_appointment_of_validated d new_id Hv) as (a & Ha & Hid & _ & Htime).
  rewrite (create_appointment_miss _ _ _ _ _ _ Hfresh Hv Hgen Ha) in H.
  apply generate_unique_id_loop_inr in Hgen as (Hfree & i & _ & Hcand & ->).
  change (appointments_db (after_draws st (S i))) with (appointments_db st) in H.
  destruct (detect_scheduling_conflicts (appointments_db st) a) eqn:Hd.
  - injection H as <- <-. right. exists a, d, (S i). rewrite Hid.
    split; [reflexivity|]. split; [reflexivity|]. split; [exact Hfresh|].
    split; [exact Hv|]. split; [exact Ha|]. split; [exact Hfree|].
    split; [exists (uuid4_prefix st (uuid4_calls st + i)%nat); exact Hcand|].
    split; [exact Hd | reflexivity].
  - injection H as <- <-. left. exists (S i). split; [reflexivity|].
    intros r Hr. discriminate.
Qed.

(** Every way [update_appointment_status] can end. *)
Lemma update_appointment_status_outcome (st st' : Store) (appointment_id new_status : string)
    (idempotency_key : option string) (res : exn + Appointment) :
  update_appointment_status appointment_id new_status idempotency_key st = (res, st') ->
  (st' = st
   /\ forall r, res = inr r ->
        exists k, truthy idempotency_key = Some k /\ idempotency_keys st !! k = Some r)
  \/ (exists db' updated,
        res = inr updated
        /\ fresh_key st idempotency_key
        /\ appointment_id <> ""
        /\ is_valid_status new_status = true
        /\ update_first appointment_id new_status (appointments_db st) = Some (db', updated)
        /\ st' = snd (ledger_store idempotency_key updated (set_appointments_db db' st))).
Proof.
  intros H. destruct (fresh_key_dec st idempotency_key) as [Hfresh | (k & stored & Hk & Hs)].
  2:{ unfold update_appointment_status, bind, ledger_lookup, gets in H.
      rewrite Hk, Hs in H. injection H as <- <-. left. split; [reflexivity|].
      intros r [= <-]. eauto. }
  unfold update_appointment_status in H.
  rewrite (bind_inr _ _ _ _ _ (ledger_lookup_fresh _ _ Hfresh)) in H.
  destruct (String.eqb appointment_id "") eqn:Eid.
  { injection H as <- <-. left. split; [reflexivity|]. intros r Hr. discriminate. }
  destruct (is_valid_status new_status) eqn:Es; simpl in H.
  2:{ injection H as <- <-. left. split; [reflexivity|]. intros r Hr. discriminate. }
  unfold bind at 1 in H. simpl in H.
  destruct (update_first appointment_id new_status (appointments_db st))
    as [[db' updated]|] eqn:Hu.
  2:{ injection H as <- <-. left. split; [reflexivity|]. intros r Hr. discriminate. }
  right. exists db', updated. apply String.eqb_neq in Eid.
  unfold bind, modify, ret in H. simpl in H.
  destruct (ledger_store idempotency_key updated (set_appointments_db db' st))
    as [[e|[]] st2] eqn:El.
  - pose proof (ledger_store_inr (set_appointments_db db' st) idempotency_key updated) as Hi.
    rewrite El in Hi. discriminate.
  - injection H as <- <-. auto 10.
Qed.

(** ** Round trips *)

Lemma find_app_new (db : list Appointment) (r : Appointment) :
  (forall a, a ∈ db -> a_id a <> a_id r) ->
  List.find (fun a => String.eqb (a_id a) (a_id r)) (db ++ [r]) = Some r.
Proof.
  induction db as [|x db IH]; intros H; simpl.
  - rewrite String.eqb_refl. reflexivity.
  - rewrite (proj2 (String.eqb_neq _ _) (H x ltac:(left))).
    apply IH. intros a Ha. apply H. right. exact Ha.
Qed.

(** X3. A record that [create_appointment] has just stored (the ledger did
    not answer the call) is what a lookup of its id returns, and the id
    starts with [apt_]. *)
Theorem create_then_lookup (st st' : Store) (payload : pyobj)
    (idempotency_key : option string) (r : Appointment) :
  fresh_key st idempotency_key ->
  create_appointment payload idempotency_key st = (inr r, st') ->
  get_appointment_by_id (a_id r) st' = (inr (Some r), st')
  /\ exists u, a_id r = "apt_" +:+ u.
Proof.
  intros Hfresh H. apply create_appointment_outcome in H
    as [(n & _ & Hreplay) | (r' & d & n & [= <-] & _ & _ & _ & _ & Hfree & [u Hu] & _ & ->)].
  - destruct (Hreplay r eq_refl) as (k & Hk & Hs).
    unfold fresh_key in Hfresh. rewrite Hk in Hfresh. congruence.
  - split; [|eauto]. unfold get_appointment_by_id.
    assert (Hne : String.eqb (a_id r) "" = false) by (rewrite Hu; reflexivity).
    rewrite Hne. unfold bind, gets, ret. rewrite ledger_store_db. simpl.
    rewrite find_app_new; [reflexivity|].
    intros a Ha Hid. apply id_taken_false_not_in in Hfree. apply Hfree.
    rewrite <- Hid. apply list_elem_of_fmap. eauto.
Qed.

Lemma create_then_lookup_witness :
  let st := initial_store demo_rand in
  let r := mkAppointment "apt_00000000" "A" "2024-02-01" "09:00" 30 "Dr. X"
             "Scheduled" "in-person" in
  let st' := snd (create_appointment (PyDict demo_payload) None st) in
  get_appointment_by_id (a_id r) st' = (inr (Some r), st')
  /\ exists u, a_id r = "apt_" +:+ u.
Proof.
  intros st r st'.
  apply (create_then_lookup st st' (PyDict demo_payload) None r).
  - exact I.
  - vm_compute. reflexivity.
Defined.

Lemma update_first_find (appointment_id new_status : string) (db db' : list Appointment)
    (updated : Appointment) :
  update_first appointment_id new_status db = Some (db', updated) ->
  exists old,
    List.find (fun a => String.eqb (a_id a) appointment_id) db = Some old
    /\ updated = set_status old new_status
    /\ List.find (fun a => String.eqb (a_id a) appointment_id) db' = Some updated.
Proof.
  revert db'. induction db as [|x db IH]; intros db' H; simpl in H; [discriminate|].
  simpl. destruct (String.eqb (a_id x) appointment_id) eqn:E.
  - injection H as <- <-. exists x. simpl. rewrite E. auto.
  - destruct (update_first appointment_id new_status db) as [[rest' u]|]; [|discriminate].
    injection H as <- <-. destruct (IH rest' eq_refl) as (old & Hf & Hu & Hf').
    exists old. simpl. rewrite E. auto.
Qed.

Lemma update_first_Some (appointment_id new_status : string) (db : list Appointment)
    (old : Appointment) :
  List.find (fun a => String.eqb (a_id a) appointment_id) db = Some old ->
  exists db', update_first appointment_id new_status db = Some (db', set_status old new_status).
Proof.
  induction db as [|x db IH]; simpl; [discriminate|].
  destruct (String.eqb (a_id x) appointment_id) eqn:E.
  - intros [= <-]. eauto.
  - intros H. destruct (IH H) as [db' ->]. eauto.
Qed.

(** X4. Lookup, update, lookup: when a lookup of a non-empty id returns a
    record, [update_appointment_status] with one of the four statuses (and no
    key, or a key not in the ledger) succeeds and returns that record with
    the new status and every other field as before, and a lookup afterwards
    returns the same updated record. *)
Theorem update_then_lookup (st : Store) (appointment_id new_status : string)
    (idempotency_key : option string) (old : Appointment) :
  fresh_key st idempotency_key ->
  is_valid_status new_status = true ->
  get_appointment_by_id appointment_id st = (inr (Some old), st) ->
  exists st',
    update_appointment_status appointment_id new_status idempotency_key st
    = (inr (set_status old new_status), st')
    /\ get_appointment_by_id appointment_id st' = (inr (Some (set_status old new_status)), st').
Proof.
  intros Hfresh Hs Hget. unfold get_appointment_by_id in Hget.
  destruct (String.eqb appointment_id "") eqn:Eid; [discriminate|].
  unfold bind, gets, ret in Hget. injection Hget as Hfind.
  destruct (update_first_Some appointment_id new_status _ _ Hfind) as [db' Hu].
  destruct (update_first_find _ _ _ _ _ Hu) as (old' & _ & _ & Hfind').
  exists (snd (ledger_store idempotency_key (set_status old new_status)
                 (set_appointments_db db' st))).
  split.
  - unfold update_appointment_status.
    rewrite (bind_inr _ _ _ _ _ (ledger_lookup_fresh _ _ Hfresh)).
    rewrite Eid, Hs. simpl. unfold bind at 1. simpl. rewrite Hu.
    unfold bind, modify, ret. simpl.
    destruct (ledger_store idempotency_key (set_status old new_status)
                (set_appointments_db db' st)) as [[e|[]] st2] eqn:El; [|reflexivity].
    pose proof (ledger_store_inr (set_appointments_db db' st) idempotency_key
                  (set_status old new_status)) as Hi.
    rewrite El in Hi. discriminate.
  - unfold get_appointment_by_id. rewrite Eid. unfold bind, gets, ret.
    rewrite ledger_store_db. simpl. rewrite Hfind'. reflexivity.
Qed.

Lemma update_then_lookup_witness :
  let st := initial_store demo_rand in
  let old := mkAppointment "apt_003" "Michael Brown" "2024-01-16" "14:00" 60 "Dr. Johnson"
               "Upcoming" "in-person" in
  exists st',
    update_appointment_status "apt_003" "Confirmed" (Some "k") st
    = (inr (set_status old "Confirmed"), st')
    /\ get_appointment_by_id "apt_003" st' = (inr (Some (set_status old "Confirmed")), st').
Proof.
  intros st old.
  apply (update_then_lookup st "apt_003" "Confirmed" (Some "k") old).
  - reflexivity.
  - reflexivity.
  - reflexivity.
Defined.

(** ** The ledger *)

Lemma ledger_store_snd (st : Store) (key : option string) (r : Appointment) :
  snd (ledger_store key r st)
  = match truthy key with
    | Some k => set_idempotency_keys (<[k := r]> (idempotency_keys st)) st
    | None => st
    end.
Proof. unfold ledger_store. destruct (truthy key); reflexivity. Qed.

Lemma ledger_grows (st : Store) (key : option string) (r : Appointment) :
  fresh_key st key ->
  idempotency_keys st ⊆ idempotency_keys (snd (ledger_store key r st))
  /\ (size (idempotency_keys (snd (ledger_store key r st)))
      <= S (size (idempotency_keys st)))%nat.
Proof.
  unfold fresh_key. rewrite ledger_store_snd. destruct (truthy key) as [k|]; intros H; simpl.
  - split; [apply insert_subseteq; exact H|].
    rewrite map_size_insert_None by exact H. lia.
  - split; [reflexivity | lia].
Qed.

(** X5. Ledger entries are permanent until the ledger is cleared: creating,
    updating and deleting never remove or overwrite an entry and add at most
    one; [clear_idempotency_keys] leaves none, so that the count reads 0. *)
Theorem ledger_entries_kept (req : request) (st : Store) :
  match req with
  | ClearKeys =>
      idempotency_keys (serve req st) = ∅
      /\ fst (get_idempotency_key_count (serve req st)) = inr 0%nat
  | _ =>
      idempotency_keys st ⊆ idempotency_keys (serve req st)
      /\ (size (idempotency_keys (serve req st)) <= S (size (idempotency_keys st)))%nat
  end.
Proof.
  destruct req as [payload key | appointment_id new_status key | appointment_id |]; simpl.
  - destruct (create_appointment payload key st) as [res st'] eqn:H. simpl.
    apply create_appointment_outcome in H
      as [(n & -> & _) | (r & d & n & _ & _ & Hfresh & _ & _ & _ & _ & _ & ->)].
    + simpl. split; [reflexivity | lia].
    + apply (ledger_grows (set_appointments_db (appointments_db st ++ [r]) (after_draws st n))).
      exact Hfresh.
  - destruct (update_appointment_status appointment_id new_status key st) as [res st'] eqn:H.
    simpl. apply update_appointment_status_outcome in H
      as [(-> & _) | (db' & updated & _ & Hfresh & _ & _ & _ & ->)].
    + split; [reflexivity | lia].
    + apply (ledger_grows (set_appointments_db db' st)). exact Hfresh.
  - destruct (delete_appointment appointment_id st) as [res st'] eqn:H. simpl.
    apply delete_appointment_db in H as (-> & _). split; [reflexivity | lia].
  - split; [reflexivity|]. unfold get_idempotency_key_count, gets. simpl.
    rewrite map_size_empty. reflexivity.
Qed.

(** X6. Deleting does not reach the ledger: when a record was created under
    a non-empty key and is then deleted, a later [create_appointment] with
    that key, whatever its payload, still returns the deleted record and
    stores nothing, although a lookup of the record's id finds nothing. *)
Theorem replay_after_delete (st st1 : Store) (p1 p2 : pyobj) (k : string) (r : Appointment) :
  k <> "" ->
  idempotency_keys st !! k = None ->
  NoDup (map a_id (appointments_db st)) ->
  create_appointment p1 (Some k) st = (inr r, st1) ->
  let st2 := snd (delete_appointment (a_id r) st1) in
  fst (delete_appointment (a_id r) st1) = inr true
  /\ create_appointment p2 (Some k) st2 = (inr r, st2)
  /\ get_appointment_by_id (a_id r) st2 = (inr None, st2).
Proof.
  intros Hk Hnone Hnd H st2. pose proof (truthy_Some k Hk) as Ht.
  assert (Hfresh : fresh_key st (Some k)) by (unfold fresh_key; rewrite Ht; exact Hnone).
  pose proof H as Hout. apply create_appointment_outcome in Hout
    as [(n & _ & Hreplay) | (r' & d & n & [= <-] & _ & _ & _ & _ & Hfree & [u Hu] & _ & Hst1)].
  { destruct (Hreplay r eq_refl) as (k' & Hk' & Hs). rewrite Ht in Hk'.
    injection Hk' as <-. congruence. }
  assert (Hne : a_id r <> "") by (rewrite Hu; discriminate).
  assert (Hdb1 : appointments_db st1 = appointments_db st ++ [r]).
  { rewrite Hst1, ledger_store_db. reflexivity. }
  assert (Hnd1 : NoDup (map a_id (appointments_db st1))).
  { rewrite Hdb1, map_app. apply NoDup_app. split; [exact Hnd|]. split.
    - intros x Hx Hin. apply list_elem_of_In in Hin as [Heq|[]]. subst x.
      apply id_taken_false_not_in in Hfree. contradiction.
    - simpl. apply NoDup_singleton. }
  assert (Hkeys1 : idempotency_keys st1 !! k = Some r).
  { rewrite Hst1. apply ledger_store_keys. exact Ht. }
  pose proof (delete_appointment_gone st1 (a_id r) Hnd1 Hne) as Hgone. fold st2 in Hgone.
  destruct (delete_appointment (a_id r) st1) as [res st2'] eqn:Hdel.
  pose proof Hdel as Hdb. apply delete_appointment_db in Hdb as (Hkeys & _ & _).
  simpl in st2. subst st2.
  split; [|split].
  - simpl. destruct (delete_appointment_cases st1 (a_id r) Hne)
      as [[Habs _] | (before & a & after & _ & _ & _ & Hd)].
    + exfalso. apply (Habs r); [|reflexivity]. rewrite Hdb1. apply elem_of_app. right. left.
    + rewrite Hdel in Hd. injection Hd as -> _. reflexivity.
  - apply (create_appointment_hit _ _ _ k r Ht). rewrite Hkeys. exact Hkeys1.
  - unfold get_appointment_by_id. rewrite (eqb_empty_false _ Hne).
    unfold bind, gets, ret. rewrite (proj2 (find_id_None _ _) Hgone). reflexivity.
Qed.

Lemma replay_after_delete_witness :
  let st := initial_store demo_rand in
  let r := mkAppointment "apt_00000000" "A" "2024-02-01" "09:00" 30 "Dr. X"
             "Scheduled" "in-person" in
  let st1 := snd (create_appointment (PyDict demo_payload) (Some "k") st) in
  let st2 := snd (delete_appointment (a_id r) st1) in
  fst (delete_appointment (a_id r) st1) = inr true
  /\ create_appointment (PyDict ∅) (Some "k") st2 = (inr r, st2)
  /\ get_appointment_by_id (a_id r) st2 = (inr None, st2).
Proof.
  intros st r st1.
  apply (replay_after_delete st st1 (PyDict demo_payload) (PyDict ∅) "k" r).
  - discriminate.
  - reflexivity.
  - exact sample_appointments_ids.
  - vm_compute. reflexivity.
Defined.

(** ** What every reachable store satisfies *)

Lemma conflicts_with_sym (a b : Appointment) : conflicts_with a b = conflicts_with b a.
Proof.
  unfold conflicts_with.
  rewrite (String.eqb_sym (a_date b)), (String.eqb_sym (a_doctorName b)),
    (String.eqb_sym (a_id b)).
  destruct (slot a) as [[sa ea]|], (slot b) as [[sb eb]|]; try reflexivity.
  rewrite !Z.gtb_ltb. rewrite (andb_comm (sb <? ea)). reflexivity.
Qed.

Lemma conflicts_with_double_booked (a b : Appointment) :
  conflicts_with a b = false -> a_id a <> a_id b -> ~ double_booked a b.
Proof.
  intros Hc Hid (Hd & Hn & sa & ea & sb & eb & Hsa & Hsb & H1 & H2).
  assert (conflicts_with a b = true); [|congruence].
  apply conflicts_with_iff. split; [congruence|]. split; [congruence|].
  split; [congruence|]. exists sa, ea, sb, eb. repeat split; auto; lia.
Qed.

Lemma is_valid_mode_ok (d : gmap string pyval) (s : string) :
  mode_ok d -> d !! "mode" = Some (VStr s) -> is_valid_mode s = true.
Proof. intros [H|H] Hs; rewrite H in Hs; injection Hs as <-; reflexivity. Qed.

Lemma new_appointment_of_record_valid (d : gmap string pyval) (new_id : string)
    (r : Appointment) :
  fst (validate_appointment_data_detailed (PyDict d)) = true ->
  new_appointment_of new_id d = Some r ->
  record_valid r.
Proof.
  intros Hv Hr. apply validate_passes_iff in Hv.
  destruct Hv as ((pn & Hpn & Hpnb) & (dt & ymd & Hdt & Hymd) & (tm & hm & Htm & Hhm)
                  & (dv & dn & Hdv & Hdn & Hrange) & (dr & Hdr & Hdrb) & Hmode).
  assert (exists md, d !! "mode" = Some (VStr md)) as [md Hmd]
    by (destruct Hmode; eauto).
  pose proof (is_valid_mode_ok d md Hmode Hmd) as Hmv.
  unfold new_appointment_of in Hr.
  rewrite Hpn, Hdt, Htm, Hdv, Hdr, Hmd in Hr. simpl in Hr. rewrite Hdn in Hr. simpl in Hr.
  injection Hr as <-. unfold record_valid. simpl.
  rewrite Hymd, Hhm. repeat split; eauto; lia.
Qed.

Lemma update_first_cases (appointment_id new_status : string) (db db' : list Appointment)
    (updated : Appointment) :
  update_first appointment_id new_status db = Some (db', updated) ->
  Forall2 (fun old new => new = old \/ new = set_status old new_status) db db'.
Proof.
  revert db'. induction db as [|x db IH]; intros db' H; simpl in H; [discriminate|].
  destruct (String.eqb (a_id x) appointment_id).
  - injection H as <- _. constructor; [auto|].
    apply Forall2_same_length_lookup_2; [reflexivity|].
    intros i a b Ha Hb. rewrite Ha in Hb. injection Hb as <-. auto.
  - destruct (update_first appointment_id new_status db) as [[rest' u]|]; [|discriminate].
    injection H as <- <-. constructor; [auto|]. apply IH. reflexivity.
Qed.

Lemma conflicts_with_set_status (a b : Appointment) (s1 s2 : string) :
  conflicts_with (set_status a s1) b = conflicts_with a b
  /\ conflicts_with a (set_status b s2) = conflicts_with a b.
Proof. split; reflexivity. Qed.

Lemma store_ok_samples : store_ok sample_appointments.
Proof.
  split; [exact sample_appointments_ids|]. split.
  - unfold sample_appointments.
    repeat (constructor;
            [unfold record_valid; simpl;
             repeat split; try reflexivity; try lia; eexists; reflexivity|]).
    constructor.
  - assert (H : forallb (fun a => forallb (fun b => negb (conflicts_with a b))
                                          sample_appointments) sample_appointments = true)
      by (vm_compute; reflexivity).
    intros a b Ha Hb. rewrite forallb_forall in H.
    apply list_elem_of_In in Ha, Hb. specialize (H a Ha). rewrite forallb_forall in H.
    specialize (H b Hb). apply negb_true_iff in H. exact H.
Qed.

Lemma store_ok_wf (db : list Appointment) : store_ok db -> store_wf db.
Proof.
  intros (_ & Hv & _). unfold store_wf. eapply Forall_impl; [exact Hv|].
  intros a (_ & _ & Ht & _). exact Ht.
Qed.

Lemma store_ok_append (db : list Appointment) (r : Appointment) :
  store_ok db -> record_valid r ->
  a_id r ∉ map a_id db ->
  detect_scheduling_conflicts db r = [] ->
  store_ok (db ++ [r]).
Proof.
  intros Hok Hr Hid Hd. pose proof (store_ok_wf db Hok) as Hwf.
  destruct Hok as (Hnd & Hv & Hc).
  assert (Hnone : forall a, a ∈ db -> conflicts_with r a = false).
  { rewrite detect_scheduling_conflicts_filter in Hd
      by (auto; destruct Hr as (_ & _ & Ht & _); exact Ht).
    intros a Ha. destruct (conflicts_with r a) eqn:E; [|reflexivity].
    assert (Hin : In a (List.filter (conflicts_with r) db)).
    { apply filter_In. split; [apply list_elem_of_In; exact Ha | exact E]. }
    rewrite Hd in Hin. destruct Hin. }
  assert (Hself : conflicts_with r r = false).
  { unfold conflicts_with. rewrite (String.eqb_refl (a_id r)), andb_false_r. reflexivity. }
  split; [|split].
  - rewrite map_app. apply NoDup_app. split; [exact Hnd|]. split.
    + intros x Hx Hin. apply list_elem_of_In in Hin as [Heq|[]]. subst x. contradiction.
    + simpl. apply NoDup_singleton.
  - apply Forall_app. split; [exact Hv|]. constructor; [exact Hr | constructor].
  - intros a b Ha Hb. apply elem_of_app in Ha as [Ha|Ha], Hb as [Hb|Hb];
      rewrite ?list_elem_of_singleton in *; subst; auto.
    rewrite conflicts_with_sym. auto.
Qed.

Lemma store_ok_update (db db' : list Appointment) (new_status : string) :
  store_ok db -> is_valid_status new_status = true ->
  Forall2 (fun old new => new = old \/ new = set_status old new_status) db db' ->
  store_ok db'.
Proof.
  intros (Hnd & Hv & Hc) Hs Hf.
  assert (Hids : map a_id db' = map a_id db).
  { clear - Hf. induction Hf as [|old new l l' Hrel _ IH]; simpl; [reflexivity|].
    rewrite IH. destruct Hrel as [-> | ->]; reflexivity. }
  assert (Hback : forall a', a' ∈ db' ->
            exists a, a ∈ db /\ (a' = a \/ a' = set_status a new_status)).
  { intros a' Ha'. apply list_elem_of_lookup in Ha' as [i Hi].
    destruct (Forall2_lookup_r _ _ _ _ _ Hf Hi) as (a & Ha & Hrel).
    exists a. split; [apply list_elem_of_lookup; eauto | exact Hrel]. }
  split; [|split].
  - rewrite Hids. exact Hnd.
  - apply Forall_forall. intros a' Ha'. destruct (Hback a' Ha') as (a & Ha & [-> | ->]).
    + apply (proj1 (Forall_forall _ _) Hv a Ha).
    + pose proof (proj1 (Forall_forall _ _) Hv a Ha) as (H1 & H2 & H3 & H4 & H5 & _ & H7).
      unfold record_valid. simpl. auto 10.
  - intros a' b' Ha' Hb'.
    destruct (Hback a' Ha') as (a & Ha & [-> | ->]), (Hback b' Hb') as (b & Hb & [-> | ->]);
      apply (Hc a b Ha Hb).
Qed.

Lemma store_ok_remove (before after : list Appointment) (a : Appointment) :
  store_ok (before ++ a :: after) -> store_ok (before ++ after).
Proof.
  intros (Hnd & Hv & Hc).
  assert (Hin : forall x, x ∈ before ++ after -> x ∈ before ++ a :: after).
  { intros x Hx. apply elem_of_app in Hx as [Hx|Hx]; apply elem_of_app; auto.
    right. right. exact Hx. }
  split; [|split].
  - rewrite map_app in *. simpl in Hnd. apply NoDup_app in Hnd as (H1 & H2 & H3).
    apply NoDup_cons in H3 as [_ H3]. apply NoDup_app. split; [exact H1|]. split; [|exact H3].
    intros x Hx Hx'. apply (H2 x Hx). right. exact Hx'.
  - apply Forall_app in Hv as [H1 H2]. apply Forall_cons in H2 as [_ H2].
    apply Forall_app. auto.
  - intros x y Hx Hy. apply Hc; auto.
Qed.

Lemma store_ok_serve (req : request) (st : Store) :
  store_ok (appointments_db st) -> store_ok (appointments_db (serve req st)).
Proof.
  intros Hok.
  destruct req as [payload key | appointment_id new_status key | appointment_id |]; simpl.
  - destruct (create_appointment payload key st) as [res st'] eqn:H. simpl.
    apply create_appointment_outcome in H
      as [(n & -> & _) | (r & d & n & _ & _ & _ & Hv & Hr & Hfree & _ & Hd & ->)].
    + exact Hok.
    + rewrite ledger_store_db. simpl. apply store_ok_append; auto.
      * apply (new_appointment_of_record_valid d (a_id r) r Hv Hr).
      * apply id_taken_false_not_in. exact Hfree.
  - destruct (update_appointment_status appointment_id new_status key st) as [res st'] eqn:H.
    simpl. apply update_appointment_status_outcome in H
      as [(-> & _) | (db' & updated & _ & _ & _ & Hs & Hu & ->)].
    + exact Hok.
    + rewrite ledger_store_db. simpl.
      apply (store_ok_update _ _ new_status Hok Hs). apply (update_first_cases _ _ _ _ _ Hu).
  - destruct (delete_appointment appointment_id st) as [res st'] eqn:H. simpl.
    apply delete_appointment_db in H
      as (_ & _ & [-> | (before & a & after & Hdb & -> & _)]).
    + exact Hok.
    + rewrite Hdb in Hok. apply (store_ok_remove _ _ _ Hok).
  - exact Hok.
Qed.

Lemma store_ok_run (requests : list request) (st : Store) :
  store_ok (appointments_db st) -> store_ok (appointments_db (run requests st)).
Proof.
  revert st. induction requests as [|req requests IH]; intros st Hok; [exact Hok|].
  simpl. apply IH. apply store_ok_serve. exact Hok.
Qed.

(** X7. Ids stay unique. Whatever the generator draws and whatever calls
    are made (create, status update, delete, ledger reset, succeeding or
    not), no two records of the store share an id: records with the same id
    are one record. *)
Theorem reachable_ids_unique (rand : nat -> string) (requests : list request) :
  let db := appointments_db (run requests (initial_store rand)) in
  NoDup (map a_id db)
  /\ forall a b, a ∈ db -> b ∈ db -> a_id a = a_id b -> a = b.
Proof.
  intros db. destruct (store_ok_run requests (initial_store rand) store_ok_samples)
    as (Hnd & _ & _).
  split; [exact Hnd|]. intros a b Ha Hb. apply (same_id_same_record _ a b Hnd Ha Hb).
Qed.

(** X8. No double booking, as far as the texts go. In every reachable store
    two different records never have the same date text, the same doctor
    name and intersecting slots. The date is compared as it is written, not
    as a day: a store is reachable in which two records book the same doctor
    on the same calendar day at the same time, the day being written once
    as 2024-02-01 and once as 2024-2-1. *)
Theorem reachable_no_double_booking :
  (forall (rand : nat -> string) (requests : list request),
     let db := appointments_db (run requests (initial_store rand)) in
     forall a b, a ∈ db -> b ∈ db -> a <> b -> ~ double_booked a b)
  /\ (exists (rand : nat -> string) (requests : list request) (a b : Appointment),
        let db := appointments_db (run requests (initial_store rand)) in
        a ∈ db /\ b ∈ db /\ same_day_double_booked a b).
Proof.
  split.
  - intros rand requests db a b Ha Hb Hab.
    destruct (store_ok_run requests (initial_store rand) store_ok_samples) as (Hnd & _ & Hc).
    apply conflicts_with_double_booked; [apply Hc; assumption|].
    intros Hid. apply Hab. apply (same_id_same_record _ a b Hnd Ha Hb Hid).
  - exists demo_rand,
      [Create (PyDict demo_payload) None;
       Create (PyDict (<["date" := VStr "2024-2-1"]> demo_payload)) None],
      (mkAppointment "apt_00000000" "A" "2024-02-01" "09:00" 30 "Dr. X"
         "Scheduled" "in-person"),
      (mkAppointment "apt_00000001" "A" "2024-2-1" "09:00" 30 "Dr. X"
         "Scheduled" "in-person").
    split; [apply list_elem_of_In; vm_compute; tauto|].
    split; [apply list_elem_of_In; vm_compute; tauto|].
    split; [discriminate|]. split; [exists (2024, 2, 1); split; reflexivity|].
    split; [reflexivity|]. exists 540, 570, 540, 570.
    split; [reflexivity|]. split; [reflexivity|]. lia.
Qed.

(** X9. Stored records stay valid. In every reachable store each record has
    a non-blank patient and doctor name, a date and a time of day that parse,
    a duration from 1 to 480 minutes, one of the four statuses and one of
    the two modes. *)
Theorem reachable_records_valid (rand : nat -> string) (requests : list request) :
  Forall record_valid (appointments_db (run requests (initial_store rand))).
Proof.
  destruct (store_ok_run requests (initial_store rand) store_ok_samples) as (_ & Hv & _).
  exact Hv.
Qed.

(** ** Listing with filters *)

Lemma filter_filter_andb {A} (p q : A -> bool) (l : list A) :
  List.filter q (List.filter p l) = List.filter (fun x => p x && q x) l.
Proof.
  induction l as [|x l IH]; [reflexivity|]. simpl.
  destruct (p x); simpl; [destruct (q x)|]; rewrite IH; reflexivity.
Qed.

Lemma filter_true {A} (l : list A) : List.filter (fun _ => true) l = l.
Proof. induction l as [|x l IH]; [reflexivity|]. simpl. rewrite IH. reflexivity. Qed.

Lemma filter_ext_eq {A} (p q : A -> bool) (l : list A) :
  (forall x, p x = q x) -> List.filter p l = List.filter q l.
Proof. intros H. apply filter_ext. exact H. Qed.

Lemma invalid_keys_empty (filters : gmap string string) :
  dom filters ∖ ({["date"; "status"; "doctorName"]} : gset string) = ∅
  <-> (forall k, is_Some (filters !! k) -> k = "date" \/ k = "status" \/ k = "doctorName").
Proof.
  split.
  - intros H k Hk. apply elem_of_dom in Hk.
    assert (Hnot : k ∉ dom filters ∖ ({["date"; "status"; "doctorName"]} : gset string))
      by (rewrite H; apply not_elem_of_empty).
    rewrite elem_of_difference in Hnot.
    destruct (decide (k ∈ ({["date"; "status"; "doctorName"]} : gset string))) as [Hin|Hout].
    + rewrite !elem_of_union, !elem_of_singleton in Hin. tauto.
    + tauto.
  - intros H. apply set_eq. intros k. split; [|intros Hk; apply elem_of_empty in Hk; contradiction].
    intros Hk. apply elem_of_difference in Hk as [Hd Hn]. apply elem_of_dom in Hd.
    exfalso. apply Hn. rewrite !elem_of_union, !elem_of_singleton.
    destruct (H k Hd) as [->|[->| ->]]; auto.
Qed.

(** The listing proper, once the filters are accepted. *)
Lemma get_appointments_accepted (repr_set : gset string -> string)
    (filters : gmap string string) (st : Store) :
  (forall k, is_Some (filters !! k) -> k = "date" \/ k = "status" \/ k = "doctorName") ->
  (forall s, truthy (filters !! "status") = Some s -> is_valid_status s = true) ->
  (forall d, truthy (filters !! "date") = Some d -> is_Some (strptime_Ymd d)) ->
  get_appointments repr_set (Some filters) st
  = (inr (List.filter (matches_filters filters) (appointments_db st)), st).
Proof.
  intros Hkeys Hstatus Hdate. unfold get_appointments.
  change (default ∅ (Some filters)) with filters.
  rewrite (bool_decide_eq_true_2 _ (proj2 (invalid_keys_empty filters) Hkeys)).
  change (negb true) with false. cbv iota. unfold matches_filters.
  assert (Hdone : forall (l : list Appointment) (p : Appointment -> bool),
             (forall x, p x = matches_filters filters x) ->
             (inr (List.filter p l), st)
             = (@inr exn _ (List.filter (matches_filters filters) l), st)).
  { intros l p Hp. do 2 f_equal. apply filter_ext_eq. exact Hp. }
  assert (Hdone0 : forall (l : list Appointment),
             (forall x, true = matches_filters filters x) ->
             (inr l, st) = (@inr exn _ (List.filter (matches_filters filters) l), st)).
  { intros l Hp. do 2 f_equal. rewrite <- (filter_true l) at 1.
    apply filter_ext_eq. exact Hp. }
  unfold matches_filters in Hdone, Hdone0.
  destruct (truthy (filters !! "status")) as [s|] eqn:Es;
    [rewrite (Hstatus s eq_refl)|]; unfold bind, ret, gets;
    (destruct (truthy (filters !! "date")) as [d|] eqn:Ed;
     [destruct (Hdate d eq_refl) as [ymd ->]|]);
    destruct (truthy (filters !! "doctorName")) as [n|];
    rewrite ?filter_filter_andb;
    first [apply Hdone | apply Hdone0]; intros x;
    repeat match goal with
           | |- context [String.eqb ?a ?b] => destruct (String.eqb a b)
           end; reflexivity.
Qed.

(** X10. With accepted filters (only the keys date, status and doctorName;
    a status that is one of the four or empty; a date that parses or is
    empty) [get_appointments] returns, in store order, exactly the stored
    records that equal every given non-empty filter on its field, and leaves
    the state alone. An empty filter value filters nothing; no filters at
    all return the whole store. *)
Theorem get_appointments_spec (repr_set : gset string -> string)
    (filters : gmap string string) (st : Store) :
  (forall k, is_Some (filters !! k) -> k = "date" \/ k = "status" \/ k = "doctorName") ->
  (forall s, truthy (filters !! "status") = Some s -> is_valid_status s = true) ->
  (forall d, truthy (filters !! "date") = Some d -> is_Some (strptime_Ymd d)) ->
  get_appointments repr_set (Some filters) st
  = (inr (List.filter (matches_filters filters) (appointments_db st)), st)
  /\ (forall apt,
        apt ∈ List.filter (matches_filters filters) (appointments_db st) <->
        apt ∈ appointments_db st
        /\ (forall d, filters !! "date" = Some d -> d <> "" -> a_date apt = d)
        /\ (forall s, filters !! "status" = Some s -> s <> "" -> a_status apt = s)
        /\ (forall n, filters !! "doctorName" = Some n -> n <> "" -> a_doctorName apt = n))
  /\ get_appointments repr_set None st = (inr (appointments_db st), st)
  /\ get_appointments repr_set (Some ∅) st = (inr (appointments_db st), st).
Proof.
  intros Hkeys Hstatus Hdate.
  split; [apply get_appointments_accepted; assumption|]. split; [|split; reflexivity].
  intros apt. rewrite list_elem_of_In, filter_In, <- list_elem_of_In.
  assert (Hone : forall (key : string) (field : string),
             match truthy (filters !! key) with
             | Some v => String.eqb field v
             | None => true
             end = true
             <-> (forall v, filters !! key = Some v -> v <> "" -> field = v)).
  { intros key field. unfold truthy. destruct (filters !! key) as [v|].
    - destruct (String.eqb v "") eqn:E.
      + apply String.eqb_eq in E. split; [|reflexivity]. intros _ v' [= <-] Hne. contradiction.
      + apply String.eqb_neq in E. rewrite String.eqb_eq. split.
        * intros -> v' [= <-] _. reflexivity.
        * intros H. apply H; auto.
    - split; [|reflexivity]. intros _ v' Hv'. discriminate. }
  unfold matches_filters. rewrite !andb_true_iff, !Hone. tauto.
Qed.

Lemma get_appointments_spec_witness :
  let filters : gmap string string :=
    <["doctorName" := "Dr. Smith"]> (<["status" := "Confirmed"]> (<["date" := ""]> ∅)) in
  let st := initial_store demo_rand in
  get_appointments demo_repr_set (Some filters) st
  = (inr (List.filter (matches_filters filters) (appointments_db st)), st)
  /\ (forall apt,
        apt ∈ List.filter (matches_filters filters) (appointments_db st) <->
        apt ∈ appointments_db st
        /\ (forall d, filters !! "date" = Some d -> d <> "" -> a_date apt = d)
        /\ (forall s, filters !! "status" = Some s -> s <> "" -> a_status apt = s)
        /\ (forall n, filters !! "doctorName" = Some n -> n <> "" -> a_doctorName apt = n))
  /\ get_appointments demo_repr_set None st = (inr (appointments_db st), st)
  /\ get_appointments demo_repr_set (Some ∅) st = (inr (appointments_db st), st).
Proof.
  intros filters st. apply (get_appointments_spec demo_repr_set filters st).
  - apply invalid_keys_empty.
    apply (bool_decide_unpack (dom filters ∖ {["date"; "status"; "doctorName"]} = ∅)).
    vm_compute. exact I.
  - intros s Hs. vm_compute in Hs. injection Hs as <-. reflexivity.
  - intros d Hd. vm_compute in Hd. discriminate.
Defined.

(** X11. What [get_appointments] rejects, in this order, each time with a
    [ValueError] and the state untouched: a key other than date, status and
    doctorName; then a non-empty status outside the four; then a non-empty
    date that does not parse. It raises in no other case, and it never
    changes the state. *)
Theorem get_appointments_errors (repr_set : gset string -> string)
    (filters : gmap string string) (st : Store) :
  let valid_keys : gset string := {["date"; "status"; "doctorName"]} in
  let bad_keys := dom filters ∖ valid_keys in
  snd (get_appointments repr_set (Some filters) st) = st
  /\ (bad_keys <> ∅ ->
      fst (get_appointments repr_set (Some filters) st)
      = inl (ValueError ("Invalid filter keys: " +:+ repr_set bad_keys
                         +:+ ". Valid keys are: " +:+ repr_set valid_keys)))
  /\ (forall s, bad_keys = ∅ -> truthy (filters !! "status") = Some s ->
                is_valid_status s = false ->
      fst (get_appointments repr_set (Some filters) st)
      = inl (ValueError ("Invalid status: " +:+ s)))
  /\ (forall d, bad_keys = ∅ ->
                (forall s, truthy (filters !! "status") = Some s -> is_valid_status s = true) ->
                truthy (filters !! "date") = Some d -> strptime_Ymd d = None ->
      fst (get_appointments repr_set (Some filters) st)
      = inl (ValueError ("Invalid date format: " +:+ d +:+ ". Expected YYYY-MM-DD")))
  /\ (forall e, fst (get_appointments repr_set (Some filters) st) = inl e ->
      bad_keys <> ∅
      \/ (exists s, truthy (filters !! "status") = Some s /\ is_valid_status s = false)
      \/ (exists d, truthy (filters !! "date") = Some d /\ strptime_Ymd d = None)).
Proof.
  intros valid_keys bad_keys. unfold get_appointments.
  change (default ∅ (Some filters)) with filters.
  fold valid_keys. fold bad_keys.
  destruct (decide (bad_keys = ∅)) as [Hk|Hk].
  - rewrite (bool_decide_eq_true_2 _ Hk). change (negb true) with false. cbv iota.
    destruct (truthy (filters !! "status")) as [s|] eqn:Es.
    + destruct (is_valid_status s) eqn:Ev.
      * unfold bind, ret, gets.
        destruct (truthy (filters !! "date")) as [d|] eqn:Ed.
        -- destruct (strptime_Ymd d) as [ymd|] eqn:Ep; simpl.
           ++ split; [reflexivity|]. split; [contradiction|]. split; [intros ? _ [= <-]; congruence|].
              split; [intros ? _ _ [= <-]; congruence|]. intros e He. discriminate.
           ++ split; [reflexivity|]. split; [contradiction|]. split; [intros ? _ [= <-]; congruence|].
              split; [intros ? _ _ [= <-] _; reflexivity|]. intros e _. right. right. eauto.
        -- simpl. split; [reflexivity|]. split; [contradiction|].
           split; [intros ? _ [= <-]; congruence|].
           split; [intros ? _ _ ?; discriminate|]. intros e He. discriminate.
      * unfold bind, raise. simpl. split; [reflexivity|]. split; [contradiction|].
        split; [intros ? _ [= <-] _; reflexivity|].
        split; [intros d _ Hs; specialize (Hs s eq_refl); congruence|].
        intros e _. right. left. eauto.
    + unfold bind, ret, gets.
      destruct (truthy (filters !! "date")) as [d|] eqn:Ed.
      * destruct (strptime_Ymd d) as [ymd|] eqn:Ep; simpl.
        -- split; [reflexivity|]. split; [contradiction|]. split; [intros ? _ ?; discriminate|].
           split; [intros ? _ _ [= <-]; congruence|]. intros e He. discriminate.
        -- split; [reflexivity|]. split; [contradiction|]. split; [intros ? _ ?; discriminate|].
           split; [intros ? _ _ [= <-] _; reflexivity|]. intros e _. right. right. eauto.
      * simpl. split; [reflexivity|]. split; [contradiction|].
        split; [intros ? _ ?; discriminate|].
        split; [intros ? _ _ ?; discriminate|]. intros e He. discriminate.
  - rewrite (bool_decide_eq_false_2 _ Hk). change (negb false) with true. cbv iota.
    unfold raise. simpl.
    split; [reflexivity|]. split; [reflexivity|].
    split; [intros ? ?; contradiction|]. split; [intros ? ?; contradiction|].
    intros e _. left. exact Hk.
Qed.

(** ** The two validators *)

Lemma validate_appointment_data_iff (d : gmap string pyval) :
  validate_appointment_data d = true
  <-> patient_name_ok d /\ date_ok d /\ time_ok d
      /\ (exists v n, d !! "duration" = Some v /\ as_int v = Some n /\ 0 < n)
      /\ doctor_name_ok d /\ mode_ok d.
Proof.
  unfold validate_appointment_data, patient_name_ok, date_ok, time_ok, doctor_name_ok, mode_ok.
  split.
  - intros H.
    destruct (d !! "patientName") as [[| | |pn|]|]; simpl in H; try discriminate.
    destruct (blank pn) eqn:Epn; [discriminate|].
    destruct (d !! "date") as [[| | |dt|]|]; simpl in H; try discriminate.
    destruct (strptime_Ymd dt) as [ymd|] eqn:Edt; [|discriminate].
    destruct (d !! "time") as [[| | |tm|]|]; simpl in H; try discriminate.
    destruct (strptime_HM tm) as [hm|] eqn:Etm; [|discriminate].
    destruct (d !! "duration") as [dv|]; simpl in H; [|discriminate].
    destruct (as_int dv) as [n|] eqn:En; [|discriminate].
    destruct (n <=? 0) eqn:Enz; [discriminate|]. apply Z.leb_gt in Enz.
    destruct (d !! "doctorName") as [[| | |dr|]|]; simpl in H; try discriminate.
    destruct (blank dr) eqn:Edr; [discriminate|].
    destruct (d !! "mode") as [[| | |md|]|]; simpl in H; try discriminate.
    apply is_valid_mode_iff in H.
    split; [eauto|]. split; [eauto|]. split; [eauto|]. split; [eauto 10|]. split; [eauto|].
    destruct H as [-> | ->]; auto.
  - intros ((pn & -> & Hpn) & (dt & ymd & -> & Hdt) & (tm & hm & -> & Htm)
            & (dv & n & -> & Hn & Hpos) & (dr & -> & Hdr) & Hmode).
    simpl. rewrite Hpn, Hdt, Htm, Hn, Hdr.
    destruct (n <=? 0) eqn:Enz; [apply Z.leb_le in Enz; lia|].
    destruct Hmode as [-> | ->]; reflexivity.
Qed.

(** X12. The two validators agree on every dictionary except for the upper
    bound: the detailed validator accepts exactly when the short one does
    and the duration is at most 480. A duration above 480 is the only thing
    the short validator lets through and the detailed one rejects. *)
Theorem validators_agree (d : gmap string pyval) :
  fst (validate_appointment_data_detailed (PyDict d)) = true
  <-> validate_appointment_data d = true
      /\ (forall v n, d !! "duration" = Some v -> as_int v = Some n -> n <= 480).
Proof.
  rewrite validate_passes_iff, validate_appointment_data_iff. unfold duration_ok. split.
  - intros (H1 & H2 & H3 & (v & n & Hv & Hn & Hr) & H5 & H6). split.
    + repeat split; auto. exists v, n. repeat split; auto; lia.
    + intros v' n' Hv' Hn'. rewrite Hv in Hv'. injection Hv' as <-.
      rewrite Hn in Hn'. injection Hn' as <-. lia.
  - intros ((H1 & H2 & H3 & (v & n & Hv & Hn & Hr) & H5 & H6) & Hmax).
    repeat split; auto. exists v, n. repeat split; auto. apply (Hmax v n Hv Hn).
Qed.

(** ** Dates *)

Lemma digit_range (c : ascii) (x : Z) : digit c = Some x -> 0 <= x <= 9.
Proof.
  unfold digit. destruct ((48 <=? code c) && (code c <=? 57)) eqn:E; [|discriminate].
  intros [= <-]. apply andb_true_iff in E as [E1 E2].
  apply Z.leb_le in E1, E2. lia.
Qed.

Lemma in_range_true (lo hi x : Z) : in_range lo hi x = true -> lo <= x <= hi.
Proof.
  unfold in_range. intros E. apply andb_true_iff in E as [E1 E2].
  apply Z.leb_le in E1, E2. lia.
Qed.

Lemma match_m_dash_range (s rest : string) (m : Z) :
  match_m_dash s = Some (m, rest) -> 1 <= m <= 12.
Proof.
  unfold match_m_dash, first_some. simpl. intros H.
  repeat match goal with
         | H : context [match ?x with _ => _ end] |- _ =>
             destruct x eqn:?; try discriminate
         end;
    simplify_eq;
    repeat match goal with
           | E : digit _ = Some _ |- _ => apply digit_range in E
           | E : in_range _ _ _ = true |- _ => apply in_range_true in E
           | E : (_ && _) = true |- _ => apply andb_true_iff in E as [? ?]
           | E : (_ =? _) = true |- _ => apply Z.eqb_eq in E
           end;
    lia.
Qed.

Lemma match_d_range (s rest : string) (d : Z) :
  match_d s = Some (d, rest) -> 1 <= d.
Proof.
  unfold match_d, first_some. simpl. intros H.
  repeat match goal with
         | H : context [match ?x with _ => _ end] |- _ =>
             destruct x eqn:?; try discriminate
         end;
    simplify_eq;
    repeat match goal with
           | E : digit _ = Some _ |- _ => apply digit_range in E
           | E : in_range _ _ _ = true |- _ => apply in_range_true in E
           | E : (_ && _) = true |- _ => apply andb_true_iff in E as [? ?]
           | E : (_ =? _) = true |- _ => apply Z.eqb_eq in E
           end;
    lia.
Qed.

(** A date that parses is a calendar date. *)
Lemma strptime_Ymd_valid (s : string) (y m d : Z) :
  strptime_Ymd s = Some (y, m, d) ->
  1 <= y /\ 1 <= m <= 12 /\ 1 <= d <= days_in_month y m.
Proof.
  unfold strptime_Ymd. intros H.
  destruct (match_Y_dash s) as [[y' rest1]|]; [|discriminate].
  destruct (match_m_dash rest1) as [[m' rest2]|] eqn:Em; [|discriminate].
  destruct (match_d rest2) as [[d' rest3]|] eqn:Ed; [|discriminate].
  destruct rest3; [|discriminate].
  destruct ((1 <=? y') && (d' <=? days_in_month y' m')) eqn:E; [|discriminate].
  injection H as <- <- <-. apply andb_true_iff in E as [E1 E2].
  apply Z.leb_le in E1, E2. apply match_m_dash_range in Em. apply match_d_range in Ed. lia.
Qed.

Lemma is_leap_cases (y : Z) : is_leap y = true \/ is_leap y = false.
Proof. destruct (is_leap y); auto. Qed.

Lemma div_step (k y : Z) :
  0 < k -> y / k = (y - 1) / k + (if y mod k =? 0 then 1 else 0).
Proof.
  intros Hk. pose proof (Z.div_mod y k ltac:(lia)) as Hy.
  pose proof (Z.mod_pos_bound y k Hk) as Hr.
  destruct (y mod k =? 0) eqn:E.
  - apply Z.eqb_eq in E. symmetry.
    assert (H : (y - 1) / k = y / k - 1); [|lia].
    symmetry. apply (Z.div_unique_pos (y - 1) k (y / k - 1) (k - 1)); lia.
  - apply Z.eqb_neq in E.
    assert (H : (y - 1) / k = y / k); [|lia].
    symmetry. apply (Z.div_unique_pos (y - 1) k (y / k) (y mod k - 1)); lia.
Qed.

Lemma mod_100_4 (y : Z) : y mod 100 = 0 -> y mod 4 = 0.
Proof.
  intros H. apply Z.mod_divide in H; [|lia]. apply Z.mod_divide; [lia|].
  destruct H as [q ->]. exists (q * 25). lia.
Qed.

Lemma mod_400_100 (y : Z) : y mod 400 = 0 -> y mod 100 = 0.
Proof.
  intros H. apply Z.mod_divide in H; [|lia]. apply Z.mod_divide; [lia|].
  destruct H as [q ->]. exists (q * 4). lia.
Qed.

Lemma days_before_year_succ (y : Z) :
  days_before_year (y + 1) = days_before_year y + 365 + (if is_leap y then 1 else 0).
Proof.
  unfold days_before_year, is_leap. cbv zeta.
  replace (y + 1 - 1) with y by lia.
  rewrite (div_step 4 y), (div_step 100 y), (div_step 400 y) by lia.
  pose proof (mod_100_4 y) as H1. pose proof (mod_400_100 y) as H2.
  destruct (y mod 4 =? 0) eqn:E4; destruct (y mod 100 =? 0) eqn:E100;
    destruct (y mod 400 =? 0) eqn:E400; simpl;
    rewrite ?Z.eqb_eq, ?Z.eqb_neq in *;
    generalize dependent ((y - 1) / 4); generalize dependent ((y - 1) / 100);
    generalize dependent ((y - 1) / 400); intros; try lia; exfalso; tauto.
Qed.

Lemma days_before_year_mono (y1 y2 : Z) :
  y1 <= y2 -> days_before_year y1 <= days_before_year y2.
Proof.
  intros H.
  assert (Hn : forall n : nat, days_before_year y1 <= days_before_year (y1 + Z.of_nat n)).
  { induction n as [|n IH].
    - replace (y1 + Z.of_nat 0) with y1 by lia. lia.
    - replace (y1 + Z.of_nat (S n)) with (y1 + Z.of_nat n + 1) by lia.
      rewrite days_before_year_succ. destruct (is_leap (y1 + Z.of_nat n)); lia. }
  specialize (Hn (Z.to_nat (y2 - y1))).
  replace (y1 + Z.of_nat (Z.to_nat (y2 - y1))) with y2 in Hn by lia. exact Hn.
Qed.

(** The day of the year of a calendar date lies within the year. *)
Lemma day_of_year_range (y m d : Z) :
  1 <= m <= 12 -> 1 <= d <= days_in_month y m ->
  1 <= days_before_month y m + d <= 365 + (if is_leap y then 1 else 0).
Proof.
  intros Hm Hd. unfold days_before_month, days_in_month in *.
  assert (Hcases : m = 1 \/ m = 2 \/ m = 3 \/ m = 4 \/ m = 5 \/ m = 6 \/ m = 7 \/ m = 8
                   \/ m = 9 \/ m = 10 \/ m = 11 \/ m = 12) by lia.
  destruct (is_leap y);
    repeat (destruct Hcases as [-> | Hcases]; [simpl in *; lia|]); subst; simpl in *; lia.
Qed.

(** Within one year the day of the year follows month and day. *)
Lemma day_of_year_mono (y m1 d1 m2 d2 : Z) :
  1 <= m1 <= 12 -> 1 <= d1 <= days_in_month y m1 ->
  1 <= m2 <= 12 -> 1 <= d2 <= days_in_month y m2 ->
  m1 < m2 -> days_before_month y m1 + d1 < days_before_month y m2 + d2.
Proof.
  intros Hm1 Hd1 Hm2 Hd2 Hlt. unfold days_before_month, days_in_month in *.
  assert (Hc1 : m1 = 1 \/ m1 = 2 \/ m1 = 3 \/ m1 = 4 \/ m1 = 5 \/ m1 = 6 \/ m1 = 7 \/ m1 = 8
                \/ m1 = 9 \/ m1 = 10 \/ m1 = 11 \/ m1 = 12) by lia.
  assert (Hc2 : m2 = 1 \/ m2 = 2 \/ m2 = 3 \/ m2 = 4 \/ m2 = 5 \/ m2 = 6 \/ m2 = 7 \/ m2 = 8
                \/ m2 = 9 \/ m2 = 10 \/ m2 = 11 \/ m2 = 12) by lia.
  destruct (is_leap y);
    repeat (destruct Hc1 as [-> | Hc1]; [|]); subst;
    repeat (destruct Hc2 as [-> | Hc2]; [simpl in *; lia|]); subst; simpl in *; lia.
Qed.

(** The comparison of two calendar dates is the comparison of their
    ordinals. *)
Lemma date_gt_toordinal (y1 m1 d1 y2 m2 d2 : Z) :
  1 <= m1 <= 12 -> 1 <= d1 <= days_in_month y1 m1 ->
  1 <= m2 <= 12 -> 1 <= d2 <= days_in_month y2 m2 ->
  date_gt (y1, m1, d1) (y2, m2, d2) = true
  <-> toordinal (y1, m1, d1) > toordinal (y2, m2, d2).
Proof.
  intros Hm1 Hd1 Hm2 Hd2. unfold date_gt, toordinal.
  pose proof (day_of_year_range y1 m1 d1 Hm1 Hd1) as R1.
  pose proof (day_of_year_range y2 m2 d2 Hm2 Hd2) as R2.
  rewrite !orb_true_iff, !andb_true_iff, !Z.gtb_gt, !Z.eqb_eq.
  destruct (Z.lt_trichotomy y1 y2) as [Hy | [Hy | Hy]].
  - pose proof (days_before_year_succ y1) as Hs.
    pose proof (days_before_year_mono (y1 + 1) y2 ltac:(lia)) as Hmono.
    split; [lia|]. intros H. exfalso. lia.
  - subst y2. destruct (Z.lt_trichotomy m1 m2) as [Hmo | [Hmo | Hmo]].
    + pose proof (day_of_year_mono y1 m1 d1 m2 d2 Hm1 Hd1 Hm2 Hd2 Hmo). split; lia.
    + subst m2. split; lia.
    + pose proof (day_of_year_mono y1 m2 d2 m1 d1 Hm2 Hd2 Hm1 Hd1 Hmo). split; lia.
  - pose proof (days_before_year_succ y2) as Hs.
    pose proof (days_before_year_mono (y2 + 1) y1 ltac:(lia)) as Hmono.
    split; [lia|]. intros _. left. lia.
Qed.

(** X13. [validate_date_range] accepts exactly when both dates parse and
    the end lies 0 to 365 days after the start; its message is then empty.
    Two dates that parse are refused as "start after end" exactly when the
    start is the later day, and as "exceeds 365 days" exactly when the end
    is more than 365 days later. A text that does not parse is reported
    with the message of the parser, the start date first. *)
Theorem validate_date_range_spec (strptime_error : string -> string)
    (start_date end_date : string) :
  (fst (validate_date_range strptime_error start_date end_date) = true
   <-> exists s e, strptime_Ymd start_date = Some s /\ strptime_Ymd end_date = Some e
                   /\ 0 <= toordinal e - toordinal s <= 365)
  /\ (fst (validate_date_range strptime_error start_date end_date) = true ->
      snd (validate_date_range strptime_error start_date end_date) = "")
  /\ (forall s e, strptime_Ymd start_date = Some s -> strptime_Ymd end_date = Some e ->
        (toordinal s > toordinal e <->
         validate_date_range strptime_error start_date end_date
         = (false, "Start date cannot be after end date"))
        /\ (toordinal e - toordinal s > 365 <->
            validate_date_range strptime_error start_date end_date
            = (false, "Date range cannot exceed 365 days")))
  /\ (strptime_Ymd start_date = None ->
      validate_date_range strptime_error start_date end_date
      = (false, "Invalid date format: " +:+ strptime_error start_date))
  /\ (is_Some (strptime_Ymd start_date) -> strptime_Ymd end_date = None ->
      validate_date_range strptime_error start_date end_date
      = (false, "Invalid date format: " +:+ strptime_error end_date)).
Proof.
  unfold validate_date_range.
  destruct (strptime_Ymd start_date) as [[[y1 m1] d1]|] eqn:Es.
  2:{ split; [split; [discriminate | intros (s & e & H & _); discriminate]|].
      split; [discriminate|]. split; [intros s e H; discriminate|].
      split; [reflexivity|]. intros [x Hx]. discriminate. }
  destruct (strptime_Ymd end_date) as [[[y2 m2] d2]|] eqn:Ee.
  2:{ split; [split; [discriminate | intros (s & e & _ & H & _); discriminate]|].
      split; [discriminate|]. split; [intros s e _ H; discriminate|].
      split; [discriminate|]. reflexivity. }
  destruct (strptime_Ymd_valid _ _ _ _ Es) as (_ & Hm1 & Hd1).
  destruct (strptime_Ymd_valid _ _ _ _ Ee) as (_ & Hm2 & Hd2).
  pose proof (date_gt_toordinal y1 m1 d1 y2 m2 d2 Hm1 Hd1 Hm2 Hd2) as Hgt.
  set (s := (y1, m1, d1)) in *. set (e := (y2, m2, d2)) in *.
  destruct (date_gt s e) eqn:Eg.
  - assert (Hord : toordinal s > toordinal e) by (apply Hgt; reflexivity).
    split; [split; [discriminate|]|].
    { intros (s' & e' & [= <-] & [= <-] & Hr). lia. }
    split; [discriminate|]. split; [|split; [discriminate|discriminate]].
    intros s' e' [= <-] [= <-]. split; [tauto|]. split; [lia | discriminate].
  - assert (Hord : ~ toordinal s > toordinal e).
    { intros H. apply Hgt in H. discriminate. }
    destruct (toordinal e - toordinal s >? 365) eqn:E365.
    + apply Z.gtb_gt in E365.
      split; [split; [discriminate|]|].
      { intros (s' & e' & [= <-] & [= <-] & Hr). lia. }
      split; [discriminate|]. split; [|split; [discriminate|discriminate]].
      intros s' e' [= <-] [= <-]. split; [split; [lia | discriminate]|]. tauto.
    + assert (H365 : toordinal e - toordinal s <= 365).
      { destruct (Z.gtb_spec (toordinal e - toordinal s) 365); [discriminate | lia]. }
      split; [split; [intros _; exists s, e; repeat split; auto; lia | reflexivity]|].
      split; [reflexivity|]. split; [|split; [discriminate|discriminate]].
      intros s' e' [= <-] [= <-]. split; (split; [lia | discriminate]).
Qed.

(** X14. What follows for the years: an accepted range ends in the year it
    starts in or in the next one, and every range that stays within one
    calendar year and does not run backwards is accepted. *)
Theorem validate_date_range_years (strptime_error : string -> string)
    (start_date end_date : string) (y1 m1 d1 y2 m2 d2 : Z) :
  strptime_Ymd start_date = Some (y1, m1, d1) ->
  strptime_Ymd end_date = Some (y2, m2, d2) ->
  (fst (validate_date_range strptime_error start_date end_date) = true ->
   y1 <= y2 <= y1 + 1)
  /\ (y1 = y2 -> date_gt (y1, m1, d1) (y2, m2, d2) = false ->
      validate_date_range strptime_error start_date end_date = (true, "")).
Proof.
  intros Es Ee. unfold validate_date_range. rewrite Es, Ee.
  destruct (strptime_Ymd_valid _ _ _ _ Es) as (_ & Hm1 & Hd1).
  destruct (strptime_Ymd_valid _ _ _ _ Ee) as (_ & Hm2 & Hd2).
  pose proof (date_gt_toordinal y1 m1 d1 y2 m2 d2 Hm1 Hd1 Hm2 Hd2) as Hgt.
  pose proof (day_of_year_range y1 m1 d1 Hm1 Hd1) as R1.
  pose proof (day_of_year_range y2 m2 d2 Hm2 Hd2) as R2.
  split.
  - destruct (date_gt (y1, m1, d1) (y2, m2, d2)) eqn:Eg; [discriminate|].
    destruct (toordinal (y2, m2, d2) - toordinal (y1, m1, d1) >? 365) eqn:E365;
      [discriminate|]. intros _.
    assert (H365 : toordinal (y2, m2, d2) - toordinal (y1, m1, d1) <= 365).
    { destruct (Z.gtb_spec (toordinal (y2, m2, d2) - toordinal (y1, m1, d1)) 365);
        [discriminate | lia]. }
    assert (Hord : ~ toordinal (y1, m1, d1) > toordinal (y2, m2, d2)).
    { intros H. apply Hgt in H. discriminate. }
    unfold toordinal in *. split.
    + destruct (Z.le_gt_cases y1 y2) as [H|H]; [exact H|]. exfalso.
      pose proof (days_before_year_succ y2) as Hs.
      pose proof (days_before_year_mono (y2 + 1) y1 ltac:(lia)). lia.
    + destruct (Z.le_gt_cases y2 (y1 + 1)) as [H|H]; [exact H|]. exfalso.
      pose proof (days_before_year_succ y1) as Hs1.
      pose proof (days_before_year_succ (y1 + 1)) as Hs2.
      pose proof (days_before_year_mono (y1 + 1 + 1) y2 ltac:(lia)).
      destruct (is_leap y1), (is_leap (y1 + 1)); lia.
  - intros <- Eg. rewrite Eg.
    assert (Hord : ~ toordinal (y1, m1, d1) > toordinal (y1, m2, d2)).
    { intros H. apply Hgt in H. congruence. }
    destruct (toordinal (y1, m2, d2) - toordinal (y1, m1, d1) >? 365) eqn:E365;
      [|reflexivity].
    apply Z.gtb_gt in E365. unfold toordinal in *. exfalso.
    destruct (is_leap y1); lia.
Qed.

Lemma validate_date_range_years_witness :
  (fst (validate_date_range (fun s => s) "2024-01-01" "2024-12-31") = true ->
   2024 <= 2024 <= 2024 + 1)
  /\ (2024 = 2024 -> date_gt (2024, 1, 1) (2024, 12, 31) = false ->
      validate_date_range (fun s => s) "2024-01-01" "2024-12-31" = (true, "")).
Proof.
  apply (validate_date_range_years (fun s => s) "2024-01-01" "2024-12-31" 2024 1 1 2024 12 31).
  - reflexivity.
  - reflexivity.
Defined.

Example toordinal_epoch : toordinal (1970, 1, 1) = 719163.
Proof. reflexivity. Qed.

(** ** Listing with overlap detection *)

(** [get_appointments] either lists the matching records or raises a
    [ValueError]; the state stays as it is. *)
Lemma get_appointments_cases (repr_set : gset string -> string)
    (filters : gmap string string) (st : Store) :
  get_appointments repr_set (Some filters) st
  = (inr (List.filter (matches_filters filters) (appointments_db st)), st)
  \/ exists msg, get_appointments repr_set (Some filters) st = (inl (ValueError msg), st).
Proof.
  destruct (decide (dom filters ∖ ({["date"; "status"; "doctorName"]} : gset string) = ∅))
    as [Hk|Hk].
  2:{ right. eexists. unfold get_appointments.
      change (default ∅ (Some filters)) with filters.
      rewrite (bool_decide_eq_false_2 _ Hk). change (negb false) with true. cbv iota.
      reflexivity. }
  assert (Hstatus : (forall s, truthy (filters !! "status") = Some s ->
                               is_valid_status s = true)
                    \/ exists s, truthy (filters !! "status") = Some s
                                 /\ is_valid_status s = false).
  { destruct (truthy (filters !! "status")) as [s|]; [|left; intros s' Hs'; discriminate].
    destruct (is_valid_status s) eqn:Ev; [left; intros s' [= <-]; exact Ev | right; eauto]. }
  destruct Hstatus as [Hstatus | (s & Es & Ev)].
  2:{ right. eexists. unfold get_appointments.
      change (default ∅ (Some filters)) with filters.
      rewrite (bool_decide_eq_true_2 _ Hk). change (negb true) with false. cbv iota.
      rewrite Es, Ev. reflexivity. }
  assert (Hdate : (forall d, truthy (filters !! "date") = Some d -> is_Some (strptime_Ymd d))
                  \/ exists d, truthy (filters !! "date") = Some d /\ strptime_Ymd d = None).
  { destruct (truthy (filters !! "date")) as [d|]; [|left; intros d' Hd'; discriminate].
    destruct (strptime_Ymd d) as [ymd|] eqn:Ep; [left; intros d' [= <-]; eauto | right; eauto]. }
  destruct Hdate as [Hdate | (d & Ed & Ep)].
  - left. apply get_appointments_accepted; [apply invalid_keys_empty; exact Hk | assumption..].
  - right. eexists. unfold get_appointments.
    change (default ∅ (Some filters)) with filters.
    rewrite (bool_decide_eq_true_2 _ Hk). change (negb true) with false. cbv iota.
    destruct (truthy (filters !! "status")) as [s|] eqn:Es.
    + rewrite (Hstatus s eq_refl). unfold bind, ret, gets. rewrite Ed, Ep. reflexivity.
    + unfold bind, ret, gets. rewrite Ed, Ep. reflexivity.
Qed.

Lemma get_appointments_bad_key (repr_set : gset string -> string)
    (filters : gmap string string) (st : Store) (k : string) :
  is_Some (filters !! k) -> k <> "date" -> k <> "status" -> k <> "doctorName" ->
  exists msg, get_appointments repr_set (Some filters) st = (inl (ValueError msg), st).
Proof.
  intros Hk H1 H2 H3. eexists. unfold get_appointments.
  change (default ∅ (Some filters)) with filters.
  rewrite bool_decide_eq_false_2; [reflexivity|].
  intros Hempty. destruct (proj1 (invalid_keys_empty filters) Hempty k Hk) as [?|[?|?]];
    contradiction.
Qed.

(** X15. A range filter never gets through: whenever the filters hold a
    [start_date] or an [end_date] key, [get_appointments_with_overlap_detection]
    raises a [ValueError] and returns no report (the range is checked when
    both are given, and [get_appointments] then rejects the keys). *)
Theorem overlap_detection_rejects_range (repr_set : gset string -> string)
    (strptime_error : string -> string) (filters : gmap string string) (st : Store) :
  is_Some (filters !! "start_date") \/ is_Some (filters !! "end_date") ->
  exists msg,
    get_appointments_with_overlap_detection repr_set strptime_error (Some filters) st
    = (inl (ValueError msg), st).
Proof.
  intros Hrange. unfold get_appointments_with_overlap_detection.
  change (default ∅ (Some filters)) with filters.
  assert (Hlist : exists msg,
             get_appointments repr_set (Some filters) st = (inl (ValueError msg), st)).
  { destruct Hrange as [H|H].
    - apply (get_appointments_bad_key _ _ _ "start_date" H); discriminate.
    - apply (get_appointments_bad_key _ _ _ "end_date" H); discriminate. }
  destruct Hlist as [msg Hmsg].
  destruct (filters !! "start_date") as [s|], (filters !! "end_date") as [e|];
    try (exists msg; unfold bind at 1; simpl; rewrite (bind_inl _ _ _ _ _ Hmsg); reflexivity).
  destruct (validate_date_range strptime_error s e) as [[] error_msg].
  - exists msg. unfold bind at 1. simpl. rewrite (bind_inl _ _ _ _ _ Hmsg). reflexivity.
  - exists error_msg. reflexivity.
Qed.

Lemma overlap_detection_rejects_range_witness :
  exists msg,
    get_appointments_with_overlap_detection demo_repr_set (fun s => s)
      (Some (<["end_date" := "2024-01-31"]> (<["start_date" := "2024-01-01"]> ∅)))
      (initial_store demo_rand)
    = (inl (ValueError msg), initial_store demo_rand).
Proof.
  apply (overlap_detection_rejects_range demo_repr_set (fun s => s)
           (<["end_date" := "2024-01-31"]> (<["start_date" := "2024-01-01"]> ∅))
           (initial_store demo_rand)).
  left. eexists. reflexivity.
Defined.

(** A key that a pair gave rise to stays, and an overlapping pair gives rise
    to its key. *)
Lemma overlap_pair_keeps (apt1 apt2 : Appointment) (m : gmap string (list Appointment))
    (key : string) :
  is_Some (m !! key) -> is_Some (overlap_pair apt1 apt2 m !! key).
Proof.
  intros H. destruct (overlap_pair_cases apt1 apt2 m) as [[-> _] | (s1 & s2 & _ & ->)];
    [exact H|].
  destruct (decide (overlap_key apt1 s1 s2 = key)) as [<-|Hne].
  - rewrite lookup_insert_eq. eauto.
  - rewrite lookup_insert_ne by exact Hne. exact H.
Qed.

Lemma overlap_pair_adds (apt1 apt2 : Appointment) (m : gmap string (list Appointment))
    (s1 s2 : Z) :
  overlapping apt1 apt2 s1 s2 ->
  is_Some (overlap_pair apt1 apt2 m !! overlap_key apt1 s1 s2).
Proof.
  intros Hov. destruct (overlap_pair_cases apt1 apt2 m) as [[_ Hno] | (t1 & t2 & Hov' & ->)].
  - destruct (Hno _ _ Hov).
  - destruct Hov as (_ & _ & e1 & e2 & Hs1 & Hs2 & _).
    destruct Hov' as (_ & _ & e1' & e2' & Hs1' & Hs2' & _).
    rewrite Hs1 in Hs1'. rewrite Hs2 in Hs2'. injection Hs1' as <- _. injection Hs2' as <- _.
    rewrite lookup_insert_eq. eauto.
Qed.

Lemma overlap_pair_from (apt1 apt2 : Appointment) (m : gmap string (list Appointment))
    (key : string) :
  is_Some (overlap_pair apt1 apt2 m !! key) ->
  is_Some (m !! key) \/ exists s1 s2, overlapping apt1 apt2 s1 s2.
Proof.
  intros H. destruct (overlap_pair_cases apt1 apt2 m) as [[Heq _] | (s1 & s2 & Hov & Heq)].
  - rewrite Heq in H. auto.
  - eauto.
Qed.

Lemma overlap_inner_keys (apt1 : Appointment) (later : list Appointment)
    (m : gmap string (list Appointment)) :
  (forall key, is_Some (m !! key) -> is_Some (overlap_inner apt1 later m !! key))
  /\ (forall j apt2 s1 s2, later !! j = Some apt2 -> overlapping apt1 apt2 s1 s2 ->
        is_Some (overlap_inner apt1 later m !! overlap_key apt1 s1 s2))
  /\ (forall key, is_Some (overlap_inner apt1 later m !! key) ->
        is_Some (m !! key)
        \/ exists j apt2 s1 s2, later !! j = Some apt2 /\ overlapping apt1 apt2 s1 s2).
Proof.
  revert m. induction later as [|apt2 later IH]; intros m.
  - split; [auto|]. split; [|auto]. intros j b s1 s2 Hj. rewrite lookup_nil in Hj. discriminate.
  - unfold overlap_inner. simpl. fold (overlap_inner apt1 later (overlap_pair apt1 apt2 m)).
    destruct (IH (overlap_pair apt1 apt2 m)) as (Hkeep & Hadd & Hfrom).
    split; [|split].
    + intros key Hk. apply Hkeep. apply overlap_pair_keeps. exact Hk.
    + intros j b s1 s2 Hj Hov. destruct j as [|j]; simpl in Hj.
      * injection Hj as <-. apply Hkeep. apply overlap_pair_adds. exact Hov.
      * apply (Hadd j b); assumption.
    + intros key Hk. destruct (Hfrom key Hk) as [Hm | (j & b & s1 & s2 & Hj & Hov)].
      * apply overlap_pair_from in Hm as [Hm | (s1 & s2 & Hov)]; [auto|].
        right. exists 0%nat, apt2, s1, s2. auto.
      * right. exists (S j), b, s1, s2. auto.
Qed.

Lemma overlap_outer_keys (part : list Appointment) (m : gmap string (list Appointment)) :
  (forall key, is_Some (m !! key) -> is_Some (overlap_outer part m !! key))
  /\ (forall i j a b s1 s2, (i < j)%nat -> part !! i = Some a -> part !! j = Some b ->
        overlapping a b s1 s2 -> is_Some (overlap_outer part m !! overlap_key a s1 s2))
  /\ (forall key, is_Some (overlap_outer part m !! key) ->
        is_Some (m !! key)
        \/ exists i j a b s1 s2, (i < j)%nat /\ part !! i = Some a /\ part !! j = Some b
                                 /\ overlapping a b s1 s2).
Proof.
  revert m. induction part as [|apt1 later IH]; intros m.
  - split; [auto|]. split; [|auto].
    intros i j a b s1 s2 _ Hi. rewrite lookup_nil in Hi. discriminate.
  - simpl. destruct (overlap_inner_keys apt1 later m) as (Hkeep1 & Hadd1 & Hfrom1).
    destruct (IH (overlap_inner apt1 later m)) as (Hkeep & Hadd & Hfrom).
    split; [|split].
    + intros key Hk. apply Hkeep, Hkeep1, Hk.
    + intros i j a b s1 s2 Hij Hi Hj Hov. destruct j as [|j]; [lia|]. simpl in Hj.
      destruct i as [|i]; simpl in Hi.
      * injection Hi as <-. apply Hkeep. apply (Hadd1 j b); assumption.
      * apply (Hadd i j a b); [lia | assumption..].
    + intros key Hk. destruct (Hfrom key Hk) as [Hm | (i & j & a & b & s1 & s2 & H)].
      * destruct (Hfrom1 key Hm) as [Hm' | (j & b & s1 & s2 & Hj & Hov)]; [auto|].
        right. exists 0%nat, (S j), apt1, b, s1, s2.
        split; [lia|]. split; [reflexivity|]. split; [exact Hj | exact Hov].
      * right. exists (S i), (S j), a, b, s1, s2.
        destruct H as (Hij & Hi & Hj & Hov).
        split; [lia|]. split; [exact Hi|]. split; [exact Hj | exact Hov].
Qed.

(** The date argument makes no difference on a list already filtered by it. *)
Lemma considered_filtered (filters : gmap string string) (db : list Appointment) :
  considered (List.filter (matches_filters filters) db) (filters !! "date")
  = List.filter (matches_filters filters) db.
Proof.
  unfold considered. destruct (truthy (filters !! "date")) as [d|] eqn:Ed; [|reflexivity].
  rewrite filter_filter_andb. apply filter_ext_eq. intros x.
  unfold matches_filters. rewrite Ed.
  destruct (String.eqb (a_date x) d); simpl; rewrite ?andb_true_r; reflexivity.
Qed.

(** What a returned report holds. *)
Lemma overlap_detection_inr (repr_set : gset string -> string)
    (strptime_error : string -> string) (filters : gmap string string) (st st' : Store)
    (report : OverlapReport) :
  get_appointments_with_overlap_detection repr_set strptime_error (Some filters) st
  = (inr report, st') ->
  st' = st
  /\ rep_appointments report = List.filter (matches_filters filters) (appointments_db st)
  /\ get_appointments repr_set (Some filters) st = (inr (rep_appointments report), st)
  /\ rep_overlaps report = overlap_outer (rep_appointments report) ∅
  /\ md_total_count (rep_metadata report) = length (rep_appointments report)
  /\ md_overlap_count (rep_metadata report) = size (rep_overlaps report)
  /\ md_has_overlaps (rep_metadata report) = (0 <? size (rep_overlaps report))%nat
  /\ md_applied_filters (rep_metadata report) = filters.
Proof.
  unfold get_appointments_with_overlap_detection.
  change (default ∅ (Some filters)) with filters. intros H.
  unfold bind at 1 in H.
  destruct (match filters !! "start_date" with
            | Some start_date =>
                match filters !! "end_date" with
                | Some end_date =>
                    let '(is_valid, error_msg) :=
                      validate_date_range strptime_error start_date end_date in
                    if is_valid then ret () else raise (ValueError error_msg)
                | None => ret ()
                end
            | None => ret ()
            end st) as [[e|[]] st0] eqn:Hcheck; [discriminate|].
  assert (st0 = st) as ->.
  { destruct (filters !! "start_date"), (filters !! "end_date");
      try (injection Hcheck as <-; reflexivity).
    destruct (validate_date_range strptime_error s s0) as [[] msg];
      [injection Hcheck as <-; reflexivity | discriminate]. }
  destruct (get_appointments_cases repr_set filters st) as [Hl | [msg Hl]].
  - rewrite (bind_inr _ _ _ _ _ Hl) in H. unfold ret in H. injection H as <- <-. simpl.
    rewrite get_overlapping_appointments_outer, considered_filtered. auto 10.
  - rewrite (bind_inl _ _ _ _ _ Hl) in H. discriminate.
Qed.

(** The fields of a returned report that the listing alone determines. *)
Lemma overlap_detection_fields (repr_set : gset string -> string)
    (strptime_error : string -> string) (filters : gmap string string) (st st' : Store)
    (report : OverlapReport) :
  get_appointments_with_overlap_detection repr_set strptime_error (Some filters) st
  = (inr report, st') ->
  rep_overlaps report
  = get_overlapping_appointments (rep_appointments report) (filters !! "date")
  /\ rep_empty_state report = handle_empty_appointment_scenarios
  /\ md_unique_dates (rep_metadata report)
     = size (list_to_set (map a_date (rep_appointments report)) : gset string)
  /\ md_unique_doctors (rep_metadata report)
     = size (list_to_set (map a_doctorName (rep_appointments report)) : gset string).
Proof.
  unfold get_appointments_with_overlap_detection.
  change (default ∅ (Some filters)) with filters. intros H.
  unfold bind at 1 in H.
  destruct (match filters !! "start_date" with
            | Some start_date =>
                match filters !! "end_date" with
                | Some end_date =>
                    let '(is_valid, error_msg) :=
                      validate_date_range strptime_error start_date end_date in
                    if is_valid then ret () else raise (ValueError error_msg)
                | None => ret ()
                end
            | None => ret ()
            end st) as [[e|[]] st0] eqn:Hcheck; [discriminate|].
  destruct (get_appointments repr_set (Some filters) st0) as [[e|listed] st1] eqn:Hl.
  - rewrite (bind_inl _ _ _ _ _ Hl) in H. discriminate.
  - rewrite (bind_inr _ _ _ _ _ Hl) in H. unfold ret in H. injection H as <- <-.
    simpl. auto.
Qed.

(** The number of different values a field takes in a list, as the size of
    the set of these values. *)
Lemma size_distinct (field : Appointment -> string) (l : list Appointment) :
  exists values : list string,
    NoDup values
    /\ length values = size (list_to_set (map field l) : gset string)
    /\ forall x, x ∈ values <-> exists a, a ∈ l /\ field a = x.
Proof.
  exists (elements (list_to_set (map field l) : gset string)).
  split; [apply NoDup_elements|]. split; [reflexivity|].
  intros x. rewrite elem_of_elements, elem_of_list_to_set. split.
  - intros Hx. apply list_elem_of_fmap in Hx as (a & -> & Ha). eauto.
  - intros (a & Ha & <-). apply list_elem_of_fmap. eauto.
Qed.

(** X16. What a returned report holds, field by field. It was produced
    without any change of state. Its appointments are what [get_appointments]
    returns for the same filters (none given counts as the empty dictionary);
    its overlaps are what [get_overlapping_appointments] returns for these
    appointments and the date filter; the block of empty-state messages is
    in every report, whether appointments were found or not. In the
    metadata the total is the number of appointments, the overlap count is
    the number of clusters, [has_overlaps] is true exactly when two of the
    listed appointments have the same date and doctor and intersecting
    slots, [unique_dates] and [unique_doctors] are the numbers of different
    date texts and doctor names among the appointments, and the applied
    filters are the filters given. *)
Theorem overlap_detection_report (repr_set : gset string -> string)
    (strptime_error : string -> string) (filters : option (gmap string string))
    (st st' : Store) (report : OverlapReport) :
  get_appointments_with_overlap_detection repr_set strptime_error filters st
  = (inr report, st') ->
  let applied : gmap string string := default ∅ filters in
  st' = st
  /\ get_appointments repr_set (Some applied) st = (inr (rep_appointments report), st)
  /\ rep_overlaps report
     = get_overlapping_appointments (rep_appointments report) (applied !! "date")
  /\ rep_empty_state report = handle_empty_appointment_scenarios
  /\ md_total_count (rep_metadata report) = length (rep_appointments report)
  /\ md_overlap_count (rep_metadata report) = size (rep_overlaps report)
  /\ (md_has_overlaps (rep_metadata report) = true
      <-> exists i j a b s1 s2,
            (i < j)%nat /\ rep_appointments report !! i = Some a
            /\ rep_appointments report !! j = Some b /\ overlapping a b s1 s2)
  /\ (exists dates : list string,
        NoDup dates /\ length dates = md_unique_dates (rep_metadata report)
        /\ forall x, x ∈ dates <-> exists a, a ∈ rep_appointments report /\ a_date a = x)
  /\ (exists doctors : list string,
        NoDup doctors /\ length doctors = md_unique_doctors (rep_metadata report)
        /\ forall x, x ∈ doctors
                     <-> exists a, a ∈ rep_appointments report /\ a_doctorName a = x)
  /\ md_applied_filters (rep_metadata report) = applied.
Proof.
  intros H applied.
  assert (H' : get_appointments_with_overlap_detection repr_set strptime_error
                 (Some applied) st = (inr report, st'))
    by (destruct filters; exact H).
  clear H. pose proof (overlap_detection_fields _ _ _ _ _ _ H')
    as (Hclusters & Hstate & Hdates & Hdoctors).
  apply overlap_detection_inr in H'
    as (-> & _ & Hlist & Hov & Htotal & Hcount & Hhas & Hfilters).
  split; [reflexivity|]. split; [exact Hlist|]. split; [exact Hclusters|].
  split; [exact Hstate|]. split; [exact Htotal|]. split; [exact Hcount|].
  split.
  { rewrite Hhas, Hov.
    destruct (overlap_outer_keys (rep_appointments report) ∅) as (_ & Hadd & Hfrom).
    rewrite Nat.ltb_lt. split.
    - intros Hsize.
      destruct (map_choose (overlap_outer (rep_appointments report) ∅)) as (key & members & Hk).
      { intros Hempty. rewrite Hempty, map_size_empty in Hsize. lia. }
      destruct (Hfrom key (ex_intro _ members Hk)) as [[x Hx] | Hpair]; [|exact Hpair].
      rewrite lookup_empty in Hx. discriminate.
    - intros (i & j & a & b & s1 & s2 & Hij & Hi & Hj & Hovl).
      destruct (Hadd i j a b s1 s2 Hij Hi Hj Hovl) as [members Hm].
      destruct (size (overlap_outer (rep_appointments report) ∅)) eqn:Es; [|lia].
      apply map_size_empty_inv in Es. rewrite Es, lookup_empty in Hm. discriminate.
  }
  split; [rewrite Hdates; apply size_distinct|].
  split; [rewrite Hdoctors; apply size_distinct | exact Hfilters].
Qed.


Lemma overlap_detection_report_witness :
  let filters : gmap string string := <["doctorName" := "Dr. Smith"]> ∅ in
  let st := initial_store demo_rand in
  let listed := List.filter (matches_filters filters) sample_appointments in
  let report :=
    mkOverlapReport listed ∅ handle_empty_appointment_scenarios
      (mkMetadata 4 false 0 4 1 filters) in
  get_appointments demo_repr_set (Some filters) st = (inr (rep_appointments report), st)
  /\ exists dates : list string,
       NoDup dates /\ length dates = 4%nat
       /\ forall x, x ∈ dates <-> exists a, a ∈ listed /\ a_date a = x.
Proof.
  intros filters st listed report.
  destruct (overlap_detection_report demo_repr_set (fun s => s) (Some filters) st st report)
    as (_ & Hlist & _ & _ & _ & _ & _ & Hdates & _).
  - vm_compute. reflexivity.
  - split; [exact Hlist | exact Hdates].
Defined.

Lemma NoDup_map_filter {A B} (f : A -> B) (p : A -> bool) (l : list A) :
  NoDup (map f l) -> NoDup (map f (List.filter p l)).
Proof.
  induction l as [|x l IH]; intros Hnd; [constructor|].
  simpl in Hnd. apply NoDup_cons in Hnd as [Hx Hnd]. simpl.
  destruct (p x); [|auto]. simpl. apply NoDup_cons. split; [|auto].
  intros Hin. apply Hx. apply list_elem_of_fmap in Hin as (y & -> & Hy).
  apply list_elem_of_fmap. exists y. split; [reflexivity|].
  apply list_elem_of_In in Hy. apply filter_In in Hy as [Hy _].
  apply list_elem_of_In. exact Hy.
Qed.

(** X17. On a reachable store the report never shows an overlap: whatever
    calls were made before and whatever the filters, a returned report has
    no cluster, an overlap count of 0 and [has_overlaps] false, because
    [create_appointment] lets no conflicting record in. *)
Theorem overlap_detection_reachable (rand : nat -> string) (requests : list request)
    (repr_set : gset string -> string) (strptime_error : string -> string)
    (filters : gmap string string) (st' : Store) (report : OverlapReport) :
  get_appointments_with_overlap_detection repr_set strptime_error (Some filters)
    (run requests (initial_store rand))
  = (inr report, st') ->
  rep_overlaps report = ∅
  /\ md_overlap_count (rep_metadata report) = 0%nat
  /\ md_has_overlaps (rep_metadata report) = false.
Proof.
  intros H. apply overlap_detection_inr in H
    as (_ & Hlisted & _ & Hov & _ & Hcount & Hhas & _).
  destruct (store_ok_run requests (initial_store rand) store_ok_samples) as (Hnd & _ & Hc).
  set (db := appointments_db (run requests (initial_store rand))) in *.
  assert (Hempty : rep_overlaps report = ∅).
  { apply map_empty. intros key.
    destruct (rep_overlaps report !! key) as [members|] eqn:Hk; [exfalso|reflexivity].
    rewrite Hov in Hk.
    destruct (overlap_outer_keys (rep_appointments report) ∅) as (_ & _ & Hfrom).
    destruct (Hfrom key (ex_intro _ members Hk))
      as [[x Hx] | (i & j & a & b & s1 & s2 & Hij & Hi & Hj & Hovl)].
    { rewrite lookup_empty in Hx. discriminate. }
    assert (Hnd' : NoDup (map a_id (rep_appointments report))).
    { rewrite Hlisted. apply NoDup_map_filter. exact Hnd. }
    assert (Ha : a ∈ db).
    { assert (Hin : a ∈ rep_appointments report) by (apply list_elem_of_lookup; eauto).
      rewrite Hlisted in Hin. apply list_elem_of_In in Hin. apply filter_In in Hin as [Hin _].
      apply list_elem_of_In. exact Hin. }
    assert (Hb : b ∈ db).
    { assert (Hin : b ∈ rep_appointments report) by (apply list_elem_of_lookup; eauto).
      rewrite Hlisted in Hin. apply list_elem_of_In in Hin. apply filter_In in Hin as [Hin _].
      apply list_elem_of_In. exact Hin. }
    assert (Hid : a_id a <> a_id b).
    { intros Heq.
      assert (Hi' : map a_id (rep_appointments report) !! i = Some (a_id a))
        by (rewrite list_lookup_fmap, Hi; reflexivity).
      assert (Hj' : map a_id (rep_appointments report) !! j = Some (a_id a))
        by (rewrite list_lookup_fmap, Hj, Heq; reflexivity).
      pose proof (NoDup_lookup _ _ _ _ Hnd' Hi' Hj'). lia. }
    apply (conflicts_with_double_booked a b (Hc a b Ha Hb) Hid).
    destruct Hovl as (Hd & Hn & e1 & e2 & Hs1 & Hs2 & H1 & H2).
    split; [exact Hd|]. split; [exact Hn|]. exists s1, e1, s2, e2. auto. }
  split; [exact Hempty|]. rewrite Hhas, Hcount, Hempty, map_size_empty. auto.
Qed.

Lemma overlap_detection_reachable_witness :
  let filters : gmap string string := <["date" := "2024-02-01"]> ∅ in
  let created := mkAppointment "apt_00000000" "A" "2024-02-01" "09:00" 30 "Dr. X"
                   "Scheduled" "in-person" in
  let report :=
    mkOverlapReport [created] ∅ handle_empty_appointment_scenarios
      (mkMetadata 1 false 0 1 1 filters) in
  rep_overlaps report = ∅
  /\ md_overlap_count (rep_metadata report) = 0%nat
  /\ md_has_overlaps (rep_metadata report) = false.
Proof.
  intros filters created report.
  apply (overlap_detection_reachable demo_rand [Create (PyDict demo_payload) None]
           demo_repr_set (fun s => s) filters
           (run [Create (PyDict demo_payload) None] (initial_store demo_rand)) report).
  vm_compute. reflexivity.
Defined.

(** ** Appointments by time slot *)

Lemma longest_first_cons (x : Appointment) (l : list Appointment) :
  longest_first (x :: l)
  <-> (forall b, b ∈ l -> a_duration b <= a_duration x) /\ longest_first l.
Proof.
  unfold longest_first. split.
  - intros H. split.
    + intros b Hb. apply list_elem_of_lookup in Hb as [j Hj].
      apply (H 0%nat (S j) x b); [lia | reflexivity | exact Hj].
    + intros i j a b Hij Hi Hj. apply (H (S i) (S j) a b); [lia | exact Hi | exact Hj].
  - intros [Hx Hl] i j a b Hij Hi Hj. destruct j as [|j]; [lia|]. simpl in Hj.
    destruct i as [|i]; simpl in Hi.
    + injection Hi as <-. apply Hx. apply list_elem_of_lookup. eauto.
    + apply (Hl i j a b); [lia | exact Hi | exact Hj].
Qed.

Lemma insert_by_duration_perm (x : Appointment) (l : list Appointment) :
  insert_by_duration x l ≡ₚ l ++ [x].
Proof.
  induction l as [|y l IH]; simpl; [reflexivity|].
  destruct (a_duration y <? a_duration x).
  - change (x :: y :: l) with ([x] ++ (y :: l)). rewrite Permutation_app_comm. reflexivity.
  - rewrite IH. reflexivity.
Qed.

Lemma insert_by_duration_sorted (x : Appointment) (l : list Appointment) :
  longest_first l -> longest_first (insert_by_duration x l).
Proof.
  induction l as [|y l IH]; intros Hl; simpl.
  - apply longest_first_cons. split; [|exact Hl].
    intros b Hb. apply elem_of_nil in Hb. contradiction.
  - apply longest_first_cons in Hl as [Hy Hl].
    destruct (a_duration y <? a_duration x) eqn:E.
    + apply Z.ltb_lt in E. apply longest_first_cons. split.
      * intros b Hb. apply elem_of_cons in Hb as [->|Hb]; [lia|]. specialize (Hy b Hb). lia.
      * apply longest_first_cons. auto.
    + apply Z.ltb_ge in E. apply longest_first_cons. split; [|auto].
      intros b Hb. rewrite insert_by_duration_perm in Hb.
      apply elem_of_app in Hb as [Hb|Hb]; [auto|].
      apply list_elem_of_singleton in Hb. subst b. exact E.
Qed.

(** Stability: among records of one duration the insertion keeps the order. *)
Lemma insert_by_duration_stable (x : Appointment) (l : list Appointment) (d : Z) :
  longest_first l ->
  List.filter (fun a => a_duration a =? d) (insert_by_duration x l)
  = List.filter (fun a => a_duration a =? d) (l ++ [x]).
Proof.
  induction l as [|y l IH]; intros Hl; simpl; [reflexivity|].
  apply longest_first_cons in Hl as [Hy Hl].
  destruct (a_duration y <? a_duration x) eqn:E.
  - apply Z.ltb_lt in E. simpl.
    rewrite List.filter_app. simpl.
    destruct (a_duration x =? d) eqn:Ex.
    + apply Z.eqb_eq in Ex.
      assert (Hy' : (a_duration y =? d) = false) by (apply Z.eqb_neq; lia).
      rewrite Hy'.
      assert (Hnone : List.filter (fun a => a_duration a =? d) l = []).
      { clear IH. induction l as [|z l IHl]; [reflexivity|]. simpl.
        assert (Hz : (a_duration z =? d) = false).
        { apply Z.eqb_neq. specialize (Hy z ltac:(left)). lia. }
        rewrite Hz. apply IHl.
        - intros b Hb. apply Hy. right. exact Hb.
        - apply longest_first_cons in Hl as [_ Hl]. exact Hl. }
      rewrite Hnone. reflexivity.
    + rewrite app_nil_r. reflexivity.
  - simpl. rewrite (IH Hl). reflexivity.
Qed.

Lemma sort_by_duration_desc_spec (l : list Appointment) :
  sort_by_duration_desc l ≡ₚ l
  /\ longest_first (sort_by_duration_desc l)
  /\ forall d, List.filter (fun a => a_duration a =? d) (sort_by_duration_desc l)
               = List.filter (fun a => a_duration a =? d) l.
Proof.
  unfold sort_by_duration_desc.
  assert (H : forall acc,
             longest_first acc ->
             fold_left (fun sorted x => insert_by_duration x sorted) l acc ≡ₚ acc ++ l
             /\ longest_first (fold_left (fun sorted x => insert_by_duration x sorted) l acc)
             /\ forall d,
                  List.filter (fun a => a_duration a =? d)
                    (fold_left (fun sorted x => insert_by_duration x sorted) l acc)
                  = List.filter (fun a => a_duration a =? d) (acc ++ l)).
  { induction l as [|x l IH]; intros acc Hacc; simpl.
    - rewrite app_nil_r. auto.
    - destruct (IH (insert_by_duration x acc) (insert_by_duration_sorted x acc Hacc))
        as (Hp & Hs & Hst).
      split; [|split].
      + rewrite Hp, insert_by_duration_perm, <- app_assoc. reflexivity.
      + exact Hs.
      + intros d. rewrite Hst. change (acc ++ x :: l) with (acc ++ [x] ++ l).
        rewrite !List.filter_app, (insert_by_duration_stable x acc d Hacc).
        rewrite List.filter_app, <- app_assoc. reflexivity. }
  apply (H []). intros i j a b _ Hi. rewrite lookup_nil in Hi. discriminate.
Qed.

Lemma group_by_time_fold (l : list Appointment) (m : gmap string (list Appointment))
    (t : string) :
  fold_left
    (fun time_slots appointment =>
       <[a_time appointment := default [] (time_slots !! a_time appointment) ++ [appointment]]>
         time_slots) l m !! t
  = match List.filter (fun a => String.eqb (a_time a) t) l with
    | [] => m !! t
    | added => Some (default [] (m !! t) ++ added)
    end.
Proof.
  revert m. induction l as [|x l IH]; intros m; simpl; [reflexivity|].
  rewrite IH. destruct (String.eqb (a_time x) t) eqn:E.
  - apply String.eqb_eq in E. subst t. rewrite lookup_insert_eq. simpl.
    destruct (List.filter (fun a => String.eqb (a_time a) (a_time x)) l) as [|y ys].
    + reflexivity.
    + rewrite <- app_assoc. reflexivity.
  - apply String.eqb_neq in E. rewrite lookup_insert_ne by exact E. reflexivity.
Qed.

Lemma group_by_time_lookup (l : list Appointment) (t : string) :
  group_by_time l !! t
  = match List.filter (fun a => String.eqb (a_time a) t) l with
    | [] => None
    | group => Some group
    end.
Proof.
  unfold group_by_time. rewrite group_by_time_fold, lookup_empty. simpl.
  destruct (List.filter _ l); reflexivity.
Qed.

Lemma time_slot_filters_keys (date : string) (doctor_name : option string) :
  dom (time_slot_filters date doctor_name) ∖ ({["date"; "status"; "doctorName"]} : gset string)
  = ∅.
Proof.
  apply invalid_keys_empty. intros k [v Hk]. unfold time_slot_filters in Hk.
  destruct (truthy doctor_name) as [doctor|].
  - destruct (decide (k = "doctorName")) as [->|Hne]; [auto|].
    rewrite lookup_insert_ne in Hk by congruence.
    apply lookup_singleton_Some in Hk as [<- _]. auto.
  - apply lookup_singleton_Some in Hk as [<- _]. auto.
Qed.

(** X18. When [get_appointments_by_time_slot] returns (it raises only for a
    non-empty date that does not parse), the state is unchanged and the
    slots split the listed appointments by their time text: a time has a
    slot exactly when some listed appointment has it, the slot holds exactly
    the listed appointments of that time, longest first, and appointments of
    equal duration stay in listing order. *)
Theorem time_slots_spec (repr_set : gset string -> string) (date : string)
    (doctor_name : option string) (st st' : Store)
    (slots : gmap string (list Appointment)) :
  get_appointments_by_time_slot repr_set date doctor_name st = (inr slots, st') ->
  let listed :=
    List.filter (matches_filters (time_slot_filters date doctor_name)) (appointments_db st) in
  st' = st
  /\ get_appointments repr_set (Some (time_slot_filters date doctor_name)) st
     = (inr listed, st)
  /\ (forall t, slots !! t = None <-> forall a, a ∈ listed -> a_time a <> t)
  /\ (forall t slot, slots !! t = Some slot ->
        slot ≡ₚ List.filter (fun a => String.eqb (a_time a) t) listed
        /\ longest_first slot
        /\ forall d, List.filter (fun a => a_duration a =? d) slot
                     = List.filter (fun a => a_duration a =? d)
                         (List.filter (fun a => String.eqb (a_time a) t) listed)).
Proof.
  intros H listed. unfold get_appointments_by_time_slot in H.
  fold (time_slot_filters date doctor_name) in H.
  destruct (get_appointments_cases repr_set (time_slot_filters date doctor_name) st)
    as [Hl | [msg Hl]].
  2:{ rewrite (bind_inl _ _ _ _ _ Hl) in H. discriminate. }
  rewrite (bind_inr _ _ _ _ _ Hl) in H. unfold ret in H. injection H as <- <-.
  fold listed in Hl. fold listed.
  split; [reflexivity|]. split; [exact Hl|]. split.
  - intros t. rewrite lookup_fmap, group_by_time_lookup.
    destruct (List.filter (fun a => String.eqb (a_time a) t) listed) as [|x xs] eqn:Ef; simpl.
    + split; [|reflexivity]. intros _ a Ha Ht.
      assert (Hin : In a (List.filter (fun a => String.eqb (a_time a) t) listed)).
      { apply filter_In. split; [apply list_elem_of_In; exact Ha|].
        apply String.eqb_eq. exact Ht. }
      rewrite Ef in Hin. destruct Hin.
    + split; [discriminate|]. intros Hnone. exfalso.
      assert (Hin : In x (List.filter (fun a => String.eqb (a_time a) t) listed))
        by (rewrite Ef; left; reflexivity).
      apply filter_In in Hin as [Hin Ht]. apply String.eqb_eq in Ht.
      apply (Hnone x); [apply list_elem_of_In; exact Hin | exact Ht].
  - intros t slot Hslot. rewrite lookup_fmap, group_by_time_lookup in Hslot.
    destruct (List.filter (fun a => String.eqb (a_time a) t) listed) as [|x xs];
      simpl in Hslot; [discriminate|].
    injection Hslot as <-. apply sort_by_duration_desc_spec.
Qed.

Lemma time_slots_spec_witness :
  let st := initial_store demo_rand in
  let slots : gmap string (list Appointment) :=
    <["15:30" := [mkAppointment "apt_008" "Jennifer Garcia" "2024-01-18" "15:30" 45
                    "Dr. Smith" "Confirmed" "online"]]>
      (<["10:00" := [mkAppointment "apt_007" "David Martinez" "2024-01-18" "10:00" 60
                       "Dr. Williams" "Upcoming" "in-person"]]> ∅) in
  let listed :=
    List.filter (matches_filters (time_slot_filters "2024-01-18" None))
                (appointments_db st) in
  st = st
  /\ get_appointments demo_repr_set (Some (time_slot_filters "2024-01-18" None)) st
     = (inr listed, st)
  /\ (forall t, slots !! t = None <-> forall a, a ∈ listed -> a_time a <> t)
  /\ (forall t slot, slots !! t = Some slot ->
        slot ≡ₚ List.filter (fun a => String.eqb (a_time a) t) listed
        /\ longest_first slot
        /\ forall d, List.filter (fun a => a_duration a =? d) slot
                     = List.filter (fun a => a_duration a =? d)
                         (List.filter (fun a => String.eqb (a_time a) t) listed)).
Proof.
  intros st slots.
  apply (time_slots_spec demo_repr_set "2024-01-18" None st st slots).
  vm_compute. reflexivity.
Defined.

(** ** Dashboard counts *)

Lemma count_known_lookup (key k : string) (counts : gmap string nat) :
  count_known key counts !! k
  = (fun n => if String.eqb key k then S n else n) <$> counts !! k.
Proof.
  unfold count_known. destruct (String.eqb key k) eqn:E.
  - apply String.eqb_eq in E. subst k. destruct (counts !! key) as [n|] eqn:Hk.
    + rewrite lookup_insert_eq. reflexivity.
    + rewrite Hk. reflexivity.
  - apply String.eqb_neq in E. destruct (counts !! key) as [n|] eqn:Hk.
    + rewrite lookup_insert_ne by exact E. destruct (counts !! k); reflexivity.
    + destruct (counts !! k); reflexivity.
Qed.

Lemma count_any_lookup (key k : string) (counts : gmap string nat) :
  count_any key counts !! k
  = if String.eqb key k then Some (S (default 0%nat (counts !! k))) else counts !! k.
Proof.
  unfold count_any. destruct (String.eqb key k) eqn:E.
  - apply String.eqb_eq in E. subst k. rewrite lookup_insert_eq. reflexivity.
  - apply String.eqb_neq in E. rewrite lookup_insert_ne by exact E. reflexivity.
Qed.

Lemma count_where_cons (field : Appointment -> string) (value : string)
    (x : Appointment) (db : list Appointment) :
  count_where field value (x :: db)
  = ((if String.eqb (field x) value then 1 else 0) + count_where field value db)%nat.
Proof. unfold count_where. simpl. destruct (String.eqb (field x) value); reflexivity. Qed.

Lemma dashboard_fold (db : list Appointment) (s m d : gmap string nat) (ds : list Z)
    (k : string) :
  let r :=
    fold_left
      (fun '(status_counts, mode_counts, doctor_counts, durations) appointment =>
         (count_known (a_status appointment) status_counts,
          count_known (a_mode appointment) mode_counts,
          count_any (a_doctorName appointment) doctor_counts,
          durations ++ [a_duration appointment]))
      db (s, m, d, ds) in
  r.1.1.1 !! k = (fun n => (n + count_where a_status k db)%nat) <$> s !! k
  /\ r.1.1.2 !! k = (fun n => (n + count_where a_mode k db)%nat) <$> m !! k
  /\ r.1.2 !! k = match count_where a_doctorName k db with
                  | O => d !! k
                  | S c => Some (default 0%nat (d !! k) + S c)%nat
                  end
  /\ r.2 = ds ++ map a_duration db.
Proof.
  revert s m d ds. induction db as [|x db IH]; intros s m d ds; simpl.
  - split; [|split; [|split]]; try reflexivity.
    + destruct (s !! k); simpl; [f_equal; unfold count_where; simpl; lia | reflexivity].
    + destruct (m !! k); simpl; [f_equal; unfold count_where; simpl; lia | reflexivity].
    + rewrite app_nil_r. reflexivity.
  - destruct (IH (count_known (a_status x) s) (count_known (a_mode x) m)
                (count_any (a_doctorName x) d) (ds ++ [a_duration x]))
      as (Hs & Hm & Hd & Hds).
    rewrite !count_where_cons. split; [|split; [|split]].
    + rewrite Hs, count_known_lookup. destruct (s !! k); simpl; [|reflexivity].
      f_equal. destruct (String.eqb (a_status x) k); lia.
    + rewrite Hm, count_known_lookup. destruct (m !! k); simpl; [|reflexivity].
      f_equal. destruct (String.eqb (a_mode x) k); lia.
    + rewrite Hd, count_any_lookup.
      destruct (String.eqb (a_doctorName x) k); simpl.
      * destruct (count_where a_doctorName k db); simpl; f_equal; lia.
      * reflexivity.
    + rewrite Hds, <- app_assoc. reflexivity.
Qed.

Lemma zero_status_lookup (k : string) :
  (<["Confirmed" := 0%nat]> (<["Scheduled" := 0%nat]> (<["Upcoming" := 0%nat]>
     (<["Cancelled" := 0%nat]> (∅ : gmap string nat))))) !! k
  = if is_valid_status k then Some 0%nat else None.
Proof.
  destruct (is_valid_status k) eqn:E.
  - apply py_in_true in E.
    repeat (apply elem_of_cons in E as [->|E]; [reflexivity|]).
    apply elem_of_nil in E. contradiction.
  - apply py_in_false in E.
    rewrite !lookup_insert_ne; [apply lookup_empty| | | |];
      intros <-; apply E; unfold AppointmentStatus.CONFIRMED, AppointmentStatus.SCHEDULED,
        AppointmentStatus.UPCOMING, AppointmentStatus.CANCELLED;
      repeat first [left; reflexivity | right].
Qed.

Lemma zero_mode_lookup (k : string) :
  (<["online" := 0%nat]> (<["in-person" := 0%nat]> (∅ : gmap string nat))) !! k
  = if is_valid_mode k then Some 0%nat else None.
Proof.
  destruct (is_valid_mode k) eqn:E.
  - apply is_valid_mode_iff in E as [->| ->]; reflexivity.
  - rewrite !lookup_insert_ne; [apply lookup_empty| |];
      intros <-; vm_compute in E; discriminate.
Qed.

(** The count tables and the durations after the loop, started from the
    zero tables. *)
Lemma dashboard_tables (db : list Appointment) (k : string) :
  let r :=
    fold_left
      (fun '(status_counts, mode_counts, doctor_counts, durations) appointment =>
         (count_known (a_status appointment) status_counts,
          count_known (a_mode appointment) mode_counts,
          count_any (a_doctorName appointment) doctor_counts,
          durations ++ [a_duration appointment]))
      db (<["Confirmed" := 0%nat]> (<["Scheduled" := 0%nat]> (<["Upcoming" := 0%nat]>
            (<["Cancelled" := 0%nat]> ∅))),
          <["online" := 0%nat]> (<["in-person" := 0%nat]> ∅), ∅, []) in
  r.1.1.1 !! k = (if is_valid_status k then Some (count_where a_status k db) else None)
  /\ r.1.1.2 !! k = (if is_valid_mode k then Some (count_where a_mode k db) else None)
  /\ r.1.2 !! k = match count_where a_doctorName k db with
                  | O => None
                  | S c => Some (S c)
                  end
  /\ r.2 = map a_duration db.
Proof.
  intros r. destruct (dashboard_fold db
        (<["Confirmed" := 0%nat]> (<["Scheduled" := 0%nat]> (<["Upcoming" := 0%nat]>
           (<["Cancelled" := 0%nat]> ∅))))
        (<["online" := 0%nat]> (<["in-person" := 0%nat]> ∅)) ∅ [] k) as (Hs & Hm & Hd & Hds).
  fold r in Hs, Hm, Hd, Hds. split; [|split; [|split]].
  - rewrite Hs, zero_status_lookup. destruct (is_valid_status k); reflexivity.
  - rewrite Hm, zero_mode_lookup. destruct (is_valid_mode k); reflexivity.
  - rewrite Hd, lookup_empty. reflexivity.
  - exact Hds.
Qed.

Lemma py_sum_cons (x : Z) (xs : list Z) : py_sum (x :: xs) = x + py_sum xs.
Proof.
  assert (H : forall acc, fold_left Z.add xs acc = acc + fold_left Z.add xs 0).
  { induction xs as [|y xs IH]; intros acc; simpl; [lia|].
    rewrite (IH (acc + y)), (IH (0 + y)). lia. }
  unfold py_sum. simpl. rewrite (H (0 + x)). lia.
Qed.

(** A sum of numbers below a bound in size is below the bound times their
    number. *)
Lemma py_sum_bound (bound : Z) (xs : list Z) :
  Forall (fun x => Z.abs x < bound) xs -> xs <> [] ->
  Z.abs (py_sum xs) < bound * Z.of_nat (length xs).
Proof.
  intros Hall Hne.
  assert (H : Z.abs (py_sum xs) <= (bound - 1) * Z.of_nat (length xs)).
  { clear Hne. induction Hall as [|x xs Hx _ IH]; [unfold py_sum; simpl; lia|].
    rewrite py_sum_cons. simpl length. rewrite Nat2Z.inj_succ, Z.mul_succ_r. lia. }
  destruct xs as [|x xs]; [contradiction|]. simpl length in *.
  rewrite Nat2Z.inj_succ, Z.mul_succ_r in *. rewrite Z.mul_sub_distr_r in H. lia.
Qed.

(** What a call of [get_dashboard_metrics] does: it fails in the average of
    the durations or returns the counts. *)
Lemma get_dashboard_metrics_cases (st : Store) :
  let db := appointments_db st in
  (db <> []
   /\ true_division_overflows (py_sum (map a_duration db)) (Z.of_nat (length db)) = true
   /\ get_dashboard_metrics st
      = (inl (OverflowError "integer division result too large for a float"), st))
  \/ ((db = []
       \/ true_division_overflows (py_sum (map a_duration db)) (Z.of_nat (length db)) = false)
      /\ exists metrics,
           get_dashboard_metrics st = (inr metrics, st)
           /\ totalAppointments metrics = length db
           /\ (forall k, statusCounts metrics !! k
                         = if is_valid_status k
                           then Some (count_where a_status k db) else None)
           /\ (forall k, modeCounts metrics !! k
                         = if is_valid_mode k
                           then Some (count_where a_mode k db) else None)
           /\ (forall k, doctorCounts metrics !! k
                         = match count_where a_doctorName k db with
                           | O => None
                           | S c => Some (S c)
                           end)).
Proof.
  intros db. subst db. unfold get_dashboard_metrics, bind, gets.
  destruct (appointments_db st) as [|x db] eqn:Hdb.
  - right. split; [left; reflexivity|]. eexists. split; [reflexivity|]. simpl.
    split; [reflexivity|]. split; [|split]; intros k.
    + rewrite zero_status_lookup. destruct (is_valid_status k); reflexivity.
    + rewrite zero_mode_lookup. destruct (is_valid_mode k); reflexivity.
    + apply lookup_empty.
  - pose proof (dashboard_tables (x :: db)) as Htables. cbv zeta in Htables.
    destruct (fold_left _ (x :: db) _) as [[[s m] d] ds].
    assert (Hds : ds = map a_duration (x :: db)) by (apply (Htables "")).
    assert (Hlen : length ds = length (x :: db)) by (rewrite Hds; apply length_map).
    rewrite Hlen. destruct ds as [|d0 ds']; [discriminate|]. cbv beta iota. rewrite Hds.
    destruct (true_division_overflows (py_sum (map a_duration (x :: db)))
                (Z.of_nat (length (x :: db)))) eqn:Eov.
    + left. split; [discriminate|]. split; [reflexivity|]. reflexivity.
    + right. split; [right; reflexivity|]. eexists. split; [reflexivity|].
      split; [reflexivity|].
      split; [|split]; intros k; destruct (Htables k) as (Hs & Hm & Hd & _); assumption.
Qed.

(** X19. [get_dashboard_metrics] never changes the state. It raises in one
    case only: when the store is not empty and the average of the stored
    durations, as a float, would be 2^1024 or more in size, the true division
    of the sum by the number raises [OverflowError]. Otherwise it returns:
    the total is the number of stored appointments; the status and mode
    count tables have exactly the four statuses and the two modes as keys,
    each with the number of stored appointments of that status or mode; the
    doctor count table has exactly the doctors of stored appointments as
    keys, each with the number of that doctor's appointments. It returns in
    particular whenever every stored duration is below 2^1024 - 2^970 in
    size. *)
Theorem dashboard_counts_spec (st : Store) :
  let db := appointments_db st in
  let overflow := OverflowError "integer division result too large for a float" in
  snd (get_dashboard_metrics st) = st
  /\ (fst (get_dashboard_metrics st) = inl overflow
      <-> db <> []
          /\ (2 ^ 1024 - 2 ^ 970) * Z.of_nat (length db) <= Z.abs (py_sum (map a_duration db)))
  /\ (forall e, fst (get_dashboard_metrics st) = inl e -> e = overflow)
  /\ (forall metrics, fst (get_dashboard_metrics st) = inr metrics ->
        totalAppointments metrics = length db
        /\ (forall k, statusCounts metrics !! k
                      = if is_valid_status k
                        then Some (count_where a_status k db) else None)
        /\ (forall k, modeCounts metrics !! k
                      = if is_valid_mode k
                        then Some (count_where a_mode k db) else None)
        /\ (forall k, doctorCounts metrics !! k
                      = match count_where a_doctorName k db with
                        | O => None
                        | S c => Some (S c)
                        end))
  /\ (Forall (fun a => Z.abs (a_duration a) < 2 ^ 1024 - 2 ^ 970) db ->
      exists metrics, get_dashboard_metrics st = (inr metrics, st)).
Proof.
  intros db overflow.
  assert (Hov : forall n : nat,
             true_division_overflows (py_sum (map a_duration db)) (Z.of_nat n) = true
             <-> (2 ^ 1024 - 2 ^ 970) * Z.of_nat n <= Z.abs (py_sum (map a_duration db))).
  { intros n. unfold true_division_overflows. rewrite Z.leb_le.
    rewrite (Z.abs_eq (Z.of_nat n)) by lia. reflexivity. }
  destruct (get_dashboard_metrics_cases st)
    as [(Hne & Hover & Hrun) | (Hcase & metrics & Hrun & Hcounts)];
    fold db in Hne || fold db in Hcase; rewrite Hrun; simpl fst; simpl snd.
  - fold db in Hover. split; [reflexivity|]. split.
    { split; [|reflexivity]. intros _. split; [exact Hne|]. apply Hov. exact Hover. }
    split; [intros e [= <-]; reflexivity|]. split; [discriminate|].
    intros Hall. exfalso. apply Hov in Hover.
    assert (Hne' : map a_duration db <> []) by (destruct db; [contradiction | discriminate]).
    assert (Hall' : Forall (fun x => Z.abs x < 2 ^ 1024 - 2 ^ 970) (map a_duration db)).
    { apply Forall_forall. intros x Hx. apply list_elem_of_fmap in Hx as (a & -> & Ha).
      rewrite Forall_forall in Hall. apply (Hall a Ha). }
    pose proof (py_sum_bound _ _ Hall' Hne') as Hb. rewrite length_map in Hb. lia.
  - split; [reflexivity|]. split.
    { split; [discriminate|]. intros [Hne Hbig]. exfalso. apply Hov in Hbig.
      destruct Hcase as [Hempty | Hno]; [contradiction|]. fold db in Hno. congruence. }
    split; [discriminate|]. split; [|eauto].
    intros metrics' [= <-]. exact Hcounts.
Qed.

Lemma dashboard_counts_spec_witness :
  let long := mkAppointment "apt_900" "A" "2024-02-01" "09:00" (2 ^ 1025) "Dr. X"
                "Scheduled" "in-person" in
  let st := set_appointments_db [long] (initial_store demo_rand) in
  get_dashboard_metrics st
  = (inl (OverflowError "integer division result too large for a float"), st).
Proof.
  intros long st.
  destruct (dashboard_counts_spec st) as (Hst & [_ Hraise] & _).
  rewrite (surjective_pairing (get_dashboard_metrics st)), Hst, Hraise; [reflexivity|].
  split; [discriminate|]. vm_compute. discriminate.
Defined.

Lemma status_counts_total (db : list Appointment) :
  Forall record_valid db ->
  (count_where a_status "Confirmed" db + count_where a_status "Scheduled" db
   + count_where a_status "Upcoming" db + count_where a_status "Cancelled" db)%nat
  = length db
  /\ (count_where a_mode "online" db + count_where a_mode "in-person" db)%nat = length db.
Proof.
  induction 1 as [|x db Hx _ IH]; [split; reflexivity|].
  destruct IH as [IHs IHm]. rewrite !count_where_cons. simpl length.
  destruct Hx as (_ & _ & _ & _ & _ & Hs & Hm).
  apply is_valid_mode_iff in Hm. apply py_in_true in Hs.
  split.
  - repeat (apply elem_of_cons in Hs as [->|Hs]; [simpl; lia|]).
    apply elem_of_nil in Hs. contradiction.
  - destruct Hm as [-> | ->]; simpl; lia.
Qed.

(** X20. In every reachable state the dashboard's status counts add up to
    its total, and so do its mode counts: every stored appointment is
    counted under exactly one of the four statuses and one of the two
    modes. *)
Theorem dashboard_counts_add_up (rand : nat -> string) (requests : list request) :
  let st := run requests (initial_store rand) in
  exists metrics confirmed scheduled upcoming cancelled online in_person,
    get_dashboard_metrics st = (inr metrics, st)
    /\ statusCounts metrics !! "Confirmed" = Some confirmed
    /\ statusCounts metrics !! "Scheduled" = Some scheduled
    /\ statusCounts metrics !! "Upcoming" = Some upcoming
    /\ statusCounts metrics !! "Cancelled" = Some cancelled
    /\ modeCounts metrics !! "online" = Some online
    /\ modeCounts metrics !! "in-person" = Some in_person
    /\ (confirmed + scheduled + upcoming + cancelled)%nat = totalAppointments metrics
    /\ (online + in_person)%nat = totalAppointments metrics.
Proof.
  intros st.
  assert (Hok : store_ok (appointments_db st)).
  { apply store_ok_run. apply store_ok_samples. }
  destruct Hok as (_ & Hvalid & _).
  destruct (status_counts_total _ Hvalid) as [Hsum Hsum'].
  destruct (get_dashboard_metrics_cases st)
    as [(Hne & Hover & _) | (_ & metrics & Hrun & Ht & Hs & Hm & _)].
  { exfalso. unfold true_division_overflows in Hover. apply Z.leb_le in Hover.
    assert (Hne' : map a_duration (appointments_db st) <> [])
      by (destruct (appointments_db st); [contradiction | discriminate]).
    assert (Hall : Forall (fun x => Z.abs x < 2 ^ 1024 - 2 ^ 970)
                     (map a_duration (appointments_db st))).
    { apply Forall_forall. intros x Hx. apply list_elem_of_fmap in Hx as (a & -> & Ha).
      rewrite Forall_forall in Hvalid. destruct (Hvalid a Ha) as (_ & _ & _ & Hdur & _).
      assert (Hbig : 480 < 2 ^ 1024 - 2 ^ 970) by (vm_compute; reflexivity).
      lia. }
    pose proof (py_sum_bound _ _ Hall Hne') as Hb. rewrite length_map in Hb.
    rewrite (Z.abs_eq (Z.of_nat _)) in Hover by lia. lia. }
  exists metrics. do 6 eexists. split; [exact Hrun|].
  rewrite !Hs, !Hm. change (is_valid_status "Confirmed") with true.
  change (is_valid_status "Scheduled") with true.
  change (is_valid_status "Upcoming") with true.
  change (is_valid_status "Cancelled") with true.
  change (is_valid_mode "online") with true.
  change (is_valid_mode "in-person") with true.
  repeat (split; [reflexivity|]). rewrite Ht. split; [exact Hsum | exact Hsum'].
Qed.

(** ** Sample runs of the properties above *)

Lemma reachable_ids_unique_witness :
  let db := appointments_db
              (run [Create (PyDict demo_payload) None; Delete "apt_002"]
                   (initial_store demo_rand)) in
  let a := mkAppointment "apt_00000000" "A" "2024-02-01" "09:00" 30 "Dr. X"
             "Scheduled" "in-person" in
  NoDup (map a_id db) /\ a = a.
Proof.
  intros db a.
  destruct (reachable_ids_unique demo_rand
              [Create (PyDict demo_payload) None; Delete "apt_002"]) as [Hnd Hsame].
  split; [exact Hnd|].
  apply (Hsame a a).
  - apply list_elem_of_In. vm_compute. tauto.
  - apply list_elem_of_In. vm_compute. tauto.
  - reflexivity.
Defined.

Lemma reachable_no_double_booking_witness :
  let a := mkAppointment "apt_00000000" "A" "2024-02-01" "09:00" 30 "Dr. X"
             "Scheduled" "in-person" in
  let b := mkAppointment "apt_00000002" "A" "2024-02-01" "09:30" 30 "Dr. X"
             "Scheduled" "in-person" in
  ~ double_booked a b.
Proof.
  intros a b.
  destruct reachable_no_double_booking as [Hnone _].
  apply (Hnone demo_rand
           [Create (PyDict demo_payload) None;
            Create (PyDict (<["time" := VStr "09:15"]> demo_payload)) None;
            Create (PyDict (<["time" := VStr "09:30"]> demo_payload)) None] a b).
  - apply list_elem_of_In. vm_compute. tauto.
  - apply list_elem_of_In. vm_compute. tauto.
  - discriminate.
Defined.

Lemma get_appointments_errors_witness :
  let st := initial_store demo_rand in
  let filters : gmap string string := {["colour" := "red"]} in
  let valid_keys : gset string := {["date"; "status"; "doctorName"]} in
  fst (get_appointments demo_repr_set (Some filters) st)
  = inl (ValueError ("Invalid filter keys: " +:+ demo_repr_set (dom filters ∖ valid_keys)
                     +:+ ". Valid keys are: " +:+ demo_repr_set valid_keys)).
Proof.
  intros st filters valid_keys.
  destruct (get_appointments_errors demo_repr_set filters st) as (_ & Hkeys & _).
  apply Hkeys.
  intros H. apply (f_equal size) in H. vm_compute in H. discriminate.
Defined.

Lemma validate_date_range_spec_witness :
  validate_date_range (fun s => s) "yesterday" "2024-01-02"
  = (false, "Invalid date format: yesterday")
  /\ snd (validate_date_range (fun s => s) "2024-01-01" "2024-01-31") = "".
Proof.
  split.
  - destruct (validate_date_range_spec (fun s => s) "yesterday" "2024-01-02")
      as (_ & _ & _ & Hstart & _).
    apply Hstart. reflexivity.
  - destruct (validate_date_range_spec (fun s => s) "2024-01-01" "2024-01-31")
      as (_ & Hmsg & _).
    apply Hmsg. reflexivity.
Defined.
